(** * AI ecosystem mapper: a shallow embedding of [ai_ecosystem_mapper.py]

    The development follows the class [AIEcosystemMapper]: the two rule
    tables, the primary-creator identification, the four text scans of a
    pull request, their aggregation, and the ecosystem report.

    Modelling conventions.
    - A Python [str] is a [string]; [lower] and [strip] act on the ASCII
      range (letters A-Z, and the ASCII characters Python counts as white
      space) and leave every other character alone. [_extract_context]
      is given a second time in the module [CodePoints], on sequences of
      code points and with the full white space of [str.isspace]: what is
      stated of the snippet for every text is stated there, and the two
      versions agree on ASCII text.
    - Integers are [Z]; a string index or length is a [Z], so that the
      clipping [max(0, ...)] and [min(len(text), ...)] is visible.
    - A [dict] is an association list in insertion order with unique keys.
    - A raised exception is the [Raise] case of [result].
    - The quotient computed by Python's [/] on integers is the exact
      rational [Q]; dividing by zero raises [ZeroDivisionError].
    - Printing, sleeping and the JSON dump carry no result and are left
      out; what the report prints is returned as a record. *)

From Stdlib Require Import String Ascii List ZArith NArith Lia Bool.
From Stdlib Require Import Permutation QArith.
Import ListNotations.

Open Scope string_scope.
Open Scope Z_scope.

(** ** Python strings *)

Definition len (s : string) : Z := Z.of_nat (String.length s).

Definition is_upper (c : ascii) : bool :=
  let n := N_of_ascii c in ((65 <=? n) && (n <=? 90))%N.

Definition lower_char (c : ascii) : ascii :=
  if is_upper c then ascii_of_N (N_of_ascii c + 32) else c.

(** [s.lower()] *)
Fixpoint lower (s : string) : string :=
  match s with
  | EmptyString => EmptyString
  | String c s' => String (lower_char c) (lower s')
  end.

(** The ASCII characters for which [str.isspace] holds: TAB, LF, VT, FF,
    CR, the four separators FS, GS, RS, US, and the space. *)
Definition is_space (c : ascii) : bool :=
  let n := N_of_ascii c in
  (((9 <=? n) && (n <=? 13)) || ((28 <=? n) && (n <=? 32)))%N.

Fixpoint lstrip (s : string) : string :=
  match s with
  | EmptyString => EmptyString
  | String c s' => if is_space c then lstrip s' else s
  end.

Fixpoint rstrip (s : string) : string :=
  match s with
  | EmptyString => EmptyString
  | String c s' =>
      match rstrip s' with
      | EmptyString => if is_space c then EmptyString else String c EmptyString
      | r => String c r
      end
  end.

(** [s.strip()] *)
Definition strip (s : string) : string := rstrip (lstrip s).

(** [s.startswith(p)] *)
Fixpoint startswith (p s : string) : bool :=
  match p, s with
  | EmptyString, _ => true
  | String _ _, EmptyString => false
  | String a p', String b s' => Ascii.eqb a b && startswith p' s'
  end.

(** [p in s] for two strings: [p] occurs in [s] as a substring. *)
Fixpoint str_in (p s : string) : bool :=
  if startswith p s then true
  else match s with
       | EmptyString => false
       | String _ s' => str_in p s'
       end.

Fixpoint find_from (p s : string) (i : Z) : Z :=
  if startswith p s then i
  else match s with
       | EmptyString => -1
       | String _ s' => find_from p s' (i + 1)
       end.

(** [text.find(p)]: the index of the first occurrence, or [-1]. *)
Definition find (text p : string) : Z := find_from p text 0.

(** [s[n:]] for a natural [n] *)
Fixpoint drop (n : nat) (s : string) : string :=
  match n, s with
  | O, _ => s
  | S _, EmptyString => EmptyString
  | S n', String _ s' => drop n' s'
  end.

(** A slice bound as Python normalises it: a negative bound counts from
    the end, and every bound is clipped to [0 .. len]. *)
Definition slice_bound (n i : Z) : Z :=
  if i <? 0 then Z.max 0 (i + n) else Z.min i n.

(** [s[start:stop]] *)
Definition slice (s : string) (start stop : Z) : string :=
  let a := slice_bound (len s) start in
  let b := slice_bound (len s) stop in
  substring (Z.to_nat a) (Z.to_nat (b - a)) s.

(** ** [_extract_context]

    The body of the [try] raises nothing on two strings, so the bare
    [except] branch (which computes the same fallback) is never taken. *)
Definition extract_context_with (text pattern : string) (context_length : Z)
  : string :=
  let pattern_pos := find text pattern in
  if pattern_pos =? -1 then strip (slice text 0 context_length)
  else
    let start := Z.max 0 (pattern_pos - context_length / 2) in
    let stop :=
      Z.min (len text) (pattern_pos + len pattern + context_length / 2) in
    strip (slice text start stop).

(** The default [context_length=80], which every caller uses. *)
Definition _extract_context (text pattern : string) : string :=
  extract_context_with text pattern 80.

(** ** Dictionaries in insertion order *)

Section Dict.
Context {K V : Type} (keqb : K -> K -> bool).

(** [k in d] *)
Fixpoint dict_mem (k : K) (d : list (K * V)) : bool :=
  match d with
  | [] => false
  | (k', _) :: r => if keqb k' k then true else dict_mem k r
  end.

(** [d.get(k)] *)
Fixpoint dict_get (k : K) (d : list (K * V)) : option V :=
  match d with
  | [] => None
  | (k', v) :: r => if keqb k' k then Some v else dict_get k r
  end.

(** [d.get(k, dflt)] *)
Definition dict_get_default (k : K) (dflt : V) (d : list (K * V)) : V :=
  match dict_get k d with
  | Some v => v
  | None => dflt
  end.

(** [d[k] = v]: an existing key keeps its place, a new key goes last. *)
Fixpoint dict_set (k : K) (v : V) (d : list (K * V)) : list (K * V) :=
  match d with
  | [] => [(k, v)]
  | (k', v') :: r =>
      if keqb k' k then (k', v) :: r else (k', v') :: dict_set k v r
  end.

(** [list(d.keys())] *)
Definition dict_keys (d : list (K * V)) : list K := map fst d.
End Dict.

(** ** The rule tables *)

Definition ai_tool_patterns : list (string * list string) :=
  [ ("chatgpt",
      ["chatgpt"; "chat-gpt"; "gpt-4"; "gpt-3.5"; "gpt-3"; "openai gpt";
       "generated with chatgpt"; "chatgpt helped"; "used chatgpt";
       "chatgpt suggested"; "ask chatgpt"; "chatgpt says";
       "according to chatgpt"]);
    ("github_copilot",
      ["github copilot"; "copilot"; "gh copilot"; "copilot suggested";
       "copilot generated"; "with copilot"; "copilot helped"; "copilot says";
       "copilot completion"; "copilot auto"; "thanks copilot"]);
    ("claude",
      ["claude"; "anthropic claude"; "claude ai"; "claude helped";
       "claude says"; "generated with claude"; "claude suggested";
       "asked claude"; "claude thinks"; "claude code"; "claude-code"]);
    ("codex",
      ["codex"; "openai codex"; "codex generated"; "with codex"; "codex says";
       "codex completion"; "codex helped"]);
    ("cursor",
      ["cursor ai"; "cursor"; "cursor suggested"; "cursor helped";
       "with cursor"; "cursor completion"; "cursor says"]);
    ("devin",
      ["devin"; "devin ai"; "devin-ai"; "devin generated"; "devin says";
       "devin helped"; "devin suggested"]);
    ("codewhisperer",
      ["codewhisperer"; "code whisperer"; "amazon codewhisperer";
       "aws codewhisperer"]);
    ("tabnine",
      ["tabnine"; "tab nine"; "tabnine completion"; "tabnine suggested"]);
    ("cody",
      ["cody ai"; "sourcegraph cody"; "cody"; "cody helped";
       "cody suggested"]);
    ("general_ai",
      ["ai assisted"; "ai generated"; "ai helped"; "ai suggestion"; "ai tool";
       "artificial intelligence"; "machine learning"; "neural network";
       "large language model"; "llm"; "ai model"; "ai review";
       "ai analysis"]) ].

Record creator_rule := {
  bot_accounts : list string;
  branch_patterns : list string;
  commit_patterns : list string
}.

Definition creator_patterns : list (string * creator_rule) :=
  [ ("devin",
      {| bot_accounts := ["devin-ai-integration[bot]"; "devin-ai[bot]"];
         branch_patterns := ["devin/"; "devin-"];
         commit_patterns := ["devin:"; "by devin"] |});
    ("codegen",
      {| bot_accounts := ["codegen-sh[bot]"; "codegen[bot]"];
         branch_patterns := ["codegen/"; "codegen-"];
         commit_patterns := ["codegen:"; "by codegen"] |});
    ("github_copilot",
      {| bot_accounts := ["github-copilot[bot]"];
         branch_patterns := ["copilot/"; "copilot-"];
         commit_patterns := ["copilot:"; "by copilot"] |});
    ("codex",
      {| bot_accounts := ["openai-codex[bot]"];
         branch_patterns := ["codex/"; "codex-"];
         commit_patterns := ["codex:"; "by codex"] |});
    ("cursor",
      {| bot_accounts := ["cursor[bot]"; "cursor-ai[bot]"];
         branch_patterns := ["cursor/"; "cursor-"];
         commit_patterns := ["cursor:"; "by cursor"] |}) ].

(** ** Exceptions *)

Inductive exn :=
| TypeError | AttributeError | KeyError | ValueError
| RequestException | ZeroDivisionError.

Inductive result (A : Type) :=
| Ok (a : A)
| Raise (e : exn).
Arguments Ok {A} a.
Arguments Raise {A} e.

Definition bind {A B : Type} (m : result A) (f : A -> result B) : result B :=
  match m with
  | Ok a => f a
  | Raise e => Raise e
  end.

Notation "x <- m ;; k" := (bind m (fun x => k))
  (at level 61, m at next level, right associativity).

Fixpoint map_result {A B : Type} (f : A -> result B) (l : list A)
  : result (list B) :=
  match l with
  | [] => Ok []
  | x :: r => y <- f x ;; ys <- map_result f r ;; Ok (y :: ys)
  end.

(** ** Values read from the platform's JSON *)

(** A string-valued member of a JSON object: absent, [null], or a string. *)
Inductive jfield :=
| JMissing
| JNull
| JStr (s : string).

(** A Python value that is a string or [None]. *)
Inductive pyval :=
| PyNone
| PyStr (s : string).

(** [obj.get(key, '')]: the default only replaces an absent member. *)
Definition get_or_empty (f : jfield) : pyval :=
  match f with
  | JMissing => PyStr ""
  | JNull => PyNone
  | JStr s => PyStr s
  end.

(** [v.lower()] *)
Definition lower_val (v : pyval) : result string :=
  match v with
  | PyStr s => Ok (lower s)
  | PyNone => Raise AttributeError
  end.

(** [s + v] for a string [s] *)
Definition concat_val (s : string) (v : pyval) : result string :=
  match v with
  | PyStr t => Ok (s ++ t)
  | PyNone => Raise TypeError
  end.

(** [obj[key]] for a member that has to be there. *)
Definition subscript (f : option string) : result string :=
  match f with
  | Some s => Ok s
  | None => Raise KeyError
  end.

(** The PR record built by [get_ai_pr_watcher_prs]. *)
Record pr_data := {
  pr_number : Z;
  title : string;
  url : string;
  repo_owner : string;
  repo_name : string;
  detection_query : string;
  state : string;
  created_at : string;
  updated_at : string;
  author : string;
  body : jfield
}.

(** What [requests.get] gives: it raises, or it returns a response with a
    status code whose [json()] either decodes or raises. *)
Inductive response (A : Type) :=
| RequestFailed
| Response (status_code : Z) (json : option A).
Arguments RequestFailed {A}.
Arguments Response {A} status_code json.

Record issue_comment := {
  ic_body : jfield;
  ic_user_login : option string;
  ic_created_at : option string
}.

Record review_comment := {
  rc_body : jfield;
  rc_user_login : option string;
  rc_path : option string
}.

Record commit := {
  cm_message : option string;
  cm_sha : option string;
  cm_author_name : option string
}.

(** The three endpoints the scans read, by owner, repository and number. *)
Record forge := {
  issue_comments : string -> string -> Z -> response (list issue_comment);
  review_comments : string -> string -> Z -> response (list review_comment);
  pr_commits : string -> string -> Z -> response (list commit)
}.

(** ** Evidence *)

Inductive source_meta :=
| NoMeta
| CommentMeta (author date : string)
| ReviewMeta (author file : string)
| CommitMeta (commit_sha author : string).

Record evidence := {
  ev_location : string;
  ev_pattern : string;
  ev_context : string;
  ev_meta : source_meta
}.

Definition evidence_map := list (string * list evidence).

(** ** [identify_primary_creator] *)

Inductive confidence := high | medium | low.

Record verdict := {
  primary_creator : string;
  v_confidence : confidence;
  v_evidence : string
}.

Fixpoint check_bot_accounts (author_lc author_raw : string)
  (rules : list (string * creator_rule)) : option verdict :=
  match rules with
  | [] => None
  | (tool_name, patterns) :: rest =>
      if existsb (String.eqb author_lc) (map lower (bot_accounts patterns))
      then Some {| primary_creator := tool_name;
                   v_confidence := high;
                   v_evidence := "Bot account: " ++ author_raw |}
      else check_bot_accounts author_lc author_raw rest
  end.

Definition identify_primary_creator (pr : pr_data) : verdict :=
  let author_lc := lower (author pr) in
  let query := detection_query pr in
  match check_bot_accounts author_lc (author pr) creator_patterns with
  | Some v => v
  | None =>
      if str_in "head:copilot/" query then
        {| primary_creator := "github_copilot";
           v_confidence := medium;
           v_evidence := "Branch pattern: copilot/" |}
      else if str_in "head:codex/" query then
        {| primary_creator := "codex";
           v_confidence := medium;
           v_evidence := "Branch pattern: codex/" |}
      else if str_in "head:cursor/" query then
        {| primary_creator := "cursor";
           v_confidence := low;
           v_evidence :=
             "Branch pattern: cursor/ (cursor is primarily an IDE)" |}
      else
        {| primary_creator := "unknown";
           v_confidence := low;
           v_evidence :=
             "Author: " ++ author pr ++ ", Query: " ++ query |}
  end.

(** ** Scanning one text *)

(** The three statements run on a hit: create the tool's list when the
    tool is new, then append to it. *)
Definition record_match (found : evidence_map) (tool_name : string)
  (ev : evidence) : evidence_map :=
  let found :=
    if dict_mem String.eqb tool_name found then found
    else dict_set String.eqb tool_name [] found in
  dict_set String.eqb tool_name
    (dict_get_default String.eqb tool_name [] found ++ [ev])%list found.

(** The inner loop over one tool's phrases. *)
Definition scan_patterns (mk : string -> string -> evidence) (text : string)
  (tool_name : string) (patterns : list string) (found : evidence_map)
  : evidence_map :=
  fold_left
    (fun found pattern =>
       if str_in pattern text
       then record_match found tool_name
              (mk pattern (_extract_context text pattern))
       else found)
    patterns found.

(** The double loop [for tool_name, patterns in ai_tool_patterns.items():
    for pattern in patterns: ...], the same in all four scans but for the
    evidence it builds; [mk] takes the phrase and the context. *)
Definition scan_text (mk : string -> string -> evidence) (text : string)
  (found : evidence_map) : evidence_map :=
  fold_left
    (fun found entry => scan_patterns mk text (fst entry) (snd entry) found)
    ai_tool_patterns found.

Definition description_evidence (pattern context : string) : evidence :=
  {| ev_location := "PR description"; ev_pattern := pattern;
     ev_context := context; ev_meta := NoMeta |}.

Definition comment_evidence (author date pattern context : string)
  : evidence :=
  {| ev_location := "PR comment"; ev_pattern := pattern;
     ev_context := context; ev_meta := CommentMeta author date |}.

Definition review_evidence (author file pattern context : string)
  : evidence :=
  {| ev_location := "Code review comment"; ev_pattern := pattern;
     ev_context := context; ev_meta := ReviewMeta author file |}.

Definition commit_evidence (sha author pattern context : string) : evidence :=
  {| ev_location := "Commit message"; ev_pattern := pattern;
     ev_context := context; ev_meta := CommitMeta sha author |}.

(** ** The three fetched sources

    Each loop runs inside [try]; an exception leaves the loop and is
    swallowed by [except Exception], and the function returns the
    dictionary as it stands. The loops return that dictionary together
    with the exception that ended them, if any. *)

Fixpoint scan_issue_comments (comments : list issue_comment)
  (ai_evidence : evidence_map) : evidence_map * option exn :=
  match comments with
  | [] => (ai_evidence, None)
  | comment :: rest =>
      match
        (comment_body <- lower_val (get_or_empty (ic_body comment)) ;;
         comment_author <- subscript (ic_user_login comment) ;;
         comment_date <- subscript (ic_created_at comment) ;;
         Ok (comment_body, comment_author, comment_date))
      with
      | Raise e => (ai_evidence, Some e)
      | Ok (comment_body, comment_author, comment_date) =>
          scan_issue_comments rest
            (scan_text (comment_evidence comment_author comment_date)
               comment_body ai_evidence)
      end
  end.

Definition _scan_pr_comments (f : forge) (owner name : string) (number : Z)
  : evidence_map :=
  match issue_comments f owner name number with
  | RequestFailed => []
  | Response status_code json =>
      if status_code =? 200 then
        match json with
        | None => []
        | Some comments => fst (scan_issue_comments comments [])
        end
      else []
  end.

Fixpoint scan_review_list (comments : list review_comment)
  (ai_evidence : evidence_map) : evidence_map * option exn :=
  match comments with
  | [] => (ai_evidence, None)
  | comment :: rest =>
      match
        (comment_body <- lower_val (get_or_empty (rc_body comment)) ;;
         comment_author <- subscript (rc_user_login comment) ;;
         Ok (comment_body, comment_author))
      with
      | Raise e => (ai_evidence, Some e)
      | Ok (comment_body, comment_author) =>
          let file_path :=
            match rc_path comment with
            | Some p => p
            | None => "Unknown"
            end in
          scan_review_list rest
            (scan_text (review_evidence comment_author file_path)
               comment_body ai_evidence)
      end
  end.

Definition _scan_review_comments (f : forge) (owner name : string)
  (number : Z) : evidence_map :=
  match review_comments f owner name number with
  | RequestFailed => []
  | Response status_code json =>
      if status_code =? 200 then
        match json with
        | None => []
        | Some comments => fst (scan_review_list comments [])
        end
      else []
  end.

Fixpoint scan_commit_list (commits : list commit)
  (ai_evidence : evidence_map) : evidence_map * option exn :=
  match commits with
  | [] => (ai_evidence, None)
  | c :: rest =>
      match
        (message <- subscript (cm_message c) ;;
         sha <- subscript (cm_sha c) ;;
         commit_author <- subscript (cm_author_name c) ;;
         Ok (lower message, slice sha 0 8, commit_author))
      with
      | Raise e => (ai_evidence, Some e)
      | Ok (commit_message, commit_sha, commit_author) =>
          scan_commit_list rest
            (scan_text (commit_evidence commit_sha commit_author)
               commit_message ai_evidence)
      end
  end.

Definition _scan_commit_messages (f : forge) (owner name : string)
  (number : Z) : evidence_map :=
  match pr_commits f owner name number with
  | RequestFailed => []
  | Response status_code json =>
      if status_code =? 200 then
        match json with
        | None => []
        | Some commits => fst (scan_commit_list commits [])
        end
      else []
  end.

(** ** [scan_pr_for_ai_tools] *)

(** [for tool_name, evidence_list in source.items(): ... extend(...)] *)
Definition extend_evidence (ai_tools_found source : evidence_map)
  : evidence_map :=
  fold_left
    (fun found entry =>
       let tool_name := fst entry in
       let evidence_list := snd entry in
       let found :=
         if dict_mem String.eqb tool_name found then found
         else dict_set String.eqb tool_name [] found in
       dict_set String.eqb tool_name
         (dict_get_default String.eqb tool_name [] found ++ evidence_list)%list
         found)
    source ai_tools_found.

(** The text of the description scan: title, a space, the body, lowered.
    The body is read with [pr_data.get('body', '')]. *)
Definition pr_text_of (pr : pr_data) : result string :=
  joined <- concat_val (title pr ++ " ") (get_or_empty (body pr)) ;;
  Ok (lower joined).

(** The description scan alone, on an empty dictionary. *)
Definition scan_description (pr_text : string) : evidence_map :=
  scan_text description_evidence pr_text [].

Definition scan_pr_for_ai_tools (f : forge) (pr : pr_data)
  : result evidence_map :=
  let owner := repo_owner pr in
  let name := repo_name pr in
  let number := pr_number pr in
  pr_text <- pr_text_of pr ;;
  let ai_tools_found := scan_description pr_text in
  let ai_tools_found :=
    extend_evidence ai_tools_found (_scan_pr_comments f owner name number) in
  let ai_tools_found :=
    extend_evidence ai_tools_found
      (_scan_review_comments f owner name number) in
  let ai_tools_found :=
    extend_evidence ai_tools_found
      (_scan_commit_messages f owner name number) in
  Ok ai_tools_found.

(** ** [analyze_pr_ai_ecosystem] *)

Record pr_info := {
  pi_url : string;
  pi_repo : string;
  pi_pr_number : Z;
  pi_title : string;
  pi_author : string;
  pi_state : string
}.

Record analysis := {
  a_pr_info : pr_info;
  a_primary_creator : verdict;
  ai_tools_detected : evidence_map;
  ai_tool_count : Z;
  ai_tool_names : list string;
  is_multi_ai : bool
}.

Definition analyze_pr_ai_ecosystem (f : forge) (pr : pr_data)
  : result analysis :=
  let primary := identify_primary_creator pr in
  ai_tools_found <- scan_pr_for_ai_tools f pr ;;
  Ok {| a_pr_info :=
          {| pi_url := url pr;
             pi_repo := repo_owner pr ++ "/" ++ repo_name pr;
             pi_pr_number := pr_number pr;
             pi_title := title pr;
             pi_author := author pr;
             pi_state := state pr |};
        a_primary_creator := primary;
        ai_tools_detected := ai_tools_found;
        ai_tool_count := Z.of_nat (List.length ai_tools_found);
        ai_tool_names := dict_keys ai_tools_found;
        is_multi_ai := 1 <? Z.of_nat (List.length ai_tools_found) |}.

(** ** The ecosystem report *)

(** [a / b] on two integers. *)
Definition truediv (a b : Z) : result Q :=
  if b =? 0 then Raise ZeroDivisionError
  else Ok (inject_Z a / inject_Z b)%Q.

(** [d[k] = d.get(k, 0) + 1] *)
Definition count_up {K : Type} (keqb : K -> K -> bool) (k : K)
  (d : list (K * Z)) : list (K * Z) :=
  dict_set keqb k (dict_get_default keqb k 0 d + 1) d.

(** [sorted(d.items(), key=lambda x: x[1], reverse=True)]: descending by
    count, items of equal count in their original order. *)
Fixpoint insert_desc {K : Type} (x : K * Z) (l : list (K * Z))
  : list (K * Z) :=
  match l with
  | [] => [x]
  | y :: r => if snd x <? snd y then y :: insert_desc x r else x :: y :: r
  end.

Definition sorted_by_count_desc {K : Type} (items : list (K * Z))
  : list (K * Z) :=
  fold_right insert_desc [] items.

(** [sorted(names)] on strings, by code point. *)
Fixpoint insert_name (x : string) (l : list string) : list string :=
  match l with
  | [] => [x]
  | y :: r => if String.ltb y x then y :: insert_name x r else x :: y :: r
  end.

Definition sorted (names : list string) : list string :=
  fold_right insert_name [] names.

(** Equality of two tuples of strings. *)
Fixpoint tuple_eqb (a b : list string) : bool :=
  match a, b with
  | [], [] => true
  | x :: a', y :: b' => String.eqb x y && tuple_eqb a' b'
  | _, _ => false
  end.

(** [max(items, key=lambda x: x[1])] keeps the first item among those of
    the largest count. *)
Fixpoint max_from {K : Type} (best : K * Z) (items : list (K * Z)) : K * Z :=
  match items with
  | [] => best
  | x :: r => if snd best <? snd x then max_from x r else max_from best r
  end.

(** [max(d.items(), key=...)] under the guard [if d:]. *)
Definition max_by_count {K : Type} (items : list (K * Z)) : option (K * Z) :=
  match items with
  | [] => None
  | x :: r => Some (max_from x r)
  end.

Definition creator_of (r : analysis) : string :=
  primary_creator (a_primary_creator r).

(** The dictionary [combinations] once the loop over the results is done. *)
Definition combinations (results : list analysis)
  : list (list string * Z) :=
  fold_left
    (fun combos r =>
       if is_multi_ai r
       then count_up tuple_eqb (sorted (ai_tool_names r)) combos
       else combos)
    results [].

(** [top_combo], when the report prints one. *)
Definition top_combination (results : list analysis)
  : option (list string * Z) :=
  max_by_count (combinations results).

Record report := {
  rep_total_prs : Z;
  rep_multi_ai_prs : Z;
  rep_multi_ai_percent : Q;
  rep_creators : list (string * Z * Q);
  rep_tool_frequency : list (string * Z * Q);
  rep_multi_ai_shown : list analysis;
  rep_top_multi_creator : option (string * Z);
  rep_top_combo : option (list string * Z);
  rep_average_tools : Q
}.

(** One printed row of a frequency table: name, count, percentage. *)
Definition percent_row (total_prs : Z) (item : string * Z)
  : result (string * Z * Q) :=
  q <- truediv (snd item) total_prs ;;
  Ok (fst item, snd item, (q * 100)%Q).

(** [sum(r['ai_tool_count'] for r in results)] *)
Definition sum_tool_counts (results : list analysis) : Z :=
  fold_left (fun s r => s + ai_tool_count r) results 0.

Definition _generate_ecosystem_report (results : list analysis)
  : result report :=
  let total_prs := Z.of_nat (List.length results) in
  let multi_ai_prs := Z.of_nat (List.length (filter is_multi_ai results)) in
  multi_ratio <- truediv multi_ai_prs total_prs ;;
  let creators :=
    fold_left (fun d r => count_up String.eqb (creator_of r) d) results [] in
  creator_rows <-
    map_result (percent_row total_prs) (sorted_by_count_desc creators) ;;
  let tool_frequency :=
    fold_left
      (fun d r =>
         fold_left (fun d tool => count_up String.eqb tool d)
           (ai_tool_names r) d)
      results [] in
  tool_rows <-
    map_result (percent_row total_prs)
      (sorted_by_count_desc tool_frequency) ;;
  let shown :=
    if 0 <? multi_ai_prs then firstn 5 (filter is_multi_ai results)
    else [] in
  let creator_multi_ai :=
    fold_left
      (fun d r =>
         if is_multi_ai r then count_up String.eqb (creator_of r) d else d)
      results [] in
  let top_multi_creator := max_by_count creator_multi_ai in
  let top_combo := top_combination results in
  average <- truediv (sum_tool_counts results) total_prs ;;
  Ok {| rep_total_prs := total_prs;
        rep_multi_ai_prs := multi_ai_prs;
        rep_multi_ai_percent := (multi_ratio * 100)%Q;
        rep_creators := creator_rows;
        rep_tool_frequency := tool_rows;
        rep_multi_ai_shown := shown;
        rep_top_multi_creator := top_multi_creator;
        rep_top_combo := top_combo;
        rep_average_tools := average |}.

(** ** [run_ecosystem_mapping]

    [ai_prs] is what [get_ai_pr_watcher_prs] collected. The result is
    [None] when the function returns early without a value, and otherwise
    the returned analyses together with the report printed on the way. *)
Definition run_ecosystem_mapping (f : forge) (ai_prs : list pr_data)
  : result (option (list analysis * report)) :=
  match ai_prs with
  | [] => Ok None
  | _ :: _ =>
      ecosystem_results <- map_result (analyze_pr_ai_ecosystem f) ai_prs ;;
      rep <- _generate_ecosystem_report ecosystem_results ;;
      Ok (Some (ecosystem_results, rep))
  end.

(** ** Vocabulary of the statements *)

(** The evidence list of a tool, empty when the tool is not a key. *)
Definition evidence_of (tool : string) (m : evidence_map) : list evidence :=
  dict_get_default String.eqb tool [] m.

(** The catalogued phrases of a tool. *)
Definition patterns_for (tool : string) : list string :=
  dict_get_default String.eqb tool [] ai_tool_patterns.

(** The phrases of [patterns] that occur in [text], in catalogue order. *)
Definition matched (text : string) (patterns : list string) : list string :=
  filter (fun pattern => str_in pattern text) patterns.

(** One Evidence for each phrase that occurs. *)
Definition hits (mk : string -> string -> evidence) (text : string)
  (patterns : list string) : list evidence :=
  map (fun pattern => mk pattern (_extract_context text pattern))
    (matched text patterns).

(** What both [record_match] and a step of [extend_evidence] do to the
    dictionary: append [l] to the list of [tool], created when absent. *)
Definition append_to (found : evidence_map) (tool : string)
  (l : list evidence) : evidence_map :=
  let found :=
    if dict_mem String.eqb tool found then found
    else dict_set String.eqb tool [] found in
  dict_set String.eqb tool
    (dict_get_default String.eqb tool [] found ++ l)%list found.

(** No key with an empty list. *)
Definition no_empty (m : evidence_map) : Prop :=
  Forall (fun entry => snd entry <> []) m.

(** A tool is a key exactly when it has some Evidence. *)
Definition present_iff_evidence (m : evidence_map) : Prop :=
  forall tool,
    dict_mem String.eqb tool m = true <-> evidence_of tool m <> [].

Definition well_formed (m : evidence_map) : Prop :=
  NoDup (dict_keys m) /\ no_empty m.

(** A boolean test for a list of strings without repetition. *)
Fixpoint nodupb (l : list string) : bool :=
  match l with
  | [] => true
  | x :: r => negb (existsb (String.eqb x) r) && nodupb r
  end.

(** The number of times [k] occurs in [ks]. *)
Definition occurrences {K : Type} (keqb : K -> K -> bool) (k : K)
  (ks : list K) : Z :=
  Z.of_nat (List.length (filter (keqb k) ks)).

(** The distinct members of [ks] in the order of their first occurrence,
    after those already [seen]. *)
Definition first_seen {K : Type} (keqb : K -> K -> bool) (seen ks : list K)
  : list K :=
  fold_left
    (fun acc k => if existsb (keqb k) acc then acc else (acc ++ [k])%list)
    ks seen.

(** The sorted tool names of the multi-AI analyses, in report order. *)
Definition combination_keys (results : list analysis) : list (list string) :=
  map (fun r => sorted (ai_tool_names r)) (filter is_multi_ai results).

(** ** Sample inputs *)

(** A forge on which every request fails. *)
Definition offline : forge :=
  {| issue_comments := fun _ _ _ => RequestFailed;
     review_comments := fun _ _ _ => RequestFailed;
     pr_commits := fun _ _ _ => RequestFailed |}.

Definition sample_pr (t : string) (b : jfield) (login query : string)
  : pr_data :=
  {| pr_number := 17;
     title := t;
     url := "https://github.com/acme/parser/pull/17";
     repo_owner := "acme";
     repo_name := "parser";
     detection_query := query;
     state := "open";
     created_at := "2025-06-01T10:00:00Z";
     updated_at := "2025-06-02T08:30:00Z";
     author := login;
     body := b |}.

(** The scenario of the specification, with a title that mentions no tool. *)
Definition scenario_pr : pr_data :=
  sample_pr "Update parser"
    (JStr "Generated with ChatGPT, reviewed via copilot suggested edits")
    "github-copilot[bot]" "is:pr head:copilot/".

Definition scenario_text : string :=
  "update parser generated with chatgpt, reviewed via copilot suggested edits".

(** A PR whose description is empty: the platform sends [null]. *)
Definition null_body_pr : pr_data :=
  sample_pr "Bump version" JNull "octocat" "is:pr head:codex/".

(** The phrases of an evidence map, tool by tool. *)
Definition phrases_of (m : evidence_map) : list (string * list string) :=
  map (fun entry => (fst entry, map ev_pattern (snd entry))) m.

(** The invariant of an evidence map. *)
Definition evidence_invariant (m : evidence_map) : Prop :=
  no_empty m /\ present_iff_evidence m.

(** A PR that names a tool in its title only. *)
Definition title_only_pr : pr_data :=
  sample_pr "Refactor with Copilot" (JStr "Cleans up the lexer tables")
    "octocat" "is:pr head:codex/".

(** A forge with one issue comment, one review comment and one commit,
    each naming a different tool. *)
Definition sample_forge : forge :=
  {| issue_comments := fun _ _ _ =>
       Response 200
         (Some [ {| ic_body := JStr "Asked Claude for a second opinion";
                    ic_user_login := Some "alice";
                    ic_created_at := Some "2025-06-01T12:00:00Z" |} ]);
     review_comments := fun _ _ _ =>
       Response 200
         (Some [ {| rc_body := JStr "This looks like Cursor output";
                    rc_user_login := Some "bob";
                    rc_path := Some "src/lexer.py" |} ]);
     pr_commits := fun _ _ _ =>
       Response 200
         (Some [ {| cm_message := Some "Fix tokens (by Devin)";
                    cm_sha := Some "0123456789abcdef0123456789abcdef01234567";
                    cm_author_name := Some "carol" |} ]) |}.

(** A forge whose second issue comment has a [null] body. *)
Definition broken_comment_forge : forge :=
  {| issue_comments := fun _ _ _ =>
       Response 200
         (Some [ {| ic_body := JStr "tabnine did this";
                    ic_user_login := Some "alice";
                    ic_created_at := Some "2025-06-01T12:00:00Z" |};
                 {| ic_body := JNull;
                    ic_user_login := Some "bob";
                    ic_created_at := Some "2025-06-01T13:00:00Z" |};
                 {| ic_body := JStr "codex too";
                    ic_user_login := Some "carol";
                    ic_created_at := Some "2025-06-01T14:00:00Z" |} ]);
     review_comments := fun _ _ _ => Response 404 None;
     pr_commits := fun _ _ _ => RequestFailed |}.

(** An analysis with the given creator and tool names, for the report. *)
Definition sample_analysis (creator : string) (names : list string)
  : analysis :=
  {| a_pr_info :=
       {| pi_url := "https://github.com/acme/parser/pull/17";
          pi_repo := "acme/parser";
          pi_pr_number := 17;
          pi_title := "Update parser";
          pi_author := "octocat";
          pi_state := "open" |};
     a_primary_creator :=
       {| primary_creator := creator;
          v_confidence := low;
          v_evidence := "Author: octocat, Query: is:pr" |};
     ai_tools_detected := map (fun n => (n, [])) names;
     ai_tool_count := Z.of_nat (List.length names);
     ai_tool_names := names;
     is_multi_ai := 1 <? Z.of_nat (List.length names) |}.

(** ** Further vocabulary *)

Fixpoint last_char (c : ascii) (s : string) : ascii :=
  match s with
  | EmptyString => c
  | String d s' => last_char d s'
  end.

(** A non-empty string that neither begins nor ends with white space. *)
Definition outer_clean (s : string) : bool :=
  match s with
  | EmptyString => false
  | String c s' => negb (is_space c) && negb (is_space (last_char c s'))
  end.

(** The tools with some catalogued phrase in [text], in catalogue order. *)
Definition matched_tools (text : string) : list string :=
  map fst
    (filter (fun entry => existsb (fun p => str_in p text) (snd entry))
       ai_tool_patterns).

(** A response from which a scan reads nothing: the request failed, the
    status is not 200, or the body does not decode. *)
Definition unavailable {A : Type} (r : response A) : Prop :=
  match r with
  | RequestFailed => True
  | Response status_code json => status_code <> 200 \/ json = None
  end.

(** An issue comment whose three members can be read. *)
Definition readable_comment (c : issue_comment) : bool :=
  match get_or_empty (ic_body c), ic_user_login c, ic_created_at c with
  | PyStr _, Some _, Some _ => true
  | _, _, _ => false
  end.

(** The location tag that goes with each kind of metadata; a commit hash
    is cut to eight characters. *)
Definition meta_fits (loc : string) (m : source_meta) : Prop :=
  match m with
  | NoMeta => loc = "PR description"
  | CommentMeta _ _ => loc = "PR comment"
  | ReviewMeta _ _ => loc = "Code review comment"
  | CommitMeta sha _ => loc = "Commit message" /\ len sha <= 8
  end.

(** An Evidence filed under [tool]: its tag fits its metadata, its phrase
    is catalogued for the tool, and its context shows the phrase. *)
Definition well_tagged (tool : string) (ev : evidence) : Prop :=
  meta_fits (ev_location ev) (ev_meta ev) /\
  In (ev_pattern ev) (patterns_for tool) /\
  str_in (ev_pattern ev) (ev_context ev) = true.

(** Every key is a catalogued tool and every Evidence under it has [P]. *)
Definition entries_ok (P : string -> evidence -> Prop) (m : evidence_map)
  : Prop :=
  Forall
    (fun entry =>
       In (fst entry) (dict_keys ai_tool_patterns) /\
       Forall (P (fst entry)) (snd entry))
    m.

(** A forge whose three endpoints are unavailable, each in its own way. *)
Definition unavailable_forge : forge :=
  {| issue_comments := fun _ _ _ => Response 200 None;
     review_comments := fun _ _ _ => Response 404 (Some []);
     pr_commits := fun _ _ _ => RequestFailed |}.

(** ** [get_ai_pr_watcher_prs] *)

(** [s.split(sep)] for a separator of one character. *)
Fixpoint split_char (sep : ascii) (s : string) : list string :=
  match s with
  | EmptyString => [EmptyString]
  | String c s' =>
      if Ascii.eqb c sep then EmptyString :: split_char sep s'
      else
        match split_char sep s' with
        | [] => [String c EmptyString]
        | w :: ws => String c w :: ws
        end
  end.

(** [l[-k]] for [k >= 1]; [None] stands for the [IndexError]. *)
Definition from_end {A : Type} (l : list A) (k : nat) : option A :=
  if (List.length l <? k)%nat then None
  else nth_error l (List.length l - k).

(** [l[:limit]] *)
Definition list_upto {A : Type} (l : list A) (limit : Z) : list A :=
  firstn (Z.to_nat (slice_bound (Z.of_nat (List.length l)) limit)) l.

(** One item of the search result. A member that the code subscripts is
    [None] when reading it raises. *)
Record search_item := {
  si_number : option Z;
  si_title : option string;
  si_html_url : option string;
  si_repository_url : option string;
  si_state : option string;
  si_created_at : option string;
  si_updated_at : option string;
  si_user_login : option string;
  si_body : jfield
}.

(** The search endpoint, by query and page size; the decoded body is the
    list under ['items']. *)
Record search_api := {
  search_issues : string -> Z -> response (list search_item)
}.

Definition search_queries : list string :=
  [ "is:pr head:copilot/";
    "is:pr head:codex/";
    "is:pr head:cursor/";
    "is:pr author:devin-ai-integration[bot]";
    "is:pr author:codegen-sh[bot]" ].

(** The record [pr_info] built from one item; [None] when building it
    raises (every such exception is caught by the loop's [except]). *)
Definition pr_info_of (query : string) (pr : search_item) : option pr_data :=
  match si_repository_url pr with
  | None => None
  | Some repository_url =>
      let repo_parts := split_char "/" repository_url in
      match si_number pr, si_title pr, si_html_url pr,
            from_end repo_parts 2, from_end repo_parts 1,
            si_state pr, si_created_at pr, si_updated_at pr,
            si_user_login pr
      with
      | Some number, Some t, Some html_url, Some owner, Some name,
        Some st, Some created, Some updated, Some login =>
          Some {| pr_number := number;
                  title := t;
                  url := html_url;
                  repo_owner := owner;
                  repo_name := name;
                  detection_query := query;
                  state := st;
                  created_at := created;
                  updated_at := updated;
                  author := login;
                  body := match si_body pr with
                          | JMissing => JStr ""
                          | b => b
                          end |}
      | _, _, _, _, _, _, _, _, _ => None
      end
  end.

(** The loop over the items of one query, inside [try]: an item that
    raises ends the loop and the records appended before it stay. *)
Fixpoint collect_items (query : string) (items : list search_item)
  (ai_prs : list pr_data) : list pr_data :=
  match items with
  | [] => ai_prs
  | pr :: rest =>
      match pr_info_of query pr with
      | None => ai_prs
      | Some info => collect_items query rest (ai_prs ++ [info])%list
      end
  end.

(** One turn of the loop over the queries. *)
Definition collect_query (s : search_api) (limit : Z)
  (ai_prs : list pr_data) (query : string) : list pr_data :=
  match search_issues s query (Z.min 20 limit) with
  | RequestFailed => ai_prs
  | Response status_code json =>
      if status_code =? 200 then
        match json with
        | None => ai_prs
        | Some items => collect_items query items ai_prs
        end
      else ai_prs
  end.

(** Everything appended over the five queries. *)
Definition collected (s : search_api) (limit : Z) : list pr_data :=
  fold_left (collect_query s limit) search_queries [].

(** [unique_prs], filled by [unique_prs[pr['url']] = pr]. *)
Definition unique_by_url (ai_prs : list pr_data)
  : list (string * pr_data) :=
  fold_left (fun d pr => dict_set String.eqb (url pr) pr d) ai_prs [].

Definition get_ai_pr_watcher_prs (s : search_api) (limit : Z)
  : list pr_data :=
  list_upto (map snd (unique_by_url (collected s limit))) limit.

(** [run_ecosystem_mapping(max_prs)] with its own collection step. *)
Definition run_ecosystem_mapping_from (s : search_api) (f : forge)
  (max_prs : Z) : result (option (list analysis * report)) :=
  run_ecosystem_mapping f (get_ai_pr_watcher_prs s max_prs).

(** [main]: the value is the number it prints, [len(results)]; on the
    [None] of an early return [len] raises. *)
Definition main (s : search_api) (f : forge) : result Z :=
  results <- run_ecosystem_mapping_from s f 20 ;;
  match results with
  | None => Raise TypeError
  | Some (ecosystem_results, _) =>
      Ok (Z.of_nat (List.length ecosystem_results))
  end.

(** The last record of [ai_prs] with the given URL. *)
Definition last_with_url (u : string) (ai_prs : list pr_data)
  : option pr_data :=
  fold_left
    (fun acc pr => if String.eqb (url pr) u then Some pr else acc)
    ai_prs None.

(** A search item with every member present. *)
Definition sample_item (number : Z) (html_url repository_url login : string)
  : search_item :=
  {| si_number := Some number;
     si_title := Some "Update parser";
     si_html_url := Some html_url;
     si_repository_url := Some repository_url;
     si_state := Some "open";
     si_created_at := Some "2025-06-01T10:00:00Z";
     si_updated_at := Some "2025-06-02T08:30:00Z";
     si_user_login := Some login;
     si_body := JStr "Routine update" |}.

(** A search that finds the same PR under the copilot and cursor queries
    and another PR under the codex query. *)
Definition sample_search : search_api :=
  {| search_issues := fun query _ =>
       if String.eqb query "is:pr head:copilot/" then
         Response 200
           (Some [ sample_item 17 "https://github.com/acme/parser/pull/17"
                     "https://api.github.com/repos/acme/parser" "octocat" ])
       else if String.eqb query "is:pr head:codex/" then
         Response 200
           (Some [ sample_item 4 "https://github.com/acme/lexer/pull/4"
                     "https://api.github.com/repos/acme/lexer" "hubot" ])
       else if String.eqb query "is:pr head:cursor/" then
         Response 200
           (Some [ sample_item 17 "https://github.com/acme/parser/pull/17"
                     "https://api.github.com/repos/acme/parser" "octocat" ])
       else RequestFailed |}.

(** A search on which every request fails. *)
Definition dead_search : search_api :=
  {| search_issues := fun _ _ => RequestFailed |}.

(** ** Vocabulary of the report *)

(** The dictionary [creators] once its loop is done. *)
Definition creators_of (results : list analysis) : list (string * Z) :=
  fold_left (fun d r => count_up String.eqb (creator_of r) d) results [].

(** The dictionary [tool_frequency] once its loops are done. *)
Definition tool_frequency_of (results : list analysis)
  : list (string * Z) :=
  fold_left
    (fun d r =>
       fold_left (fun d tool => count_up String.eqb tool d)
         (ai_tool_names r) d)
    results [].

(** The dictionary [creator_multi_ai] once its loop is done. *)
Definition creator_multi_ai_of (results : list analysis)
  : list (string * Z) :=
  fold_left
    (fun d r =>
       if is_multi_ai r then count_up String.eqb (creator_of r) d else d)
    results [].

(** A printed row: name, count, and the count as a percentage. *)
Definition row_of (total : Z) (item : string * Z) : string * Z * Q :=
  (fst item, snd item, (inject_Z (snd item) / inject_Z total * 100)%Q).

(** Counts that never go up along the list. *)
Fixpoint descending {K : Type} (l : list (K * Z)) : Prop :=
  match l with
  | [] => True
  | x :: r => Forall (fun y => snd y <= snd x) r /\ descending r
  end.

(** The sum of the counts of a dictionary. *)
Definition total_count {K : Type} (d : list (K * Z)) : Z :=
  fold_right (fun e s => snd e + s) 0 d.


(** ** Strings by code point

    [_extract_context] once more, on a [str] as Python has it: a sequence
    of code points of any range, indexed and measured by code point, and
    trimmed of every character for which [str.isspace] holds. This is the
    function as it behaves on every text; the version on [string] above,
    which the scans use, agrees with it on ASCII text. *)

Module CodePoints.

(** A [str]: its code points. *)
Definition text := list N.

Definition len (s : text) : Z := Z.of_nat (List.length s).

(** [c.isspace()] for one character: TAB to CR, FS to US, the space,
    U+0085, U+00A0, U+1680, U+2000 to U+200A, U+2028, U+2029, U+202F,
    U+205F and U+3000. *)
Definition is_space (c : N) : bool :=
  (((9 <=? c) && (c <=? 13)) || ((28 <=? c) && (c <=? 32))
   || (c =? 133) || (c =? 160) || (c =? 5760)
   || ((8192 <=? c) && (c <=? 8202))
   || (c =? 8232) || (c =? 8233) || (c =? 8239) || (c =? 8287)
   || (c =? 12288))%N.

Fixpoint lstrip (s : text) : text :=
  match s with
  | [] => []
  | c :: s' => if is_space c then lstrip s' else s
  end.

Fixpoint rstrip (s : text) : text :=
  match s with
  | [] => []
  | c :: s' =>
      match rstrip s' with
      | [] => if is_space c then [] else [c]
      | r => c :: r
      end
  end.

(** [s.strip()] *)
Definition strip (s : text) : text := rstrip (lstrip s).

(** [s.startswith(p)] *)
Fixpoint startswith (p s : text) : bool :=
  match p, s with
  | [], _ => true
  | _ :: _, [] => false
  | a :: p', b :: s' => N.eqb a b && startswith p' s'
  end.

(** [p in s] *)
Fixpoint str_in (p s : text) : bool :=
  if startswith p s then true
  else match s with
       | [] => false
       | _ :: s' => str_in p s'
       end.

Fixpoint find_from (p s : text) (i : Z) : Z :=
  if startswith p s then i
  else match s with
       | [] => -1
       | _ :: s' => find_from p s' (i + 1)
       end.

(** [s.find(p)] *)
Definition find (s p : text) : Z := find_from p s 0.

(** [s[start:stop]] *)
Definition slice (s : text) (start stop : Z) : text :=
  let a := slice_bound (len s) start in
  let b := slice_bound (len s) stop in
  firstn (Z.to_nat (b - a)) (skipn (Z.to_nat a) s).

Definition extract_context_with (s pattern : text) (context_length : Z)
  : text :=
  let pattern_pos := find s pattern in
  if pattern_pos =? -1 then strip (slice s 0 context_length)
  else
    let start := Z.max 0 (pattern_pos - context_length / 2) in
    let stop :=
      Z.min (len s) (pattern_pos + len pattern + context_length / 2) in
    strip (slice s start stop).

(** [_extract_context(text, pattern)] with the default length of 80. *)
Definition _extract_context (s pattern : text) : text :=
  extract_context_with s pattern 80.

(** The last character of [c :: s]. *)
Fixpoint last_from (c : N) (s : text) : N :=
  match s with
  | [] => c
  | d :: s' => last_from d s'
  end.

(** A non-empty text that neither begins nor ends with white space. *)
Definition outer_clean (s : text) : bool :=
  match s with
  | [] => false
  | c :: s' => negb (is_space c) && negb (is_space (last_from c s'))
  end.

(** The code points of a literal written in ASCII. *)
Definition of_ascii (s : string) : text :=
  map N_of_ascii (list_ascii_of_string s).

End CodePoints.

(** A forge on which claude is named in an issue comment and in a commit
    message. *)
Definition two_source_forge : forge :=
  {| issue_comments := fun _ _ _ =>
       Response 200
         (Some [ {| ic_body := JStr "Asked Claude for a second opinion";
                    ic_user_login := Some "alice";
                    ic_created_at := Some "2025-06-01T12:00:00Z" |} ]);
     review_comments := fun _ _ _ => Response 200 (Some []);
     pr_commits := fun _ _ _ =>
       Response 200
         (Some [ {| cm_message := Some "Apply the fix claude suggested";
                    cm_sha := Some "89abcdef0123456789abcdef0123456789abcdef";
                    cm_author_name := Some "carol" |} ]) |}.

(** A PR that names a tool in its title and has no description: the
    platform sends [null] for the body. *)
Definition title_only_null_body_pr : pr_data :=
  sample_pr "Refactor with Copilot" JNull "octocat" "is:pr head:codex/".

(** Equality of two lists of tool names, decided with the library's own
    equality of strings. *)
Definition same_names (a b : list string) : bool :=
  if list_eq_dec string_dec a b then true else false.

(** A [string] all of whose characters are ASCII. *)
Fixpoint ascii_only (s : string) : bool :=
  match s with
  | EmptyString => true
  | String c s' => (N_of_ascii c <? 128)%N && ascii_only s'
  end.

(** * Properties *)

(** ** Strings *)

Lemma len_nonneg (s : string) : 0 <= len s.
Proof. unfold len; lia. Qed.

Lemma length_append (a b : string) :
  String.length (a ++ b) = (String.length a + String.length b)%nat.
Proof. induction a as [|c a IH]; simpl; [reflexivity | now rewrite IH]. Qed.

Lemma append_assoc (a b c : string) : (a ++ b) ++ c = a ++ b ++ c.
Proof. induction a as [|x a IH]; simpl; [reflexivity | now rewrite IH]. Qed.

Lemma lower_append (a b : string) : lower (a ++ b) = lower a ++ lower b.
Proof. induction a as [|c a IH]; simpl; [reflexivity | now rewrite IH]. Qed.

Lemma lstrip_length (s : string) :
  (String.length (lstrip s) <= String.length s)%nat.
Proof.
  induction s as [|c s IH]; simpl; [lia|].
  destruct (is_space c); simpl; lia.
Qed.

Lemma rstrip_length (s : string) :
  (String.length (rstrip s) <= String.length s)%nat.
Proof.
  induction s as [|c s IH]; simpl; [lia|].
  destruct (rstrip s) as [|d r].
  - destruct (is_space c); simpl; lia.
  - simpl in *; lia.
Qed.

Lemma strip_len (s : string) : len (strip s) <= len s.
Proof.
  unfold strip, len.
  pose proof (rstrip_length (lstrip s)); pose proof (lstrip_length s); lia.
Qed.

Lemma substring_length_le (n m : nat) (s : string) :
  (String.length (substring n m s) <= m)%nat.
Proof.
  revert n m; induction s as [|c s IH]; intros [|n] [|m]; simpl; try lia.
  - specialize (IH 0%nat m); lia.
  - apply (IH n 0%nat).
  - apply (IH n (S m)).
Qed.

Lemma substring_length_src (n m : nat) (s : string) :
  (String.length (substring n m s) <= String.length s - n)%nat.
Proof.
  revert n m; induction s as [|c s IH]; intros [|n] [|m]; simpl; try lia.
  - specialize (IH 0%nat m); lia.
  - apply (IH n 0%nat).
  - apply (IH n (S m)).
Qed.

Lemma substring_length_exact (n m : nat) (s : string) :
  (n + m <= String.length s)%nat -> String.length (substring n m s) = m.
Proof.
  revert n m; induction s as [|c s IH]; intros [|n] [|m]; simpl; try lia.
  - intros H; rewrite IH; lia.
  - intros H; apply (IH n 0%nat); lia.
  - intros H; apply (IH n (S m)); lia.
Qed.

Lemma substring_drop (n m : nat) (s : string) :
  substring n m s = substring 0 m (drop n s).
Proof.
  revert n; induction s as [|c s IH]; intros [|n]; simpl; try reflexivity.
  - destruct m; reflexivity.
  - apply IH.
Qed.

Lemma drop_drop (i j : nat) (s : string) :
  drop j (drop i s) = drop (i + j) s.
Proof.
  revert i; induction s as [|c s IH]; intros [|i]; simpl; try reflexivity.
  - destruct j; reflexivity.
  - apply IH.
Qed.

Lemma drop_take (j m : nat) (s : string) :
  drop j (substring 0 m s) = substring 0 (m - j) (drop j s).
Proof.
  revert j m; induction s as [|c s IH]; intros [|j] [|m]; simpl;
    try reflexivity.
  - destruct (m - j)%nat; reflexivity.
  - destruct (drop j s); reflexivity.
  - apply (IH j m).
Qed.

Lemma take_take (k m : nat) (s : string) :
  (k <= m)%nat -> substring 0 k (substring 0 m s) = substring 0 k s.
Proof.
  revert k m; induction s as [|c s IH]; intros [|k] [|m] H; simpl;
    try reflexivity; try lia.
  f_equal; apply IH; lia.
Qed.

Lemma substring_substring (i m j k : nat) (s : string) :
  (j + k <= m)%nat ->
  substring j k (substring i m s) = substring (i + j) k s.
Proof.
  intros H.
  rewrite (substring_drop j), (substring_drop i m), drop_take, drop_drop.
  rewrite take_take by lia.
  now rewrite <- substring_drop.
Qed.

Lemma startswith_take (p s : string) :
  startswith p s = true -> substring 0 (String.length p) s = p.
Proof.
  revert s; induction p as [|a p IH]; intros [|b s]; simpl;
    try reflexivity; try discriminate.
  intros H; apply andb_prop in H as [Hab Hp].
  apply Ascii.eqb_eq in Hab; subst b.
  now rewrite IH.
Qed.

Lemma startswith_length (p s : string) :
  startswith p s = true -> (String.length p <= String.length s)%nat.
Proof.
  revert s; induction p as [|a p IH]; intros [|b s]; simpl;
    try discriminate; try lia.
  intros H; apply andb_prop in H as [_ Hp]; apply IH in Hp; lia.
Qed.

(** [find] returns [-1], or the least offset at which the phrase starts. *)
Lemma find_from_spec (p s : string) (i : Z) :
  0 <= i ->
  (find_from p s i = -1 /\ str_in p s = false) \/
  (exists k : nat,
      find_from p s i = i + Z.of_nat k /\
      str_in p s = true /\
      startswith p (drop k s) = true /\
      (k + String.length p <= String.length s)%nat /\
      forall j : nat, (j < k)%nat -> startswith p (drop j s) = false).
Proof.
  revert i; induction s as [|c s IH]; intros i Hi; simpl.
  - destruct (startswith p "") eqn:E.
    + right; exists 0%nat; repeat split; auto.
      * lia.
      * apply startswith_length in E; simpl in *; lia.
      * intros j Hj; lia.
    + left; split; [reflexivity | reflexivity].
  - destruct (startswith p (String c s)) eqn:E.
    + right; exists 0%nat; repeat split; auto.
      * lia.
      * apply startswith_length in E; simpl in *; lia.
      * intros j Hj; lia.
    + destruct (IH (i + 1)) as [[Hf Hn] | [k (Hf & Hin & Hs & Hl & Hmin)]];
        [lia | left; auto | right].
      exists (S k); repeat split; auto.
      * rewrite Hf; lia.
      * simpl; lia.
      * intros [|j] Hj; simpl; [exact E | apply Hmin; lia].
Qed.

Lemma str_in_find (p s : string) :
  str_in p s = negb (find s p =? -1).
Proof.
  unfold find.
  destruct (find_from_spec p s 0) as [[Hf Hn] | [k (Hf & Hin & _)]];
    [lia | |].
  - now rewrite Hf, Hn.
  - rewrite Hf, Hin.
    symmetry; apply negb_true_iff, Z.eqb_neq; lia.
Qed.

Lemma str_in_app_l (p a b : string) :
  str_in p a = true -> str_in p (a ++ b) = true.
Proof.
  assert (Hs : forall p a, startswith p a = true ->
                           startswith p (a ++ b) = true).
  { clear; induction p as [|x p IH]; intros [|y a]; simpl; auto;
      try discriminate.
    intros H; apply andb_prop in H as [-> Hp]; simpl; auto. }
  induction a as [|c a IH]; simpl.
  - destruct (startswith p "") eqn:E; [|discriminate].
    intros _; destruct p; [|discriminate].
    destruct b; reflexivity.
  - destruct (startswith p (String c a)) eqn:E.
    + intros _; apply Hs in E; simpl in E; now rewrite E.
    + intros H; rewrite (IH H).
      now destruct (startswith p (String c (a ++ b))).
Qed.

Lemma str_in_app_r (p a b : string) :
  str_in p b = true -> str_in p (a ++ b) = true.
Proof.
  intros H; induction a as [|c a IH]; simpl; [exact H|].
  rewrite IH; now destruct (startswith p (String c (a ++ b))).
Qed.

Lemma slice_bound_id (n i : Z) : 0 <= i <= n -> slice_bound n i = i.
Proof.
  intros H; unfold slice_bound.
  destruct (i <? 0) eqn:E; [apply Z.ltb_lt in E; lia | lia].
Qed.

Lemma slice_in_range (s : string) (a b : Z) :
  0 <= a <= b -> b <= len s ->
  slice s a b = substring (Z.to_nat a) (Z.to_nat (b - a)) s.
Proof.
  intros Ha Hb; unfold slice.
  now rewrite !slice_bound_id by lia.
Qed.

Lemma slice_len_le (s : string) (a b : Z) :
  0 <= a -> 0 <= b -> len (slice s a b) <= Z.max 0 (b - a).
Proof.
  intros Ha Hb; unfold slice, slice_bound.
  destruct (a <? 0) eqn:Ea; [apply Z.ltb_lt in Ea; lia|].
  destruct (b <? 0) eqn:Eb; [apply Z.ltb_lt in Eb; lia|].
  unfold len.
  match goal with
  | |- context [substring ?n ?m s] =>
      pose proof (substring_length_le n m s)
  end.
  pose proof (len_nonneg s); lia.
Qed.

(** ** The primary creator *)

(** C1: when the lowered author login is a registered bot account of a
    tool [T], the verdict names [T] with confidence high, whatever the
    discovery query says. *)
Theorem bot_account_precedence (pr : pr_data) (T : string)
  (rule : creator_rule) :
  In (T, rule) creator_patterns ->
  In (lower (author pr)) (bot_accounts rule) ->
  identify_primary_creator pr =
    {| primary_creator := T;
       v_confidence := high;
       v_evidence := "Bot account: " ++ author pr |}.
Proof.
  intros Hrule Hbot.
  unfold identify_primary_creator.
  simpl in Hrule.
  repeat (destruct Hrule as [Hrule | Hrule];
          [injection Hrule as <- <-; simpl in Hbot;
           repeat (destruct Hbot as [Hbot | Hbot];
                   [rewrite <- Hbot; reflexivity|]);
           contradiction|]).
  contradiction.
Qed.

Lemma bot_account_precedence_witness :
  let pr := sample_pr "Add cache" (JStr "") "Devin-AI-Integration[bot]"
              "is:pr head:copilot/" in
  In (lower (author pr)) ["devin-ai-integration[bot]"; "devin-ai[bot]"] /\
  identify_primary_creator pr =
    {| primary_creator := "devin";
       v_confidence := high;
       v_evidence := "Bot account: Devin-AI-Integration[bot]" |}.
Proof.
  split.
  - left; reflexivity.
  - apply (bot_account_precedence
             (sample_pr "Add cache" (JStr "") "Devin-AI-Integration[bot]"
                "is:pr head:copilot/")
             "devin"
             {| bot_accounts := ["devin-ai-integration[bot]"; "devin-ai[bot]"];
                branch_patterns := ["devin/"; "devin-"];
                commit_patterns := ["devin:"; "by devin"] |}).
    + left; reflexivity.
    + left; reflexivity.
Defined.

(** ** The scenario of the specification *)

(** C5, as the code has it: the verdict is github_copilot with confidence
    high on the bot account; the description scan finds exactly chatgpt and
    github_copilot, each with two Evidence, one per matching phrase. *)
Theorem scenario_verdict_and_evidence :
  identify_primary_creator scenario_pr =
    {| primary_creator := "github_copilot";
       v_confidence := high;
       v_evidence := "Bot account: github-copilot[bot]" |} /\
  pr_text_of scenario_pr = Ok scenario_text /\
  phrases_of (scan_description scenario_text) =
    [ ("chatgpt", ["chatgpt"; "generated with chatgpt"]);
      ("github_copilot", ["copilot"; "copilot suggested"]) ] /\
  Forall (fun entry =>
            Forall (fun ev => ev_location ev = "PR description") (snd entry))
    (scan_description scenario_text) /\
  scan_pr_for_ai_tools offline scenario_pr =
    Ok (scan_description scenario_text).
Proof.
  repeat split; try (vm_compute; reflexivity).
  vm_compute; repeat constructor.
Qed.

(** C5, the counterexample: neither tool has exactly one Evidence. *)
Lemma scenario_not_one_evidence_each :
  ~ (List.length
       (dict_get_default String.eqb "chatgpt" []
          (scan_description scenario_text)) = 1%nat /\
     List.length
       (dict_get_default String.eqb "github_copilot" []
          (scan_description scenario_text)) = 1%nat).
Proof. vm_compute. intros [H _]; discriminate H. Qed.

(** ** Dictionaries *)

Section DictFacts.
Context {K V : Type} (keqb : K -> K -> bool).
Hypothesis keqb_eq : forall a b, keqb a b = true <-> a = b.

Lemma keqb_refl (k : K) : keqb k k = true.
Proof. now apply keqb_eq. Qed.

Lemma keqb_neq (a b : K) : a <> b -> keqb a b = false.
Proof.
  intros H; destruct (keqb a b) eqn:E; [|reflexivity].
  apply keqb_eq in E; contradiction.
Qed.

Lemma dict_mem_get (k : K) (d : list (K * V)) :
  dict_mem keqb k d =
    match dict_get keqb k d with Some _ => true | None => false end.
Proof.
  induction d as [|[k' v] d IH]; simpl; [reflexivity|].
  now destruct (keqb k' k).
Qed.

Lemma dict_mem_in (k : K) (d : list (K * V)) :
  dict_mem keqb k d = true <-> In k (dict_keys d).
Proof.
  induction d as [|[k' v] d IH]; simpl; [split; [discriminate | tauto]|].
  destruct (keqb k' k) eqn:E.
  - apply keqb_eq in E; tauto.
  - rewrite IH; split; [tauto|].
    intros [H | H]; [|exact H].
    apply keqb_eq in H; congruence.
Qed.

Lemma dict_get_in (k : K) (v : V) (d : list (K * V)) :
  dict_get keqb k d = Some v -> In (k, v) d.
Proof.
  induction d as [|[k' v'] d IH]; simpl; [discriminate|].
  destruct (keqb k' k) eqn:E.
  - apply keqb_eq in E; subst k'.
    intros H; injection H as ->; now left.
  - intros H; right; auto.
Qed.

Lemma dict_get_set_same (k : K) (v : V) (d : list (K * V)) :
  dict_get keqb k (dict_set keqb k v d) = Some v.
Proof.
  induction d as [|[k' v'] d IH]; simpl.
  - now rewrite keqb_refl.
  - destruct (keqb k' k) eqn:E; simpl; now rewrite E.
Qed.

Lemma dict_get_set_other (k k0 : K) (v : V) (d : list (K * V)) :
  k <> k0 -> dict_get keqb k0 (dict_set keqb k v d) = dict_get keqb k0 d.
Proof.
  intros Hne; induction d as [|[k' v'] d IH]; simpl.
  - now rewrite keqb_neq.
  - destruct (keqb k' k) eqn:E; simpl.
    + apply keqb_eq in E; subst k'; now rewrite keqb_neq.
    + now rewrite IH.
Qed.

Lemma dict_keys_set (k : K) (v : V) (d : list (K * V)) :
  dict_keys (dict_set keqb k v d) =
    if dict_mem keqb k d then dict_keys d else (dict_keys d ++ [k])%list.
Proof.
  induction d as [|[k' v'] d IH]; simpl; [reflexivity|].
  destruct (keqb k' k) eqn:E; simpl; [reflexivity|].
  rewrite IH; now destruct (dict_mem keqb k d).
Qed.

Lemma dict_set_nodup (k : K) (v : V) (d : list (K * V)) :
  NoDup (dict_keys d) -> NoDup (dict_keys (dict_set keqb k v d)).
Proof.
  intros H; rewrite dict_keys_set.
  destruct (dict_mem keqb k d) eqn:E; [exact H|].
  apply NoDup_app; [exact H | repeat constructor; simpl; tauto |].
  intros x Hx [<- | []].
  apply dict_mem_in in Hx; congruence.
Qed.

Lemma dict_set_forall (P : K * V -> Prop) (k : K) (v : V)
  (d : list (K * V)) :
  Forall P d -> P (k, v) -> Forall P (dict_set keqb k v d).
Proof.
  intros Hd Hk; induction Hd as [|[k' v'] d Hx Hd IH]; simpl.
  - now constructor.
  - destruct (keqb k' k) eqn:E.
    + apply keqb_eq in E; subst k'; now constructor.
    + now constructor.
Qed.

Lemma dict_get_default_nodup (k : K) (dflt : V) (d : list (K * V)) :
  NoDup (dict_keys d) ->
  forall v, In (k, v) d -> dict_get_default keqb k dflt d = v.
Proof.
  unfold dict_get_default.
  induction d as [|[k' v'] d IH]; simpl; intros Hnd v Hin; [tauto|].
  inversion Hnd as [|? ? Hnotin Hnd']; subst.
  destruct Hin as [Heq | Hin].
  - injection Heq as -> ->; now rewrite keqb_refl.
  - destruct (keqb k' k) eqn:E.
    + apply keqb_eq in E; subst k'.
      exfalso; apply Hnotin.
      change k with (fst (k, v)); now apply in_map.
    + now apply IH.
Qed.
End DictFacts.

Lemma string_eqb_eq (a b : string) : String.eqb a b = true <-> a = b.
Proof. apply String.eqb_eq. Qed.

(** ** Evidence maps *)

Lemma nodupb_sound (l : list string) : nodupb l = true -> NoDup l.
Proof.
  induction l as [|x r IH]; simpl; intros H; constructor.
  - apply andb_prop in H as [H _].
    intros Hin.
    apply negb_true_iff in H.
    assert (existsb (String.eqb x) r = true); [|congruence].
    apply existsb_exists; exists x; split; [exact Hin | apply String.eqb_refl].
  - apply andb_prop in H as [_ H]; auto.
Qed.

Lemma catalog_keys_nodup : NoDup (dict_keys ai_tool_patterns).
Proof. apply nodupb_sound; vm_compute; reflexivity. Qed.

Lemma catalog_phrases_nodup (tool : string) : NoDup (patterns_for tool).
Proof.
  unfold patterns_for, dict_get_default.
  destruct (dict_get String.eqb tool ai_tool_patterns) as [ps|] eqn:E;
    [|constructor].
  apply (dict_get_in String.eqb string_eqb_eq) in E.
  assert (H : Forall (fun e => nodupb (snd e) = true) ai_tool_patterns)
    by (vm_compute; repeat constructor).
  rewrite Forall_forall in H.
  apply nodupb_sound, (H _ E).
Qed.

Lemma record_match_append_to (found : evidence_map) (tool : string)
  (ev : evidence) :
  record_match found tool ev = append_to found tool [ev].
Proof. reflexivity. Qed.

Lemma dict_set_twice (k : string) (v1 v2 : list evidence)
  (d : evidence_map) :
  dict_set String.eqb k v2 (dict_set String.eqb k v1 d) =
  dict_set String.eqb k v2 d.
Proof.
  induction d as [|[k' v'] d IH]; simpl.
  - now rewrite String.eqb_refl.
  - destruct (String.eqb k' k) eqn:E; simpl; rewrite E; [reflexivity|].
    now rewrite IH.
Qed.

Lemma append_to_eq (found : evidence_map) (tool : string)
  (l : list evidence) :
  append_to found tool l =
  dict_set String.eqb tool (evidence_of tool found ++ l)%list found.
Proof.
  unfold append_to, evidence_of, dict_get_default.
  rewrite (dict_mem_get String.eqb).
  destruct (dict_get String.eqb tool found) as [v|] eqn:E.
  - now rewrite E.
  - rewrite (dict_get_set_same String.eqb string_eqb_eq).
    apply dict_set_twice.
Qed.

Lemma evidence_of_append_to (found : evidence_map) (tool tool0 : string)
  (l : list evidence) :
  evidence_of tool0 (append_to found tool l) =
  (evidence_of tool0 found ++ if String.eqb tool tool0 then l else [])%list.
Proof.
  rewrite append_to_eq.
  unfold evidence_of at 1; unfold dict_get_default.
  destruct (String.eqb_spec tool tool0) as [<- | Hne].
  - now rewrite (dict_get_set_same String.eqb string_eqb_eq).
  - rewrite (dict_get_set_other String.eqb string_eqb_eq) by exact Hne.
    now rewrite app_nil_r.
Qed.

Lemma append_to_well_formed (found : evidence_map) (tool : string)
  (l : list evidence) :
  l <> [] -> well_formed found -> well_formed (append_to found tool l).
Proof.
  intros Hl [Hnd Hne]; rewrite append_to_eq; split.
  - now apply (dict_set_nodup String.eqb string_eqb_eq).
  - apply (dict_set_forall String.eqb string_eqb_eq); [exact Hne|].
    simpl; intros H; apply app_eq_nil in H as [_ H]; contradiction.
Qed.

Lemma well_formed_nil : well_formed [].
Proof. split; constructor. Qed.

Lemma well_formed_present (m : evidence_map) :
  well_formed m -> present_iff_evidence m.
Proof.
  intros [_ Hne] tool; unfold evidence_of, dict_get_default.
  rewrite (dict_mem_get String.eqb).
  destruct (dict_get String.eqb tool m) as [v|] eqn:E.
  - apply (dict_get_in String.eqb string_eqb_eq) in E.
    unfold no_empty in Hne; rewrite Forall_forall in Hne.
    specialize (Hne _ E); simpl in Hne; tauto.
  - split; [discriminate | congruence].
Qed.

(** Selecting the entries of one key from a dictionary. *)
Lemma flat_map_select {A B : Type} (g : list A -> list B)
  (d : list (string * list A)) (tool0 : string) :
  g [] = [] ->
  NoDup (dict_keys d) ->
  flat_map (fun e => if String.eqb (fst e) tool0 then g (snd e) else []) d =
  g (dict_get_default String.eqb tool0 [] d).
Proof.
  intros Hg; unfold dict_get_default.
  induction d as [|[k v] d IH]; simpl; intros Hnd; [now rewrite Hg|].
  inversion Hnd as [|? ? Hnotin Hnd']; subst.
  destruct (String.eqb_spec k tool0) as [-> | Hne].
  - assert (Hnone : dict_get String.eqb tool0 d = None).
    { destruct (dict_get String.eqb tool0 d) eqn:E; [|reflexivity].
      exfalso; apply Hnotin.
      apply (dict_mem_in String.eqb string_eqb_eq).
      rewrite (dict_mem_get String.eqb), E; reflexivity. }
    specialize (IH Hnd'); rewrite Hnone, Hg in IH.
    now rewrite IH, app_nil_r.
  - now apply IH.
Qed.

(** *** One text *)

Lemma scan_patterns_evidence (mk : string -> string -> evidence)
  (text tool tool0 : string) (patterns : list string)
  (found : evidence_map) :
  evidence_of tool0 (scan_patterns mk text tool patterns found) =
  (evidence_of tool0 found ++
   if String.eqb tool tool0 then hits mk text patterns else [])%list.
Proof.
  unfold scan_patterns, hits, matched.
  revert found; induction patterns as [|p ps IH]; intros found; simpl.
  - now destruct (String.eqb tool tool0); rewrite app_nil_r.
  - rewrite IH.
    destruct (str_in p text); [|reflexivity].
    rewrite record_match_append_to, evidence_of_append_to.
    destruct (String.eqb tool tool0); simpl.
    + now rewrite <- app_assoc.
    + now rewrite !app_nil_r.
Qed.

Lemma scan_patterns_well_formed (mk : string -> string -> evidence)
  (text tool : string) (patterns : list string) (found : evidence_map) :
  well_formed found -> well_formed (scan_patterns mk text tool patterns found).
Proof.
  unfold scan_patterns.
  revert found; induction patterns as [|p ps IH]; intros found H; simpl;
    [exact H|].
  apply IH.
  destruct (str_in p text); [|exact H].
  rewrite record_match_append_to.
  apply append_to_well_formed; [discriminate | exact H].
Qed.

Lemma scan_text_evidence (mk : string -> string -> evidence)
  (text tool0 : string) (found : evidence_map) :
  evidence_of tool0 (scan_text mk text found) =
  (evidence_of tool0 found ++ hits mk text (patterns_for tool0))%list.
Proof.
  unfold scan_text, patterns_for.
  rewrite <- (flat_map_select (hits mk text) ai_tool_patterns tool0)
    by (reflexivity || apply catalog_keys_nodup).
  generalize ai_tool_patterns as cat.
  intros cat; revert found.
  induction cat as [|[k ps] cat IH]; intros found; simpl.
  - now rewrite app_nil_r.
  - now rewrite IH, scan_patterns_evidence, <- app_assoc.
Qed.

Lemma scan_text_well_formed (mk : string -> string -> evidence)
  (text : string) (found : evidence_map) :
  well_formed found -> well_formed (scan_text mk text found).
Proof.
  unfold scan_text; generalize ai_tool_patterns as cat.
  intros cat; revert found.
  induction cat as [|[k ps] cat IH]; intros found H; simpl; [exact H|].
  now apply IH, scan_patterns_well_formed.
Qed.

(** *** Merging a source into the PR's dictionary *)

Lemma extend_evidence_flat (found source : evidence_map) (tool0 : string) :
  evidence_of tool0 (extend_evidence found source) =
  (evidence_of tool0 found ++
   flat_map (fun e => if String.eqb (fst e) tool0 then snd e else [])
     source)%list.
Proof.
  unfold extend_evidence.
  revert found; induction source as [|[k l] source IH]; intros found; simpl.
  - now rewrite app_nil_r.
  - change (fold_left _ source ?d) with
      (fold_left
         (fun found entry => append_to found (fst entry) (snd entry))
         source d).
    change (fold_left _ source ?d) with
      (fold_left
         (fun found entry => append_to found (fst entry) (snd entry))
         source d) in IH.
    change (dict_set String.eqb k _ _) with (append_to found k l).
    rewrite IH, evidence_of_append_to, <- app_assoc.
    reflexivity.
Qed.

Lemma extend_evidence_concat (found source : evidence_map) (tool0 : string) :
  NoDup (dict_keys source) ->
  evidence_of tool0 (extend_evidence found source) =
  (evidence_of tool0 found ++ evidence_of tool0 source)%list.
Proof.
  intros Hnd; rewrite extend_evidence_flat.
  now rewrite (flat_map_select (fun l => l)) by (reflexivity || exact Hnd).
Qed.

Lemma extend_evidence_well_formed (found source : evidence_map) :
  no_empty source -> well_formed found ->
  well_formed (extend_evidence found source).
Proof.
  unfold extend_evidence.
  intros Hsrc; revert found.
  induction Hsrc as [|[k l] source Hl Hsrc IH]; intros found H; simpl;
    [exact H|].
  apply IH.
  change (dict_set String.eqb k _ _) with (append_to found k l).
  now apply append_to_well_formed.
Qed.

(** *** The fetched sources *)

Lemma scan_issue_comments_well_formed (comments : list issue_comment)
  (acc : evidence_map) :
  well_formed acc -> well_formed (fst (scan_issue_comments comments acc)).
Proof.
  revert acc; induction comments as [|c rest IH]; intros acc H; simpl;
    [exact H|].
  destruct (lower_val (get_or_empty (ic_body c))) as [b|e]; simpl;
    [|exact H].
  destruct (subscript (ic_user_login c)) as [a|e]; simpl; [|exact H].
  destruct (subscript (ic_created_at c)) as [d|e]; simpl; [|exact H].
  now apply IH, scan_text_well_formed.
Qed.

Lemma scan_review_list_well_formed (comments : list review_comment)
  (acc : evidence_map) :
  well_formed acc -> well_formed (fst (scan_review_list comments acc)).
Proof.
  revert acc; induction comments as [|c rest IH]; intros acc H; simpl;
    [exact H|].
  destruct (lower_val (get_or_empty (rc_body c))) as [b|e]; simpl;
    [|exact H].
  destruct (subscript (rc_user_login c)) as [a|e]; simpl; [|exact H].
  now apply IH, scan_text_well_formed.
Qed.

Lemma scan_commit_list_well_formed (commits : list commit)
  (acc : evidence_map) :
  well_formed acc -> well_formed (fst (scan_commit_list commits acc)).
Proof.
  revert acc; induction commits as [|c rest IH]; intros acc H; simpl;
    [exact H|].
  destruct (subscript (cm_message c)) as [m|e]; simpl; [|exact H].
  destruct (subscript (cm_sha c)) as [s|e]; simpl; [|exact H].
  destruct (subscript (cm_author_name c)) as [a|e]; simpl; [|exact H].
  now apply IH, scan_text_well_formed.
Qed.

Lemma scan_pr_comments_well_formed (f : forge) (owner name : string)
  (number : Z) : well_formed (_scan_pr_comments f owner name number).
Proof.
  unfold _scan_pr_comments.
  destruct (issue_comments f owner name number) as [|code json];
    [apply well_formed_nil|].
  destruct (code =? 200); [|apply well_formed_nil].
  destruct json as [l|]; [|apply well_formed_nil].
  apply scan_issue_comments_well_formed, well_formed_nil.
Qed.

Lemma scan_review_comments_well_formed (f : forge) (owner name : string)
  (number : Z) : well_formed (_scan_review_comments f owner name number).
Proof.
  unfold _scan_review_comments.
  destruct (review_comments f owner name number) as [|code json];
    [apply well_formed_nil|].
  destruct (code =? 200); [|apply well_formed_nil].
  destruct json as [l|]; [|apply well_formed_nil].
  apply scan_review_list_well_formed, well_formed_nil.
Qed.

Lemma scan_commit_messages_well_formed (f : forge) (owner name : string)
  (number : Z) : well_formed (_scan_commit_messages f owner name number).
Proof.
  unfold _scan_commit_messages.
  destruct (pr_commits f owner name number) as [|code json];
    [apply well_formed_nil|].
  destruct (code =? 200); [|apply well_formed_nil].
  destruct json as [l|]; [|apply well_formed_nil].
  apply scan_commit_list_well_formed, well_formed_nil.
Qed.

Lemma scan_description_well_formed (text : string) :
  well_formed (scan_description text).
Proof. apply scan_text_well_formed, well_formed_nil. Qed.

(** A request that fails, a status other than 200 and a body that does not
    decode each leave the source without evidence. *)
Lemma unavailable_comments_empty (f : forge) (owner name : string)
  (number : Z) :
  match issue_comments f owner name number with
  | RequestFailed => True
  | Response code json => code <> 200 \/ json = None
  end ->
  _scan_pr_comments f owner name number = [].
Proof.
  unfold _scan_pr_comments.
  destruct (issue_comments f owner name number) as [|code json];
    [reflexivity|].
  intros [H | ->].
  - apply Z.eqb_neq in H; now rewrite H.
  - now destruct (code =? 200).
Qed.

(** The scan returns a dictionary unless the body of the PR is [null]. *)
Lemma scan_pr_cases (f : forge) (pr : pr_data) :
  (get_or_empty (body pr) = PyNone /\
   scan_pr_for_ai_tools f pr = Raise TypeError) \/
  (exists b,
      get_or_empty (body pr) = PyStr b /\
      pr_text_of pr = Ok (lower (title pr ++ " " ++ b)) /\
      scan_pr_for_ai_tools f pr =
        Ok (extend_evidence
              (extend_evidence
                 (extend_evidence
                    (scan_description (lower (title pr ++ " " ++ b)))
                    (_scan_pr_comments f (repo_owner pr) (repo_name pr)
                       (pr_number pr)))
                 (_scan_review_comments f (repo_owner pr) (repo_name pr)
                    (pr_number pr)))
              (_scan_commit_messages f (repo_owner pr) (repo_name pr)
                 (pr_number pr)))).
Proof.
  unfold scan_pr_for_ai_tools, pr_text_of.
  destruct (get_or_empty (body pr)) as [|b] eqn:E; simpl.
  - left; auto.
  - right; exists b; repeat split.
    + now rewrite append_assoc.
    + now rewrite append_assoc.
Qed.

Lemma well_formed_invariant (m : evidence_map) :
  well_formed m -> evidence_invariant m.
Proof.
  intros H; split; [apply H | now apply well_formed_present].
Qed.

Lemma scan_pr_well_formed (f : forge) (pr : pr_data) (found : evidence_map) :
  scan_pr_for_ai_tools f pr = Ok found -> well_formed found.
Proof.
  destruct (scan_pr_cases f pr) as [[_ H] | (b & _ & _ & H)]; rewrite H;
    [discriminate|].
  intros E; injection E as <-.
  repeat apply extend_evidence_well_formed;
    try apply scan_description_well_formed.
  - apply scan_commit_messages_well_formed.
  - apply scan_review_comments_well_formed.
  - apply scan_pr_comments_well_formed.
Qed.

Lemma extract_context_present (text p : string) :
  str_in p text = true ->
  _extract_context text p =
  strip (slice text (Z.max 0 (find text p - 40))
           (Z.min (len text) (find text p + len p + 40))).
Proof.
  intros H; rewrite str_in_find in H; apply negb_true_iff in H.
  unfold _extract_context, extract_context_with.
  now rewrite H.
Qed.

Lemma find_first_occurrence (text p : string) :
  str_in p text = true ->
  exists k : nat,
    find text p = Z.of_nat k /\
    startswith p (drop k text) = true /\
    forall j : nat, (j < k)%nat -> startswith p (drop j text) = false.
Proof.
  intros H; unfold find.
  destruct (find_from_spec p text 0)
    as [[_ Hn] | [k (Hf & _ & Hs & _ & Hmin)]]; [lia | congruence |].
  exists k; repeat split; auto.
Qed.

(** ** The aggregation over the four sources *)

(** When the scan returns: the evidence list of every tool in the result of
    [scan_pr_for_ai_tools] is the list from the description, followed by
    the one from the issue comments, the one from the review comments and
    the one from the commit messages; nothing is dropped or merged, so the
    lengths add up. The scan raises only on a [null] body. *)
Theorem aggregation_concatenates (f : forge) (pr : pr_data) :
  let comments :=
    _scan_pr_comments f (repo_owner pr) (repo_name pr) (pr_number pr) in
  let reviews :=
    _scan_review_comments f (repo_owner pr) (repo_name pr) (pr_number pr) in
  let commits :=
    _scan_commit_messages f (repo_owner pr) (repo_name pr) (pr_number pr) in
  match scan_pr_for_ai_tools f pr, pr_text_of pr with
  | Ok found, Ok pr_text =>
      forall tool,
        evidence_of tool found =
          (evidence_of tool (scan_description pr_text) ++
           evidence_of tool comments ++
           evidence_of tool reviews ++
           evidence_of tool commits)%list /\
        List.length (evidence_of tool found) =
          (List.length (evidence_of tool (scan_description pr_text)) +
           List.length (evidence_of tool comments) +
           List.length (evidence_of tool reviews) +
           List.length (evidence_of tool commits))%nat
  | Raise _, Raise _ => get_or_empty (body pr) = PyNone
  | _, _ => False
  end.
Proof.
  cbv zeta.
  destruct (scan_pr_cases f pr) as [[Hb H] | (b & Hb & Ht & H)]; rewrite H.
  - unfold pr_text_of; rewrite Hb; reflexivity.
  - rewrite Ht; intros tool.
    assert (E : forall a b c d : list evidence,
               (((a ++ b) ++ c) ++ d = a ++ b ++ c ++ d)%list)
      by (intros; now rewrite <- !app_assoc).
    rewrite !extend_evidence_concat, E.
    + split; [reflexivity|].
      rewrite !length_app; lia.
    + apply scan_pr_comments_well_formed.
    + apply scan_review_comments_well_formed.
    + apply scan_commit_messages_well_formed.
Qed.

(** C3, evaluated at a PR whose body is [null]: the concatenation of the
    title with the body raises [TypeError]; nothing catches it in the
    description scan, and it leaves the analysis of the PR and the run. *)
Theorem null_body_escapes (f : forge) :
  scan_pr_for_ai_tools f null_body_pr = Raise TypeError /\
  analyze_pr_ai_ecosystem f null_body_pr = Raise TypeError /\
  run_ecosystem_mapping f [null_body_pr] = Raise TypeError.
Proof. repeat split. Qed.

(** C8: the map of the description scan, the maps of the three fetched
    scans and the aggregated map have no key with an empty list, and in
    each a tool is a key exactly when it has some Evidence. *)
Theorem evidence_maps_have_no_empty_list (f : forge) (pr : pr_data)
  (text owner name : string) (number : Z) :
  evidence_invariant (scan_description text) /\
  evidence_invariant (_scan_pr_comments f owner name number) /\
  evidence_invariant (_scan_review_comments f owner name number) /\
  evidence_invariant (_scan_commit_messages f owner name number) /\
  match scan_pr_for_ai_tools f pr with
  | Ok found => evidence_invariant found
  | Raise _ => get_or_empty (body pr) = PyNone
  end.
Proof.
  split; [apply well_formed_invariant, scan_description_well_formed|].
  split; [apply well_formed_invariant, scan_pr_comments_well_formed|].
  split; [apply well_formed_invariant, scan_review_comments_well_formed|].
  split; [apply well_formed_invariant, scan_commit_messages_well_formed|].
  destruct (scan_pr_for_ai_tools f pr) as [found|e] eqn:E.
  - apply well_formed_invariant, (scan_pr_well_formed f pr), E.
  - destruct (scan_pr_cases f pr) as [[Hb _] | (b & _ & _ & H)];
      [exact Hb | congruence].
Qed.

(** ** The description scan *)

Lemma hits_in (mk : string -> string -> evidence) (text p : string)
  (patterns : list string) :
  In p patterns -> str_in p text = true ->
  In (mk p (_extract_context text p)) (hits mk text patterns).
Proof.
  intros Hin Hs; unfold hits, matched.
  apply (in_map (fun q => mk q (_extract_context text q))).
  apply filter_In; auto.
Qed.

Lemma extend_evidence_keeps (found source : evidence_map) (tool : string)
  (ev : evidence) :
  In ev (evidence_of tool found) ->
  In ev (evidence_of tool (extend_evidence found source)).
Proof.
  intros H; rewrite extend_evidence_flat; apply in_or_app; now left.
Qed.

(** For a body that is a string: the description scan reads the lowered
    [title + ' ' + body]; a
    catalogued phrase of a tool that occurs in the lowered title gives that
    tool an Evidence with location "PR description", whatever the body
    (a string) holds. *)
Theorem title_phrase_is_description_evidence (f : forge) (pr : pr_data)
  (b tool p : string) :
  get_or_empty (body pr) = PyStr b ->
  In p (patterns_for tool) ->
  str_in p (lower (title pr)) = true ->
  let pr_text := lower (title pr ++ " " ++ b) in
  pr_text_of pr = Ok pr_text /\
  exists found,
    scan_pr_for_ai_tools f pr = Ok found /\
    In {| ev_location := "PR description";
          ev_pattern := p;
          ev_context := _extract_context pr_text p;
          ev_meta := NoMeta |}
       (evidence_of tool found).
Proof.
  intros Hb Hp Hs; cbv zeta.
  destruct (scan_pr_cases f pr) as [[Hn _] | (b' & Hb' & Ht & H)];
    [congruence|].
  assert (b' = b) by congruence; subst b'.
  split; [exact Ht|].
  eexists; split; [exact H|].
  repeat apply extend_evidence_keeps.
  unfold scan_description; rewrite scan_text_evidence; simpl.
  apply (hits_in description_evidence); [exact Hp|].
  rewrite lower_append; now apply str_in_app_l.
Qed.

Lemma title_phrase_is_description_evidence_witness :
  str_in "with copilot" (lower "Cleans up the lexer tables") = false /\
  exists found,
    scan_pr_for_ai_tools offline title_only_pr = Ok found /\
    In {| ev_location := "PR description";
          ev_pattern := "with copilot";
          ev_context := "refactor with copilot cleans up the lexer tables";
          ev_meta := NoMeta |}
       (evidence_of "github_copilot" found).
Proof.
  split; [reflexivity|].
  apply (title_phrase_is_description_evidence offline title_only_pr
           "Cleans up the lexer tables" "github_copilot" "with copilot").
  - reflexivity.
  - vm_compute; auto 10.
  - reflexivity.
Defined.

(** C10: scanning one text adds, for a tool, exactly one Evidence per
    catalogued phrase that occurs in the text, whatever the number of its
    occurrences: a phrase counts at most once among the phrases that give
    an Evidence, and the context of its Evidence is the trimmed window
    around the first position at which it occurs. *)
Theorem one_evidence_per_phrase (mk : string -> string -> evidence)
  (text : string) (found : evidence_map) (tool p : string) :
  let phrases := matched text (patterns_for tool) in
  evidence_of tool (scan_text mk text found) =
    (evidence_of tool found ++
     map (fun q => mk q (_extract_context text q)) phrases)%list /\
  (count_occ string_dec phrases p <= 1)%nat /\
  (In p phrases ->
   exists k : nat,
     find text p = Z.of_nat k /\
     startswith p (drop k text) = true /\
     (forall j : nat, (j < k)%nat -> startswith p (drop j text) = false) /\
     _extract_context text p =
       strip (slice text (Z.max 0 (Z.of_nat k - 40))
                (Z.min (len text) (Z.of_nat k + len p + 40)))).
Proof.
  cbv zeta; split; [apply scan_text_evidence|]; split.
  - apply NoDup_count_occ, NoDup_filter, catalog_phrases_nodup.
  - intros Hin; apply filter_In in Hin as [_ Hs].
    destruct (find_first_occurrence text p Hs) as (k & Hk & Hst & Hmin).
    exists k; repeat split; auto.
    now rewrite <- Hk; apply extract_context_present.
Qed.

(** ** The report *)

Lemma percent_rows_ok (total : Z) (items : list (string * Z)) :
  total <> 0 ->
  map_result (percent_row total) items =
  Ok (map (fun item =>
             (fst item, snd item,
              (inject_Z (snd item) / inject_Z total * 100)%Q))
        items).
Proof.
  intros H; apply Z.eqb_neq in H.
  induction items as [|x r IH]; simpl; [reflexivity|].
  unfold percent_row at 1, truediv; rewrite H; simpl.
  now rewrite IH.
Qed.

Lemma report_on_nonempty (r : analysis) (rest : list analysis) :
  exists rep,
    _generate_ecosystem_report (r :: rest) = Ok rep /\
    rep_total_prs rep = Z.of_nat (List.length (r :: rest)) /\
    rep_average_tools rep =
      (inject_Z (sum_tool_counts (r :: rest)) /
       inject_Z (Z.of_nat (List.length (r :: rest))))%Q.
Proof.
  unfold _generate_ecosystem_report.
  set (results := r :: rest).
  set (total := Z.of_nat (List.length results)).
  assert (Hne : total <> 0) by (unfold total, results; simpl; lia).
  assert (Hz : (total =? 0) = false) by now apply Z.eqb_neq.
  unfold truediv; rewrite Hz.
  rewrite !percent_rows_ok by exact Hne.
  unfold bind.
  eexists; split; [reflexivity|].
  split; reflexivity.
Qed.

Lemma map_result_length {A B : Type} (g : A -> result B) (l : list A)
  (l' : list B) :
  map_result g l = Ok l' -> List.length l' = List.length l.
Proof.
  revert l'; induction l as [|x r IH]; simpl; intros l' H.
  - injection H as <-; reflexivity.
  - destruct (g x) as [y|e]; simpl in H; [|discriminate].
    destruct (map_result g r) as [ys|e]; simpl in H; [|discriminate].
    injection H as <-; simpl; f_equal; now apply IH.
Qed.

Lemma map_result_raise {A B : Type} (g : A -> result B) (l : list A)
  (e : exn) :
  map_result g l = Raise e -> exists x, In x l /\ g x = Raise e.
Proof.
  induction l as [|x r IH]; simpl; [discriminate|].
  destruct (g x) as [y|e'] eqn:E; simpl.
  - destruct (map_result g r) as [ys|e'']; simpl; [discriminate|].
    intros H; injection H as ->.
    destruct IH as (x' & Hin & Hx); [reflexivity|].
    exists x'; auto.
  - intros H; injection H as ->; exists x; auto.
Qed.

Lemma analyze_raises_type_error (f : forge) (pr : pr_data) (e : exn) :
  analyze_pr_ai_ecosystem f pr = Raise e -> e = TypeError.
Proof.
  unfold analyze_pr_ai_ecosystem.
  destruct (scan_pr_cases f pr) as [[_ H] | (b & _ & _ & H)]; rewrite H;
    simpl; congruence.
Qed.

(** C4, as the code has it: [run_ecosystem_mapping] returns early, with no
    report, when no PR was collected, and never raises a division by zero;
    on every sequence of at least one analysis the reporter returns a
    report, whose average is the sum of the tool counts over the number of
    analyses. *)
Theorem report_guarded_against_empty (f : forge) (ai_prs : list pr_data)
  (r : analysis) (rest : list analysis) :
  run_ecosystem_mapping f [] = Ok None /\
  run_ecosystem_mapping f ai_prs <> Raise ZeroDivisionError /\
  exists rep,
    _generate_ecosystem_report (r :: rest) = Ok rep /\
    rep_total_prs rep = Z.of_nat (List.length (r :: rest)) /\
    rep_average_tools rep =
      (inject_Z (sum_tool_counts (r :: rest)) /
       inject_Z (Z.of_nat (List.length (r :: rest))))%Q.
Proof.
  split; [reflexivity|]; split; [|apply report_on_nonempty].
  unfold run_ecosystem_mapping.
  destruct ai_prs as [|pr prs]; [discriminate|].
  destruct (map_result (analyze_pr_ai_ecosystem f) (pr :: prs))
    as [results|e] eqn:E.
  - apply map_result_length in E.
    destruct results as [|a results]; [discriminate E|].
    destruct (report_on_nonempty a results) as (rep & Hrep & _).
    unfold bind; rewrite Hrep; discriminate.
  - apply map_result_raise in E as (x & _ & Hx).
    apply analyze_raises_type_error in Hx; subst e.
    unfold bind; discriminate.
Qed.

(** C4, the counterexample: on the empty sequence the reporter raises. *)
Lemma empty_report_raises :
  _generate_ecosystem_report [] = Raise ZeroDivisionError.
Proof. reflexivity. Qed.

(** ** Sorting tool names *)

Lemma compare_lt_trans (a b c : string) :
  String.compare a b = Lt -> String.compare b c = Lt ->
  String.compare a c = Lt.
Proof.
  revert b c; induction a as [|x a IH]; intros [|y b] [|z c]; simpl;
    try discriminate; try reflexivity.
  unfold Ascii.compare.
  destruct (N.compare_spec (N_of_ascii x) (N_of_ascii y));
    destruct (N.compare_spec (N_of_ascii y) (N_of_ascii z));
    destruct (N.compare_spec (N_of_ascii x) (N_of_ascii z));
    try lia; try discriminate; try reflexivity.
  apply IH.
Qed.

Lemma ltb_lt (a b : string) : String.ltb a b = true <-> String.compare a b = Lt.
Proof.
  unfold String.ltb; destruct (String.compare a b); split;
    (reflexivity || discriminate).
Qed.

Lemma ltb_asym (a b : string) :
  String.ltb a b = true -> String.ltb b a = false.
Proof.
  unfold String.ltb; rewrite (String.compare_antisym a b).
  now destruct (String.compare b a).
Qed.

Lemma ltb_neither (a b : string) :
  String.ltb a b = false -> String.ltb b a = false -> a = b.
Proof.
  unfold String.ltb; rewrite (String.compare_antisym b a).
  destruct (String.compare a b) eqn:E; simpl; try discriminate.
  intros _ _; now apply String.compare_eq_iff.
Qed.

Lemma ltb_le_lt (x z y : string) :
  String.ltb z x = false -> String.ltb z y = true -> String.ltb x y = true.
Proof.
  intros Hzx Hzy.
  destruct (String.ltb x z) eqn:Hxz.
  - apply ltb_lt; apply ltb_lt in Hxz, Hzy.
    now apply (compare_lt_trans x z y).
  - now rewrite (ltb_neither x z Hxz Hzx).
Qed.

Lemma insert_name_comm (x y : string) (l : list string) :
  insert_name x (insert_name y l) = insert_name y (insert_name x l).
Proof.
  induction l as [|z r IH]; simpl.
  - destruct (String.ltb y x) eqn:Eyx, (String.ltb x y) eqn:Exy;
      try reflexivity.
    + apply ltb_asym in Eyx; congruence.
    + now rewrite (ltb_neither x y Exy Eyx).
  - destruct (String.ltb z y) eqn:Ezy, (String.ltb z x) eqn:Ezx; simpl;
      rewrite ?Ezy, ?Ezx.
    + now rewrite IH.
    + now rewrite (ltb_le_lt x z y Ezx Ezy).
    + now rewrite (ltb_le_lt y z x Ezy Ezx).
    + destruct (String.ltb y x) eqn:Eyx, (String.ltb x y) eqn:Exy;
        rewrite ?Ezy, ?Ezx; try reflexivity.
      * apply ltb_asym in Eyx; congruence.
      * now rewrite (ltb_neither x y Exy Eyx).
Qed.

Lemma insert_name_perm (x : string) (l : list string) :
  Permutation (insert_name x l) (x :: l).
Proof.
  induction l as [|y r IH]; simpl; [reflexivity|].
  destruct (String.ltb y x); [|reflexivity].
  rewrite IH; apply perm_swap.
Qed.

Lemma sorted_is_permutation (l : list string) : Permutation (sorted l) l.
Proof.
  induction l as [|x r IH]; simpl; [reflexivity|].
  rewrite insert_name_perm; now constructor.
Qed.

Lemma sorted_of_permutation (l1 l2 : list string) :
  Permutation l1 l2 -> sorted l1 = sorted l2.
Proof.
  induction 1 as [|x l l' _ IH|x y l|l l' l'' _ IH1 _ IH2]; simpl.
  - reflexivity.
  - now rewrite IH.
  - apply insert_name_comm.
  - congruence.
Qed.

Lemma sorted_eq_iff (l1 l2 : list string) :
  sorted l1 = sorted l2 <-> Permutation l1 l2.
Proof.
  split; [|apply sorted_of_permutation].
  intros H.
  rewrite <- (sorted_is_permutation l1), <- (sorted_is_permutation l2).
  now rewrite H.
Qed.

Lemma tuple_eqb_eq (a b : list string) : tuple_eqb a b = true <-> a = b.
Proof.
  revert b; induction a as [|x a IH]; intros [|y b]; simpl;
    try (split; (reflexivity || discriminate)).
  rewrite andb_true_iff, String.eqb_eq, IH.
  split; [intros [-> ->]; reflexivity | intros H; injection H; auto].
Qed.

(** ** Counting into a dictionary *)

Section CountFacts.
Context {K : Type} (keqb : K -> K -> bool).
Hypothesis keqb_eq : forall a b, keqb a b = true <-> a = b.

Lemma keqb_sym (a b : K) : keqb a b = keqb b a.
Proof.
  destruct (keqb a b) eqn:E1, (keqb b a) eqn:E2; try reflexivity.
  - apply keqb_eq in E1; subst; now rewrite (keqb_refl keqb keqb_eq) in E2.
  - apply keqb_eq in E2; subst; now rewrite (keqb_refl keqb keqb_eq) in E1.
Qed.

Lemma dict_mem_existsb (k : K) (d : list (K * Z)) :
  dict_mem keqb k d = existsb (keqb k) (dict_keys d).
Proof.
  induction d as [|[k' v] d IH]; simpl; [reflexivity|].
  rewrite (keqb_sym k' k); now destruct (keqb k k').
Qed.

Lemma count_up_keys (k : K) (d : list (K * Z)) :
  dict_keys (count_up keqb k d) =
    if existsb (keqb k) (dict_keys d) then dict_keys d
    else (dict_keys d ++ [k])%list.
Proof.
  unfold count_up; now rewrite dict_keys_set, dict_mem_existsb.
Qed.

Lemma count_up_get (k k0 : K) (d : list (K * Z)) :
  dict_get_default keqb k0 0 (count_up keqb k d) =
  dict_get_default keqb k0 0 d + (if keqb k0 k then 1 else 0).
Proof.
  unfold count_up, dict_get_default at 1.
  destruct (keqb k0 k) eqn:E.
  - apply keqb_eq in E; subst k0.
    now rewrite (dict_get_set_same keqb keqb_eq).
  - rewrite (dict_get_set_other keqb keqb_eq).
    + unfold dict_get_default; lia.
    + intros ->; now rewrite (keqb_refl keqb keqb_eq) in E.
Qed.

Lemma counted_keys (ks : list K) (d : list (K * Z)) :
  dict_keys (fold_left (fun d k => count_up keqb k d) ks d) =
  first_seen keqb (dict_keys d) ks.
Proof.
  unfold first_seen.
  revert d; induction ks as [|k ks IH]; intros d; simpl; [reflexivity|].
  now rewrite IH, count_up_keys.
Qed.

Lemma counted_get (k0 : K) (ks : list K) (d : list (K * Z)) :
  dict_get_default keqb k0 0
    (fold_left (fun d k => count_up keqb k d) ks d) =
  dict_get_default keqb k0 0 d + occurrences keqb k0 ks.
Proof.
  unfold occurrences.
  revert d; induction ks as [|k ks IH]; intros d; simpl; [lia|].
  rewrite IH, count_up_get.
  destruct (keqb k0 k); simpl List.length; lia.
Qed.

(** The first of the largest counts wins. *)
Lemma max_from_first (best : K * Z) (items : list (K * Z)) :
  (max_from best items = best /\
   Forall (fun e => snd e <= snd best) items) \/
  (exists before after,
      items = (before ++ max_from best items :: after)%list /\
      snd best < snd (max_from best items) /\
      Forall (fun e => snd e < snd (max_from best items)) before /\
      Forall (fun e => snd e <= snd (max_from best items)) after).
Proof.
  revert best; induction items as [|x r IH]; intros best; simpl.
  - left; split; [reflexivity | constructor].
  - destruct (snd best <? snd x) eqn:E.
    + apply Z.ltb_lt in E; right.
      destruct (IH x) as [[Hm Hall] | (b & a & Hr & Hlt & Hb & Ha)].
      * exists [], r; rewrite Hm; simpl.
        split; [reflexivity|]; split; [exact E|]; split;
          [constructor | exact Hall].
      * exists (x :: b), a; simpl.
        split; [now rewrite <- Hr|]; split; [lia|]; split;
          [constructor; [lia | exact Hb] | exact Ha].
    + apply Z.ltb_ge in E.
      destruct (IH best) as [[Hm Hall] | (b & a & Hr & Hlt & Hb & Ha)].
      * left; split; [exact Hm | constructor; auto].
      * right; exists (x :: b), a; simpl.
        split; [now rewrite <- Hr|]; split; [exact Hlt|]; split;
          [constructor; [lia | exact Hb] | exact Ha].
Qed.

Lemma max_by_count_first (items : list (K * Z)) :
  match max_by_count items with
  | None => items = []
  | Some top =>
      exists before after,
        items = (before ++ top :: after)%list /\
        Forall (fun e => snd e < snd top) before /\
        Forall (fun e => snd e <= snd top) after
  end.
Proof.
  destruct items as [|x r]; simpl; [reflexivity|].
  destruct (max_from_first x r) as [[Hm Hall] | (b & a & Hr & Hlt & Hb & Ha)].
  - exists [], r; rewrite Hm; auto.
  - exists (x :: b), a.
    split; [simpl; now rewrite <- Hr|]; split;
      [constructor; [exact Hlt | exact Hb] | exact Ha].
Qed.
End CountFacts.

Lemma combinations_counted (results : list analysis) :
  combinations results =
  fold_left (fun d k => count_up tuple_eqb k d) (combination_keys results) [].
Proof.
  unfold combinations, combination_keys.
  generalize (@nil (list string * Z)) as d.
  induction results as [|r rest IH]; intros d; simpl; [reflexivity|].
  destruct (is_multi_ai r); simpl; apply IH.
Qed.

(** ** The most common combination *)

Lemma count_up_twice (k : list string) :
  count_up tuple_eqb k (count_up tuple_eqb k []) = [(k, 2)].
Proof.
  assert (E : tuple_eqb k k = true) by now apply tuple_eqb_eq.
  unfold count_up, dict_get_default; simpl.
  repeat (rewrite E; simpl).
  reflexivity.
Qed.

Lemma first_seen_nonempty (seen ks : list (list string)) :
  seen <> [] -> first_seen tuple_eqb seen ks <> [].
Proof.
  unfold first_seen.
  revert seen; induction ks as [|k ks IH]; intros seen H; simpl; [exact H|].
  apply IH; destruct (existsb (tuple_eqb k) seen); [exact H|].
  intros E; apply app_eq_nil in E as [_ E]; discriminate.
Qed.

Lemma combinations_nil (results : list analysis) :
  combinations results = [] -> combination_keys results = [].
Proof.
  intros H.
  assert (Hk : dict_keys (combinations results) = []) by now rewrite H.
  rewrite combinations_counted,
    (counted_keys tuple_eqb tuple_eqb_eq) in Hk.
  destruct (combination_keys results) as [|k ks]; [reflexivity|].
  exfalso; revert Hk.
  change (first_seen tuple_eqb (dict_keys []) (k :: ks))
    with (first_seen tuple_eqb [k] ks).
  apply first_seen_nonempty; discriminate.
Qed.

(** ** Worked examples *)

(** Four sources, four tools: the keys come in source order. *)
Example four_sources_four_keys :
  match scan_pr_for_ai_tools sample_forge
          (sample_pr "Update parser" (JStr "Drafted with ChatGPT")
             "octocat" "is:pr head:codex/")
  with
  | Ok found =>
      phrases_of found =
        [ ("chatgpt", ["chatgpt"]); ("claude", ["claude"; "asked claude"]);
          ("cursor", ["cursor"]); ("devin", ["devin"]) ] /\
      map (fun e => map ev_location (snd e)) found =
        [ ["PR description"]; ["PR comment"; "PR comment"];
          ["Code review comment"]; ["Commit message"] ]
  | Raise _ => False
  end.
Proof. vm_compute; split; reflexivity. Qed.

(** An exception in the middle of the comments ends that scan; what was
    found before it stays, the later comments are not read, and the other
    sources degrade to nothing. *)
Example broken_comment_keeps_earlier_evidence :
  phrases_of (_scan_pr_comments broken_comment_forge "acme" "parser" 17) =
    [ ("tabnine", ["tabnine"]) ] /\
  _scan_review_comments broken_comment_forge "acme" "parser" 17 = [] /\
  _scan_commit_messages broken_comment_forge "acme" "parser" 17 = [].
Proof. vm_compute; repeat split. Qed.

(** The same pair of tools in two orders is one combination, counted
    twice; with one more combination of count one it is still the top. *)
Example same_pair_in_two_orders :
  combinations
    [ sample_analysis "codex" ["chatgpt"; "github_copilot"];
      sample_analysis "codex" ["claude"];
      sample_analysis "devin" ["github_copilot"; "chatgpt"] ] =
    [ (["chatgpt"; "github_copilot"], 2) ] /\
  top_combination
    [ sample_analysis "cursor" ["devin"; "claude"];
      sample_analysis "codex" ["github_copilot"; "chatgpt"];
      sample_analysis "devin" ["chatgpt"; "github_copilot"] ] =
    Some (["chatgpt"; "github_copilot"], 2).
Proof. vm_compute; split; reflexivity. Qed.

(** Two combinations of the same count: the one seen first is reported. *)
Example tie_goes_to_first_seen :
  top_combination
    [ sample_analysis "cursor" ["devin"; "claude"];
      sample_analysis "codex" ["github_copilot"; "chatgpt"] ] =
    Some (["claude"; "devin"], 1).
Proof. reflexivity. Qed.

(** Tool counts 0, 1 and 3 average to 4/3. *)
Example average_of_three :
  match _generate_ecosystem_report
          [ sample_analysis "codex" [];
            sample_analysis "codex" ["claude"];
            sample_analysis "devin" ["claude"; "codex"; "cursor"] ]
  with
  | Ok rep => (rep_average_tools rep == 4 # 3)%Q
  | Raise _ => False
  end.
Proof. vm_compute; reflexivity. Qed.

(** A phrase repeated in one text gives one Evidence, with the context of
    its first occurrence. *)
Example repeated_phrase_counts_once :
  scan_description "tabnine, tabnine and once more tabnine" =
    [ ("tabnine",
       [ {| ev_location := "PR description";
            ev_pattern := "tabnine";
            ev_context := "tabnine, tabnine and once more tabnine";
            ev_meta := NoMeta |} ]) ] /\
  find "tabnine, tabnine and once more tabnine" "tabnine" = 0.
Proof. vm_compute; split; reflexivity. Qed.

(** * Further properties *)

(** ** Occurrence as a decomposition *)

Lemma startswith_iff (p s : string) :
  startswith p s = true <-> exists b, s = p ++ b.
Proof.
  revert s; induction p as [|c p IH]; intros s; simpl.
  - split; [intros _; now exists s | reflexivity].
  - destruct s as [|d s]; [split; [discriminate | intros [b H]; discriminate]|].
    rewrite andb_true_iff, Ascii.eqb_eq, IH; split.
    + intros [-> [b ->]]; now exists b.
    + intros [b H]; injection H as -> ->; split; [reflexivity | now exists b].
Qed.

Lemma str_in_unfold (p s : string) :
  str_in p s =
  if startswith p s then true
  else match s with
       | EmptyString => false
       | String _ s' => str_in p s'
       end.
Proof. destruct s; reflexivity. Qed.

Lemma str_in_iff (p s : string) :
  str_in p s = true <-> exists a b, s = a ++ p ++ b.
Proof.
  split.
  - induction s as [|c s IH]; rewrite str_in_unfold.
    + destruct (startswith p "") eqn:E; [|discriminate].
      intros _; apply startswith_iff in E as [b ->]; now exists "", b.
    + destruct (startswith p (String c s)) eqn:E.
      * intros _; apply startswith_iff in E as [b ->]; now exists "", b.
      * intros H; destruct (IH H) as (a & b & ->).
        now exists (String c a), b.
  - intros (a & b & ->).
    induction a as [|c a IH]; rewrite str_in_unfold.
    + simpl; now rewrite (proj2 (startswith_iff p (p ++ b))) by now exists b.
    + simpl; rewrite IH.
      now destruct (startswith p (String c (a ++ p ++ b))).
Qed.

Lemma str_in_trans (p q s : string) :
  str_in p q = true -> str_in q s = true -> str_in p s = true.
Proof.
  rewrite !str_in_iff.
  intros (a & b & ->) (a' & b' & ->).
  exists (a' ++ a), (b ++ b').
  now rewrite !append_assoc.
Qed.

Lemma take_part (m : nat) (s : string) :
  exists b, s = substring 0 m s ++ b.
Proof.
  revert m; induction s as [|c s IH]; intros [|m]; simpl.
  - now exists "".
  - now exists "".
  - now exists (String c s).
  - destruct (IH m) as [b H]; exists b; now f_equal.
Qed.

Lemma drop_part (n : nat) (s : string) :
  exists a, s = a ++ drop n s.
Proof.
  revert n; induction s as [|c s IH]; intros [|n]; simpl.
  - now exists "".
  - now exists "".
  - now exists "".
  - destruct (IH n) as [a H]; exists (String c a); simpl; now f_equal.
Qed.

Lemma substring_part (n m : nat) (s : string) :
  exists a b, s = a ++ substring n m s ++ b.
Proof.
  rewrite substring_drop.
  destruct (drop_part n s) as [a Ha].
  destruct (take_part m (drop n s)) as [b Hb].
  exists a, b; now rewrite <- Hb.
Qed.

(** ** Trimming *)

Lemma lstrip_part (s : string) : exists a, s = a ++ lstrip s.
Proof.
  induction s as [|c s [a IH]]; simpl; [now exists ""|].
  destruct (is_space c); [|now exists ""].
  exists (String c a); simpl; now f_equal.
Qed.

Lemma rstrip_part (s : string) : exists b, s = rstrip s ++ b.
Proof.
  induction s as [|c s [b IH]]; simpl; [now exists ""|].
  destruct (rstrip s) as [|d r].
  - destruct (is_space c); [now exists (String c s)|].
    exists b; simpl in *; now f_equal.
  - exists b; simpl in *; now f_equal.
Qed.

Lemma strip_part (s : string) : exists a b, s = a ++ strip s ++ b.
Proof.
  unfold strip.
  destruct (lstrip_part s) as [a Ha].
  destruct (rstrip_part (lstrip s)) as [b Hb].
  exists a, b; now rewrite <- Hb.
Qed.

Lemma lstrip_head (s : string) (c : ascii) (t : string) :
  lstrip s = String c t -> is_space c = false.
Proof.
  induction s as [|d s IH]; simpl; [discriminate|].
  destruct (is_space d) eqn:E; [exact IH|].
  intros H; injection H as <- _; exact E.
Qed.

Lemma rstrip_head (c : ascii) (t : string) :
  is_space c = false -> exists r, rstrip (String c t) = String c r.
Proof.
  intros H; simpl; rewrite H.
  destruct (rstrip t) as [|d r]; eauto.
Qed.

Lemma rstrip_last (s : string) (c : ascii) (r : string) :
  rstrip s = String c r -> is_space (last_char c r) = false.
Proof.
  revert c r; induction s as [|d s IH]; intros c r; simpl; [discriminate|].
  destruct (rstrip s) as [|e r'] eqn:E.
  - destruct (is_space d) eqn:Ed; [discriminate|].
    intros H; injection H as <- <-; exact Ed.
  - intros H; injection H as <- <-; simpl.
    now apply IH.
Qed.

Lemma strip_clean (s : string) :
  strip s = "" \/ outer_clean (strip s) = true.
Proof.
  unfold strip.
  destruct (lstrip s) as [|c t] eqn:E; [now left|right].
  pose proof (lstrip_head s c t E) as Hc.
  destruct (rstrip_head c t Hc) as [r Hr].
  rewrite Hr; simpl; rewrite Hc.
  now rewrite (rstrip_last _ _ _ Hr).
Qed.

Lemma str_in_empty (p : string) : str_in p "" = true -> p = "".
Proof.
  rewrite str_in_iff; intros (a & b & H).
  destruct a; [|discriminate]; destruct p; [reflexivity | discriminate].
Qed.

Lemma lstrip_keeps (c : ascii) (p' w : string) :
  is_space c = false ->
  str_in (String c p') w = true -> str_in (String c p') (lstrip w) = true.
Proof.
  intros Hc; induction w as [|d w IH]; simpl lstrip; [auto|].
  destruct (is_space d) eqn:Ed; [|auto].
  rewrite str_in_unfold.
  destruct (startswith (String c p') (String d w)) eqn:E; [|exact IH].
  simpl in E; apply andb_prop in E as [E _].
  apply Ascii.eqb_eq in E; congruence.
Qed.

Lemma startswith_rstrip (p' : string) (c : ascii) (w : string) :
  is_space (last_char c p') = false ->
  startswith (String c p') w = true ->
  startswith (String c p') (rstrip w) = true.
Proof.
  revert c w; induction p' as [|e p'' IH]; intros c [|d w] Hl; simpl;
    try discriminate.
  - intros H; apply andb_prop in H as [H _].
    apply Ascii.eqb_eq in H; subst d.
    simpl in Hl; rewrite Hl.
    destruct (rstrip w); simpl; now rewrite Ascii.eqb_refl.
  - intros H; apply andb_prop in H as [Hcd H].
    apply Ascii.eqb_eq in Hcd; subst d.
    specialize (IH e w Hl H).
    destruct (rstrip w) as [|x r]; [discriminate IH|].
    simpl; rewrite Ascii.eqb_refl; exact IH.
Qed.

Lemma rstrip_keeps (c : ascii) (p' w : string) :
  is_space (last_char c p') = false ->
  str_in (String c p') w = true -> str_in (String c p') (rstrip w) = true.
Proof.
  intros Hl; induction w as [|d w IH]; [auto|].
  rewrite str_in_unfold.
  destruct (startswith (String c p') (String d w)) eqn:E.
  - intros _; apply (startswith_rstrip p' c _ Hl) in E.
    rewrite str_in_unfold; now rewrite E.
  - intros H; specialize (IH H).
    simpl rstrip.
    destruct (rstrip w) as [|x r]; [apply str_in_empty in IH; discriminate|].
    rewrite str_in_unfold, IH.
    now destruct (startswith (String c p') (String d (String x r))).
Qed.

Lemma strip_keeps (p w : string) :
  outer_clean p = true -> str_in p w = true -> str_in p (strip w) = true.
Proof.
  destruct p as [|c p']; [discriminate|]; simpl.
  intros H; apply andb_prop in H as [Hc Hl].
  apply negb_true_iff in Hc, Hl.
  intros Hin; unfold strip.
  now apply rstrip_keeps, lstrip_keeps.
Qed.

Lemma substring_all (m : nat) (s : string) :
  (String.length s <= m)%nat -> substring 0 m s = s.
Proof.
  revert m; induction s as [|c s IH]; intros [|m] H; simpl in *;
    try reflexivity; try lia.
  f_equal; apply IH; lia.
Qed.

Lemma slice_part (s : string) (i j : Z) :
  exists a b, s = a ++ slice s i j ++ b.
Proof. unfold slice; apply substring_part. Qed.

(** The window of [_extract_context] holds the phrase. *)
Lemma window_holds_phrase (text p : string) :
  str_in p text = true ->
  str_in p
    (slice text (Z.max 0 (find text p - 40))
       (Z.min (len text) (find text p + len p + 40))) = true.
Proof.
  intros Hocc; unfold find.
  destruct (find_from_spec p text 0)
    as [[Hf Hn] | [k (Hf & Hin & Hs & Hl & _)]]; [lia | congruence |].
  - rewrite Hf.
    set (pos := 0 + Z.of_nat k).
    set (start := Z.max 0 (pos - 40)).
    set (stop := Z.min (len text) (pos + len p + 40)).
    pose proof (len_nonneg p) as Hp.
    assert (Hlen : pos + len p <= len text) by (unfold pos, len; lia).
    rewrite slice_in_range by (unfold start, stop; lia).
    apply str_in_iff.
    destruct (substring_part (Z.to_nat (pos - start)) (String.length p)
                (substring (Z.to_nat start) (Z.to_nat (stop - start)) text))
      as (a & b & H).
    rewrite substring_substring in H by (unfold start, stop, len in *; lia).
    replace (Z.to_nat start + Z.to_nat (pos - start))%nat with k in H
      by (unfold start, pos; lia).
    rewrite (substring_drop k), (startswith_take _ _ Hs) in H.
    now exists a, b.
Qed.

(** ** More on the context snippet *)

Lemma extract_context_cases (text p : string) :
  (str_in p text = false /\
   _extract_context text p = strip (slice text 0 80)) \/
  (str_in p text = true /\
   _extract_context text p =
     strip (slice text (Z.max 0 (find text p - 40))
              (Z.min (len text) (find text p + len p + 40)))).
Proof.
  destruct (str_in p text) eqn:E.
  - right; split; [reflexivity | now apply extract_context_present].
  - left; split; [reflexivity|].
    rewrite str_in_find in E; apply negb_false_iff in E.
    unfold _extract_context, extract_context_with; now rewrite E.
Qed.

(** X2: the snippet is always a contiguous part of the text it was taken
    from, whether or not the phrase occurs. *)
Theorem context_is_part_of_text (text p : string) :
  str_in (_extract_context text p) text = true.
Proof.
  apply str_in_iff.
  destruct (extract_context_cases text p) as [[_ ->] | [_ ->]].
  - destruct (slice_part text 0 80) as (a & b & Hs).
    destruct (strip_part (slice text 0 80)) as (a' & b' & Ht).
    exists (a ++ a'), (b' ++ b).
    rewrite Hs at 1; rewrite Ht at 1.
    now rewrite !append_assoc.
  - set (w := slice text _ _).
    destruct (slice_part text (Z.max 0 (find text p - 40))
                (Z.min (len text) (find text p + len p + 40)))
      as (a & b & Hs).
    destruct (strip_part w) as (a' & b' & Ht).
    exists (a ++ a'), (b' ++ b).
    rewrite Hs at 1; fold w; rewrite Ht at 1.
    now rewrite !append_assoc.
Qed.

(** ** More on the primary creator *)

Lemma check_bot_accounts_spec (a raw : string)
  (rules : list (string * creator_rule)) :
  match check_bot_accounts a raw rules with
  | Some v =>
      exists T rule,
        In (T, rule) rules /\
        In a (map lower (bot_accounts rule)) /\
        v = {| primary_creator := T; v_confidence := high;
               v_evidence := "Bot account: " ++ raw |}
  | None =>
      forall T rule,
        In (T, rule) rules -> ~ In a (map lower (bot_accounts rule))
  end.
Proof.
  induction rules as [|[T rule] rest IH]; simpl; [tauto|].
  destruct (existsb (String.eqb a) (map lower (bot_accounts rule))) eqn:E.
  - apply existsb_exists in E as (x & Hx & Hax).
    apply String.eqb_eq in Hax; subst x.
    exists T, rule; auto.
  - destruct (check_bot_accounts a raw rest) as [v|].
    + destruct IH as (T' & rule' & Hin & Hbot & Hv).
      exists T', rule'; auto.
    + intros T' rule' [Heq | Hin]; [|exact (IH T' rule' Hin)].
      injection Heq as <- <-.
      intros Hbot.
      assert (existsb (String.eqb a) (map lower (bot_accounts rule)) = true);
        [|congruence].
      apply existsb_exists; exists a; split;
        [exact Hbot | apply String.eqb_refl].
Qed.

Lemma registered_accounts_lowered (T : string) (rule : creator_rule) :
  In (T, rule) creator_patterns ->
  map lower (bot_accounts rule) = bot_accounts rule.
Proof.
  intros H.
  assert (Hall : Forall
                   (fun e => map lower (bot_accounts (snd e)) =
                             bot_accounts (snd e)) creator_patterns)
    by (repeat constructor).
  rewrite Forall_forall in Hall; exact (Hall _ H).
Qed.

(** Whether the lowered login is a registered bot account of some tool. *)
Lemma identify_cases (pr : pr_data) :
  (exists T rule,
      In (T, rule) creator_patterns /\
      In (lower (author pr)) (bot_accounts rule) /\
      identify_primary_creator pr =
        {| primary_creator := T; v_confidence := high;
           v_evidence := "Bot account: " ++ author pr |}) \/
  ((forall T rule,
       In (T, rule) creator_patterns ->
       ~ In (lower (author pr)) (bot_accounts rule)) /\
   check_bot_accounts (lower (author pr)) (author pr) creator_patterns
     = None).
Proof.
  pose proof (check_bot_accounts_spec (lower (author pr)) (author pr)
                creator_patterns) as H.
  unfold identify_primary_creator.
  destruct (check_bot_accounts (lower (author pr)) (author pr)
              creator_patterns) as [v|].
  - left; destruct H as (T & rule & Hin & Hbot & ->).
    exists T, rule; repeat split; auto.
    now rewrite <- (registered_accounts_lowered T rule Hin).
  - right; split; [|reflexivity].
    intros T rule Hin Hbot; apply (H T rule Hin).
    now rewrite (registered_accounts_lowered T rule Hin).
Qed.

(** X5: the tool of a verdict is a key of the creator rules or the literal
    "unknown"; it never comes from the mention catalogue. *)
Theorem verdict_tool_known (pr : pr_data) :
  In (primary_creator (identify_primary_creator pr))
    (dict_keys creator_patterns) \/
  primary_creator (identify_primary_creator pr) = "unknown".
Proof.
  destruct (identify_cases pr) as [(T & rule & Hin & _ & ->) | [_ Hnone]].
  - left; cbn [primary_creator]; unfold dict_keys.
    exact (in_map fst _ _ Hin).
  - unfold identify_primary_creator; rewrite Hnone.
    destruct (str_in "head:copilot/" (detection_query pr));
      [left; simpl; tauto|].
    destruct (str_in "head:codex/" (detection_query pr));
      [left; simpl; tauto|].
    destruct (str_in "head:cursor/" (detection_query pr));
      [left; simpl; tauto | now right].
Qed.

(** X6: the confidence is high exactly when the lowered author login is a
    registered bot account of some tool. *)
Theorem high_iff_bot_account (pr : pr_data) :
  v_confidence (identify_primary_creator pr) = high <->
  exists T rule,
    In (T, rule) creator_patterns /\
    In (lower (author pr)) (bot_accounts rule).
Proof.
  destruct (identify_cases pr) as [(T & rule & Hin & Hbot & Hv) | [Hno Hnone]].
  - rewrite Hv; simpl; split; [|reflexivity].
    intros _; now exists T, rule.
  - split.
    + unfold identify_primary_creator; rewrite Hnone.
      destruct (str_in "head:copilot/" (detection_query pr));
        [discriminate|].
      destruct (str_in "head:codex/" (detection_query pr));
        [discriminate|].
      destruct (str_in "head:cursor/" (detection_query pr)); discriminate.
    + intros (T & rule & Hin & Hbot); exfalso; exact (Hno T rule Hin Hbot).
Qed.

(** X7: the verdict is "unknown" exactly when the lowered login is no
    registered bot account and the discovery query holds none of the three
    markers head:copilot/, head:codex/, head:cursor/. *)
Theorem unknown_iff_no_signal (pr : pr_data) :
  primary_creator (identify_primary_creator pr) = "unknown" <->
  (forall T rule,
      In (T, rule) creator_patterns ->
      ~ In (lower (author pr)) (bot_accounts rule)) /\
  str_in "head:copilot/" (detection_query pr) = false /\
  str_in "head:codex/" (detection_query pr) = false /\
  str_in "head:cursor/" (detection_query pr) = false.
Proof.
  destruct (identify_cases pr) as [(T & rule & Hin & Hbot & Hv) | [Hno Hnone]].
  - rewrite Hv; simpl; split.
    + intros ->; exfalso.
      simpl in Hin; repeat (destruct Hin as [Hin | Hin]; [discriminate|]).
      contradiction.
    + intros [Hno _]; exfalso; exact (Hno T rule Hin Hbot).
  - unfold identify_primary_creator; rewrite Hnone.
    destruct (str_in "head:copilot/" (detection_query pr));
      [split; [discriminate | intros (_ & H & _); discriminate]|].
    destruct (str_in "head:codex/" (detection_query pr));
      [split; [discriminate | intros (_ & _ & H & _); discriminate]|].
    destruct (str_in "head:cursor/" (detection_query pr));
      [split; [discriminate | intros (_ & _ & _ & H); discriminate]|].
    split; [intros _; auto | reflexivity].
Qed.

(** X8: devin and codegen are only ever named through a bot account: a
    verdict for one of them has confidence high and the bot-account
    evidence, so the queries by author never identify a creator. *)
Theorem agent_only_by_account (pr : pr_data) :
  primary_creator (identify_primary_creator pr) = "devin" \/
  primary_creator (identify_primary_creator pr) = "codegen" ->
  v_confidence (identify_primary_creator pr) = high /\
  v_evidence (identify_primary_creator pr) = "Bot account: " ++ author pr.
Proof.
  destruct (identify_cases pr) as [(T & rule & _ & _ & Hv) | [_ Hnone]].
  - rewrite Hv; simpl; auto.
  - unfold identify_primary_creator; rewrite Hnone.
    destruct (str_in "head:copilot/" (detection_query pr));
      [intros [H | H]; discriminate|].
    destruct (str_in "head:codex/" (detection_query pr));
      [intros [H | H]; discriminate|].
    destruct (str_in "head:cursor/" (detection_query pr));
      intros [H | H]; discriminate.
Qed.

Lemma agent_only_by_account_witness :
  let pr := sample_pr "Add retries" (JStr "") "codegen-sh[bot]"
              "is:pr author:codegen-sh[bot]" in
  v_confidence (identify_primary_creator pr) = high /\
  v_evidence (identify_primary_creator pr) = "Bot account: codegen-sh[bot]".
Proof.
  apply (agent_only_by_account
           (sample_pr "Add retries" (JStr "") "codegen-sh[bot]"
              "is:pr author:codegen-sh[bot]")).
  right; reflexivity.
Defined.

(** ** Keys of the evidence maps *)

Lemma evidence_mem_existsb (tool : string) (m : evidence_map) :
  dict_mem String.eqb tool m = existsb (String.eqb tool) (dict_keys m).
Proof.
  induction m as [|[k v] m IH]; simpl; [reflexivity|].
  rewrite (String.eqb_sym k tool); now destruct (String.eqb tool k).
Qed.

Lemma append_to_keys (found : evidence_map) (tool : string)
  (l : list evidence) :
  dict_keys (append_to found tool l) =
  first_seen String.eqb (dict_keys found) [tool].
Proof.
  rewrite append_to_eq, dict_keys_set, evidence_mem_existsb.
  reflexivity.
Qed.

Lemma first_seen_app {K : Type} (keqb : K -> K -> bool)
  (seen l1 l2 : list K) :
  first_seen keqb seen (l1 ++ l2) =
  first_seen keqb (first_seen keqb seen l1) l2.
Proof. unfold first_seen; apply fold_left_app. Qed.

Lemma first_seen_again (seen : list string) (k : string) :
  In k seen -> first_seen String.eqb seen [k] = seen.
Proof.
  intros H; unfold first_seen; simpl.
  assert (E : existsb (String.eqb k) seen = true)
    by (apply existsb_exists; exists k; split;
        [exact H | apply String.eqb_refl]).
  now rewrite E.
Qed.

Lemma first_seen_has (seen : list string) (k : string) :
  In k (first_seen String.eqb seen [k]).
Proof.
  unfold first_seen; simpl.
  destruct (existsb (String.eqb k) seen) eqn:E.
  - apply existsb_exists in E as (x & Hx & Hk).
    apply String.eqb_eq in Hk; now subst x.
  - apply in_or_app; right; now left.
Qed.

Lemma scan_patterns_keys (mk : string -> string -> evidence)
  (text tool : string) (patterns : list string) (found : evidence_map) :
  dict_keys (scan_patterns mk text tool patterns found) =
  first_seen String.eqb (dict_keys found)
    (if existsb (fun p => str_in p text) patterns then [tool] else []).
Proof.
  unfold scan_patterns.
  revert found; induction patterns as [|p ps IH]; intros found; simpl;
    [reflexivity|].
  rewrite IH.
  destruct (str_in p text); simpl; [|reflexivity].
  rewrite record_match_append_to, append_to_keys.
  destruct (existsb (fun p0 => str_in p0 text) ps); [|reflexivity].
  apply first_seen_again, first_seen_has.
Qed.

Lemma scan_text_keys (mk : string -> string -> evidence) (text : string)
  (found : evidence_map) :
  dict_keys (scan_text mk text found) =
  first_seen String.eqb (dict_keys found) (matched_tools text).
Proof.
  unfold scan_text, matched_tools.
  generalize ai_tool_patterns as cat.
  intros cat; revert found.
  induction cat as [|[k ps] cat IH]; intros found; simpl; [reflexivity|].
  rewrite IH, scan_patterns_keys.
  destruct (existsb (fun p => str_in p text) ps); simpl.
  - symmetry; exact (first_seen_app String.eqb _ [k] _).
  - reflexivity.
Qed.

Lemma first_seen_fresh (seen l : list string) :
  NoDup (seen ++ l) -> first_seen String.eqb seen l = (seen ++ l)%list.
Proof.
  unfold first_seen.
  revert seen; induction l as [|k l IH]; intros seen H; simpl.
  - now rewrite app_nil_r.
  - assert (E : existsb (String.eqb k) seen = false).
    { destruct (existsb (String.eqb k) seen) eqn:E; [|reflexivity].
      apply existsb_exists in E as (x & Hx & Hk).
      apply String.eqb_eq in Hk; subst x.
      apply NoDup_remove_2 in H.
      exfalso; apply H, in_or_app; now left. }
    rewrite E, IH; [now rewrite <- app_assoc|].
    rewrite <- app_assoc; exact H.
Qed.

Lemma matched_tools_nodup (text : string) : NoDup (matched_tools text).
Proof.
  unfold matched_tools.
  pose proof catalog_keys_nodup as H; unfold dict_keys in H.
  induction ai_tool_patterns as [|[k ps] cat IH]; simpl; [constructor|].
  inversion H as [|? ? Hnotin Hnd]; subst.
  destruct (existsb (fun p => str_in p text) ps); simpl; [|now apply IH].
  constructor; [|now apply IH].
  intros Hin; apply Hnotin.
  apply in_map_iff in Hin as (e & He & Hf).
  apply filter_In in Hf as [Hf _].
  apply in_map_iff; now exists e.
Qed.

Lemma extend_evidence_keys (found source : evidence_map) :
  dict_keys (extend_evidence found source) =
  first_seen String.eqb (dict_keys found) (dict_keys source).
Proof.
  unfold extend_evidence.
  revert found; induction source as [|[k l] source IH]; intros found; simpl;
    [reflexivity|].
  change (dict_set String.eqb k _ _) with (append_to found k l).
  rewrite IH, append_to_keys.
  symmetry; exact (first_seen_app String.eqb _ [k] _).
Qed.

(** X9: the keys of the description scan are the catalogued tools with
    some phrase in the text, in catalogue order; a tool is a key exactly
    when one of its phrases occurs somewhere in the text, word boundary or
    not. *)
Theorem description_tools (text : string) :
  dict_keys (scan_description text) = matched_tools text /\
  forall tool,
    dict_mem String.eqb tool (scan_description text) = true <->
    exists p, In p (patterns_for tool) /\ str_in p text = true.
Proof.
  split.
  - unfold scan_description; rewrite scan_text_keys.
    apply (first_seen_fresh []), matched_tools_nodup.
  - intros tool.
    rewrite (well_formed_present _ (scan_description_well_formed text) tool).
    unfold scan_description; rewrite scan_text_evidence; simpl.
    unfold hits, matched; split.
    + intros H.
      destruct (filter (fun pattern => str_in pattern text)
                  (patterns_for tool)) as [|p l] eqn:E; [now elim H|].
      assert (Hin : In p (filter (fun pattern => str_in pattern text)
                            (patterns_for tool)))
        by (rewrite E; now left).
      apply filter_In in Hin; now exists p.
    + intros (p & Hp & Hs) H.
      apply map_eq_nil in H.
      assert (Hin : In p (filter (fun pattern => str_in pattern text)
                            (patterns_for tool)))
        by (apply filter_In; auto).
      now rewrite H in Hin.
Qed.

(** X10: the keys of the aggregated map are those of the description scan
    followed by the tools first seen in the issue comments, then in the
    review comments, then in the commit messages. *)
Theorem aggregated_key_order (f : forge) (pr : pr_data) :
  match scan_pr_for_ai_tools f pr, pr_text_of pr with
  | Ok found, Ok pr_text =>
      dict_keys found =
      first_seen String.eqb (dict_keys (scan_description pr_text))
        (dict_keys
           (_scan_pr_comments f (repo_owner pr) (repo_name pr)
              (pr_number pr)) ++
         dict_keys
           (_scan_review_comments f (repo_owner pr) (repo_name pr)
              (pr_number pr)) ++
         dict_keys
           (_scan_commit_messages f (repo_owner pr) (repo_name pr)
              (pr_number pr)))%list
  | Raise _, Raise _ => get_or_empty (body pr) = PyNone
  | _, _ => False
  end.
Proof.
  destruct (scan_pr_cases f pr) as [[Hb H] | (b & Hb & Ht & H)]; rewrite H.
  - unfold pr_text_of; rewrite Hb; reflexivity.
  - rewrite Ht, !extend_evidence_keys.
    now rewrite !first_seen_app.
Qed.

(** ** What an evidence map holds *)

Lemma catalog_entry_patterns (tool : string) (ps : list string) :
  In (tool, ps) ai_tool_patterns -> ps = patterns_for tool.
Proof.
  intros H; unfold patterns_for; symmetry.
  apply (dict_get_default_nodup String.eqb string_eqb_eq);
    [apply catalog_keys_nodup | exact H].
Qed.

Lemma catalog_phrases_clean (tool p : string) :
  In p (patterns_for tool) -> outer_clean p = true.
Proof.
  unfold patterns_for, dict_get_default.
  destruct (dict_get String.eqb tool ai_tool_patterns) as [ps|] eqn:E;
    [|intros []].
  apply (dict_get_in String.eqb string_eqb_eq) in E.
  assert (H : Forall (fun e => forallb outer_clean (snd e) = true)
                ai_tool_patterns)
    by (vm_compute; repeat constructor).
  rewrite Forall_forall in H; specialize (H _ E); simpl in H.
  rewrite forallb_forall in H; apply H.
Qed.

Lemma catalogued_phrase_in_context (tool text p : string) :
  In p (patterns_for tool) -> str_in p text = true ->
  str_in p (_extract_context text p) = true.
Proof.
  intros Hp Hin.
  rewrite (extract_context_present text p Hin).
  apply strip_keeps;
    [now apply (catalog_phrases_clean tool) | now apply window_holds_phrase].
Qed.

Lemma entries_ok_impl (P Q : string -> evidence -> Prop) (m : evidence_map) :
  (forall tool ev, P tool ev -> Q tool ev) ->
  entries_ok P m -> entries_ok Q m.
Proof.
  intros HPQ H; unfold entries_ok in *.
  eapply Forall_impl; [|exact H].
  intros [k l] [Hk Hl]; split; [exact Hk|].
  eapply Forall_impl; [|exact Hl]; intros ev; apply HPQ.
Qed.

Lemma entries_ok_evidence (P : string -> evidence -> Prop)
  (m : evidence_map) (tool : string) :
  entries_ok P m -> Forall (P tool) (evidence_of tool m).
Proof.
  intros H; unfold evidence_of, dict_get_default.
  destruct (dict_get String.eqb tool m) as [v|] eqn:E; [|constructor].
  apply (dict_get_in String.eqb string_eqb_eq) in E.
  unfold entries_ok in H; rewrite Forall_forall in H.
  exact (proj2 (H _ E)).
Qed.

Lemma append_to_entries_ok (P : string -> evidence -> Prop)
  (found : evidence_map) (tool : string) (l : list evidence) :
  In tool (dict_keys ai_tool_patterns) ->
  Forall (P tool) l ->
  entries_ok P found -> entries_ok P (append_to found tool l).
Proof.
  intros Hk Hl H; rewrite append_to_eq.
  apply (dict_set_forall String.eqb string_eqb_eq); [exact H|].
  split; [exact Hk|]; simpl.
  apply Forall_app; split; [now apply entries_ok_evidence | exact Hl].
Qed.

Lemma scan_patterns_entries_ok (P : string -> evidence -> Prop)
  (mk : string -> string -> evidence) (text tool : string)
  (patterns : list string) (found : evidence_map) :
  In tool (dict_keys ai_tool_patterns) ->
  (forall p, In p patterns -> str_in p text = true ->
             P tool (mk p (_extract_context text p))) ->
  entries_ok P found ->
  entries_ok P (scan_patterns mk text tool patterns found).
Proof.
  intros Hk; unfold scan_patterns.
  revert found; induction patterns as [|p ps IH]; intros found Hmk H; simpl;
    [exact H|].
  apply IH; [intros q Hq; apply Hmk; now right|].
  destruct (str_in p text) eqn:E; [|exact H].
  rewrite record_match_append_to.
  apply append_to_entries_ok; auto.
  constructor; [|constructor].
  apply Hmk; [now left | exact E].
Qed.

Lemma scan_text_entries_ok (P : string -> evidence -> Prop)
  (mk : string -> string -> evidence) (text : string)
  (found : evidence_map) :
  (forall tool p, In p (patterns_for tool) -> str_in p text = true ->
                  P tool (mk p (_extract_context text p))) ->
  entries_ok P found -> entries_ok P (scan_text mk text found).
Proof.
  intros Hmk; unfold scan_text.
  assert (Hsub : incl ai_tool_patterns ai_tool_patterns)
    by apply incl_refl.
  revert Hsub found.
  generalize ai_tool_patterns at 1 3 as cat.
  induction cat as [|[k ps] cat IH]; intros Hsub found H; simpl; [exact H|].
  apply IH; [intros e He; apply Hsub; now right|].
  assert (Hin : In (k, ps) ai_tool_patterns) by (apply Hsub; now left).
  apply scan_patterns_entries_ok; simpl.
  - unfold dict_keys; exact (in_map fst _ _ Hin).
  - intros p Hp; apply Hmk.
    now rewrite <- (catalog_entry_patterns k ps Hin).
  - exact H.
Qed.

Lemma extend_evidence_entries_ok (P : string -> evidence -> Prop)
  (found source : evidence_map) :
  entries_ok P source -> entries_ok P found ->
  entries_ok P (extend_evidence found source).
Proof.
  unfold extend_evidence.
  intros Hsrc; revert found.
  induction Hsrc as [|[k l] source [Hk Hl] Hsrc IH]; intros found H; simpl;
    [exact H|].
  apply IH.
  change (dict_set String.eqb k _ _) with (append_to found k l).
  now apply append_to_entries_ok.
Qed.

Lemma entries_ok_nil (P : string -> evidence -> Prop) : entries_ok P [].
Proof. constructor. Qed.

(** The tag of a source together with [well_tagged]. *)
Lemma source_evidence_ok (loc : string) (m : source_meta) (tool text p : string) :
  meta_fits loc m ->
  In p (patterns_for tool) -> str_in p text = true ->
  ev_location
    {| ev_location := loc; ev_pattern := p;
       ev_context := _extract_context text p; ev_meta := m |} = loc /\
  well_tagged tool
    {| ev_location := loc; ev_pattern := p;
       ev_context := _extract_context text p; ev_meta := m |}.
Proof.
  intros Hm Hp Hin; split; [reflexivity|].
  repeat split; simpl; auto.
  now apply (catalogued_phrase_in_context tool).
Qed.

Lemma scan_issue_comments_entries_ok (comments : list issue_comment)
  (acc : evidence_map) :
  entries_ok (fun tool ev => ev_location ev = "PR comment" /\
                             well_tagged tool ev) acc ->
  entries_ok (fun tool ev => ev_location ev = "PR comment" /\
                             well_tagged tool ev)
    (fst (scan_issue_comments comments acc)).
Proof.
  revert acc; induction comments as [|c rest IH]; intros acc H; simpl;
    [exact H|].
  destruct (lower_val (get_or_empty (ic_body c))) as [b|e]; simpl;
    [|exact H].
  destruct (subscript (ic_user_login c)) as [a|e]; simpl; [|exact H].
  destruct (subscript (ic_created_at c)) as [d|e]; simpl; [|exact H].
  apply IH, scan_text_entries_ok; [|exact H].
  intros tool p Hp Hin.
  now apply (source_evidence_ok "PR comment" (CommentMeta a d)).
Qed.

Lemma scan_review_list_entries_ok (comments : list review_comment)
  (acc : evidence_map) :
  entries_ok (fun tool ev => ev_location ev = "Code review comment" /\
                             well_tagged tool ev) acc ->
  entries_ok (fun tool ev => ev_location ev = "Code review comment" /\
                             well_tagged tool ev)
    (fst (scan_review_list comments acc)).
Proof.
  revert acc; induction comments as [|c rest IH]; intros acc H; simpl;
    [exact H|].
  destruct (lower_val (get_or_empty (rc_body c))) as [b|e]; simpl;
    [|exact H].
  destruct (subscript (rc_user_login c)) as [a|e]; simpl; [|exact H].
  apply IH, scan_text_entries_ok; [|exact H].
  intros tool p Hp Hin.
  now apply (source_evidence_ok "Code review comment" (ReviewMeta a _)).
Qed.

Lemma scan_commit_list_entries_ok (commits : list commit)
  (acc : evidence_map) :
  entries_ok (fun tool ev => ev_location ev = "Commit message" /\
                             well_tagged tool ev) acc ->
  entries_ok (fun tool ev => ev_location ev = "Commit message" /\
                             well_tagged tool ev)
    (fst (scan_commit_list commits acc)).
Proof.
  revert acc; induction commits as [|c rest IH]; intros acc H; simpl;
    [exact H|].
  destruct (subscript (cm_message c)) as [m|e]; simpl; [|exact H].
  destruct (subscript (cm_sha c)) as [s|e]; simpl; [|exact H].
  destruct (subscript (cm_author_name c)) as [a|e]; simpl; [|exact H].
  apply IH, scan_text_entries_ok; [|exact H].
  intros tool p Hp Hin.
  apply (source_evidence_ok "Commit message" (CommitMeta (slice s 0 8) a));
    auto.
  split; [reflexivity|].
  eapply Z.le_trans; [apply slice_len_le; lia | lia].
Qed.

Lemma sources_entries_ok (f : forge) (text owner name : string)
  (number : Z) :
  entries_ok (fun tool ev => ev_location ev = "PR description" /\
                             well_tagged tool ev)
    (scan_description text) /\
  entries_ok (fun tool ev => ev_location ev = "PR comment" /\
                             well_tagged tool ev)
    (_scan_pr_comments f owner name number) /\
  entries_ok (fun tool ev => ev_location ev = "Code review comment" /\
                             well_tagged tool ev)
    (_scan_review_comments f owner name number) /\
  entries_ok (fun tool ev => ev_location ev = "Commit message" /\
                             well_tagged tool ev)
    (_scan_commit_messages f owner name number).
Proof.
  split; [|split; [|split]].
  - apply scan_text_entries_ok; [|apply entries_ok_nil].
    intros tool p Hp Hin.
    now apply (source_evidence_ok "PR description" NoMeta).
  - unfold _scan_pr_comments.
    destruct (issue_comments f owner name number) as [|code json];
      [apply entries_ok_nil|].
    destruct (code =? 200); [|apply entries_ok_nil].
    destruct json as [l|]; [|apply entries_ok_nil].
    apply scan_issue_comments_entries_ok, entries_ok_nil.
  - unfold _scan_review_comments.
    destruct (review_comments f owner name number) as [|code json];
      [apply entries_ok_nil|].
    destruct (code =? 200); [|apply entries_ok_nil].
    destruct json as [l|]; [|apply entries_ok_nil].
    apply scan_review_list_entries_ok, entries_ok_nil.
  - unfold _scan_commit_messages.
    destruct (pr_commits f owner name number) as [|code json];
      [apply entries_ok_nil|].
    destruct (code =? 200); [|apply entries_ok_nil].
    destruct json as [l|]; [|apply entries_ok_nil].
    apply scan_commit_list_entries_ok, entries_ok_nil.
Qed.

Lemma scan_pr_entries_ok (f : forge) (pr : pr_data) (found : evidence_map) :
  scan_pr_for_ai_tools f pr = Ok found -> entries_ok well_tagged found.
Proof.
  destruct (scan_pr_cases f pr) as [[_ H] | (b & _ & _ & H)]; rewrite H;
    [discriminate|].
  intros E; injection E as <-.
  destruct (sources_entries_ok f (lower (title pr ++ " " ++ b))
              (repo_owner pr) (repo_name pr) (pr_number pr))
    as (Hd & Hc & Hr & Hm).
  repeat apply extend_evidence_entries_ok;
    (eapply entries_ok_impl; [|eassumption]); intros tool ev [_ Hw];
    exact Hw.
Qed.

(** X11: every Evidence of a source carries that source's location tag; in
    every source and in the aggregated map each key is a catalogued tool
    and each Evidence under it has metadata of the kind of its tag (a
    commit hash of at most eight characters), a phrase catalogued for that
    tool, and a context that shows the phrase. *)
Theorem evidence_is_well_tagged (f : forge) (pr : pr_data)
  (text owner name : string) (number : Z) :
  entries_ok (fun tool ev => ev_location ev = "PR description" /\
                             well_tagged tool ev)
    (scan_description text) /\
  entries_ok (fun tool ev => ev_location ev = "PR comment" /\
                             well_tagged tool ev)
    (_scan_pr_comments f owner name number) /\
  entries_ok (fun tool ev => ev_location ev = "Code review comment" /\
                             well_tagged tool ev)
    (_scan_review_comments f owner name number) /\
  entries_ok (fun tool ev => ev_location ev = "Commit message" /\
                             well_tagged tool ev)
    (_scan_commit_messages f owner name number) /\
  match scan_pr_for_ai_tools f pr with
  | Ok found => entries_ok well_tagged found
  | Raise _ => get_or_empty (body pr) = PyNone
  end.
Proof.
  destruct (sources_entries_ok f text owner name number)
    as (Hd & Hc & Hr & Hm).
  repeat (split; [assumption|]).
  destruct (scan_pr_for_ai_tools f pr) as [found|e] eqn:E.
  - exact (scan_pr_entries_ok f pr found E).
  - destruct (scan_pr_cases f pr) as [[Hb _] | (b & _ & _ & H)];
      [exact Hb | congruence].
Qed.

(** ** Sources that cannot be read *)

Lemma extend_evidence_nil (found : evidence_map) :
  extend_evidence found [] = found.
Proof. reflexivity. Qed.

(** X12: when the three requests of a PR are unavailable (the request
    fails, the status is not 200 or the body does not decode), each fetched
    scan returns the empty map and the PR's map is the description scan
    alone. *)
Theorem unavailable_sources_leave_description (f : forge) (pr : pr_data)
  (b : string) :
  unavailable (issue_comments f (repo_owner pr) (repo_name pr)
                 (pr_number pr)) ->
  unavailable (review_comments f (repo_owner pr) (repo_name pr)
                 (pr_number pr)) ->
  unavailable (pr_commits f (repo_owner pr) (repo_name pr) (pr_number pr)) ->
  get_or_empty (body pr) = PyStr b ->
  _scan_pr_comments f (repo_owner pr) (repo_name pr) (pr_number pr) = [] /\
  _scan_review_comments f (repo_owner pr) (repo_name pr) (pr_number pr)
    = [] /\
  _scan_commit_messages f (repo_owner pr) (repo_name pr) (pr_number pr)
    = [] /\
  scan_pr_for_ai_tools f pr =
    Ok (scan_description (lower (title pr ++ " " ++ b))).
Proof.
  intros Hc Hr Hm Hb.
  assert (Ec : _scan_pr_comments f (repo_owner pr) (repo_name pr)
                 (pr_number pr) = []).
  { unfold _scan_pr_comments.
    destruct (issue_comments f (repo_owner pr) (repo_name pr) (pr_number pr))
      as [|code json]; [reflexivity|].
    destruct Hc as [H | ->]; [apply Z.eqb_neq in H; now rewrite H|].
    now destruct (code =? 200). }
  assert (Er : _scan_review_comments f (repo_owner pr) (repo_name pr)
                 (pr_number pr) = []).
  { unfold _scan_review_comments.
    destruct (review_comments f (repo_owner pr) (repo_name pr) (pr_number pr))
      as [|code json]; [reflexivity|].
    destruct Hr as [H | ->]; [apply Z.eqb_neq in H; now rewrite H|].
    now destruct (code =? 200). }
  assert (Em : _scan_commit_messages f (repo_owner pr) (repo_name pr)
                 (pr_number pr) = []).
  { unfold _scan_commit_messages.
    destruct (pr_commits f (repo_owner pr) (repo_name pr) (pr_number pr))
      as [|code json]; [reflexivity|].
    destruct Hm as [H | ->]; [apply Z.eqb_neq in H; now rewrite H|].
    now destruct (code =? 200). }
  repeat (split; [assumption|]).
  destruct (scan_pr_cases f pr) as [[Hn _] | (b' & Hb' & _ & H)];
    [congruence|].
  assert (b' = b) by congruence; subst b'.
  now rewrite H, Ec, Er, Em, !extend_evidence_nil.
Qed.

Lemma unavailable_sources_leave_description_witness :
  scan_pr_for_ai_tools unavailable_forge
    (sample_pr "Tidy" (JStr "Pair-programmed with Cursor AI") "octocat"
       "is:pr head:cursor/") =
  Ok (scan_description "tidy pair-programmed with cursor ai").
Proof.
  destruct (unavailable_sources_leave_description unavailable_forge
              (sample_pr "Tidy" (JStr "Pair-programmed with Cursor AI")
                 "octocat" "is:pr head:cursor/")
              "Pair-programmed with Cursor AI")
    as (_ & _ & _ & H).
  - right; reflexivity.
  - left; discriminate.
  - exact I.
  - reflexivity.
  - exact H.
Defined.

Lemma scan_issue_comments_readable (good rest : list issue_comment)
  (acc : evidence_map) :
  forallb readable_comment good = true ->
  scan_issue_comments (good ++ rest) acc =
  scan_issue_comments rest (fst (scan_issue_comments good acc)).
Proof.
  revert acc; induction good as [|c good IH]; intros acc H; simpl;
    [reflexivity|].
  simpl in H; apply andb_prop in H as [Hc Hg].
  unfold readable_comment in Hc.
  destruct (get_or_empty (ic_body c)) as [|b]; [discriminate|].
  destruct (ic_user_login c) as [a|]; [|discriminate].
  destruct (ic_created_at c) as [d|]; [|discriminate].
  simpl; now apply IH.
Qed.

Lemma scan_issue_comments_unreadable (bad : issue_comment)
  (rest : list issue_comment) (acc : evidence_map) :
  readable_comment bad = false ->
  fst (scan_issue_comments (bad :: rest) acc) = acc /\
  snd (scan_issue_comments (bad :: rest) acc) <> None.
Proof.
  unfold readable_comment; simpl.
  destruct (get_or_empty (ic_body bad)) as [|b]; simpl;
    [split; [reflexivity | discriminate]|].
  destruct (ic_user_login bad) as [a|]; simpl;
    [|split; [reflexivity | discriminate]].
  destruct (ic_created_at bad) as [d|]; simpl;
    [discriminate | split; [reflexivity | discriminate]].
Qed.

(** X13: an issue comment that cannot be read ends the scan of the issue
    comments: the map returned is the one of the comments before it, and
    no comment after it is read. *)
Theorem comments_after_failure_unread (f f' : forge) (owner name : string)
  (number : Z) (good rest : list issue_comment) (bad : issue_comment) :
  issue_comments f owner name number =
    Response 200 (Some (good ++ bad :: rest)%list) ->
  issue_comments f' owner name number = Response 200 (Some good) ->
  forallb readable_comment good = true ->
  readable_comment bad = false ->
  _scan_pr_comments f owner name number =
  _scan_pr_comments f' owner name number.
Proof.
  intros Hf Hf' Hg Hb; unfold _scan_pr_comments.
  rewrite Hf, Hf'; simpl.
  rewrite (scan_issue_comments_readable good (bad :: rest) [] Hg).
  now destruct (scan_issue_comments_unreadable bad rest
                  (fst (scan_issue_comments good [])) Hb) as [-> _].
Qed.

Lemma comments_after_failure_unread_witness :
  _scan_pr_comments broken_comment_forge "acme" "parser" 17 =
  _scan_pr_comments
    {| issue_comments := fun _ _ _ =>
         Response 200
           (Some [ {| ic_body := JStr "tabnine did this";
                      ic_user_login := Some "alice";
                      ic_created_at := Some "2025-06-01T12:00:00Z" |} ]);
       review_comments := fun _ _ _ => RequestFailed;
       pr_commits := fun _ _ _ => RequestFailed |}
    "acme" "parser" 17.
Proof.
  apply (comments_after_failure_unread broken_comment_forge _
           "acme" "parser" 17
           [ {| ic_body := JStr "tabnine did this";
                ic_user_login := Some "alice";
                ic_created_at := Some "2025-06-01T12:00:00Z" |} ]
           [ {| ic_body := JStr "codex too";
                ic_user_login := Some "carol";
                ic_created_at := Some "2025-06-01T14:00:00Z" |} ]
           {| ic_body := JNull;
              ic_user_login := Some "bob";
              ic_created_at := Some "2025-06-01T13:00:00Z" |});
    reflexivity.
Defined.

(** ** Phrases inside phrases *)

Lemma two_members_length {A : Type} (l : list A) (x y : A) :
  In x l -> In y l -> x <> y -> (2 <= List.length l)%nat.
Proof.
  destruct l as [|a [|b l]]; simpl; try tauto; [|lia].
  intros [-> | []] [-> | []] H; now elim H.
Qed.

(** X14: when a catalogued phrase of a tool lies inside another catalogued
    phrase of the same tool, every text that holds the longer phrase gives
    the tool at least two Evidence from that one occurrence. *)
Theorem nested_phrases_count_twice (text tool p q : string) :
  In p (patterns_for tool) ->
  In q (patterns_for tool) ->
  p <> q ->
  str_in p q = true ->
  str_in q text = true ->
  (2 <= List.length (evidence_of tool (scan_description text)))%nat.
Proof.
  intros Hp Hq Hne Hpq Hqt.
  unfold scan_description; rewrite scan_text_evidence; simpl.
  unfold hits; rewrite length_map.
  apply (two_members_length _ p q); [| |exact Hne]; apply filter_In; split;
    auto.
  now apply (str_in_trans p q text).
Qed.

Lemma nested_phrases_count_twice_witness :
  (2 <= List.length
          (evidence_of "github_copilot"
             (scan_description "reviewed with github copilot")))%nat.
Proof.
  apply (nested_phrases_count_twice "reviewed with github copilot"
           "github_copilot" "copilot" "github copilot").
  - vm_compute; auto 10.
  - vm_compute; auto 10.
  - discriminate.
  - reflexivity.
  - reflexivity.
Defined.

(** ** The analysis of a PR and the run *)

Lemma analyze_cases (f : forge) (pr : pr_data) :
  (get_or_empty (body pr) = PyNone /\
   analyze_pr_ai_ecosystem f pr = Raise TypeError) \/
  (exists found,
      scan_pr_for_ai_tools f pr = Ok found /\
      analyze_pr_ai_ecosystem f pr =
        Ok {| a_pr_info :=
                {| pi_url := url pr;
                   pi_repo := repo_owner pr ++ "/" ++ repo_name pr;
                   pi_pr_number := pr_number pr;
                   pi_title := title pr;
                   pi_author := author pr;
                   pi_state := state pr |};
              a_primary_creator := identify_primary_creator pr;
              ai_tools_detected := found;
              ai_tool_count := Z.of_nat (List.length found);
              ai_tool_names := dict_keys found;
              is_multi_ai := 1 <? Z.of_nat (List.length found) |}).
Proof.
  unfold analyze_pr_ai_ecosystem.
  destruct (scan_pr_cases f pr) as [[Hb H] | (b & _ & _ & H)]; rewrite H.
  - left; auto.
  - right; eexists; split; reflexivity.
Qed.

Lemma catalog_size : List.length (dict_keys ai_tool_patterns) = 10%nat.
Proof. reflexivity. Qed.

Lemma entries_ok_keys (P : string -> evidence -> Prop) (m : evidence_map) :
  entries_ok P m -> incl (dict_keys m) (dict_keys ai_tool_patterns).
Proof.
  intros H k Hk; unfold dict_keys in Hk.
  apply in_map_iff in Hk as ([k' v] & <- & Hin).
  unfold entries_ok in H; rewrite Forall_forall in H.
  exact (proj1 (H _ Hin)).
Qed.

(** X15: the analysis of a PR raises exactly when the body is [null], and
    then a [TypeError]; otherwise its tool names are the keys of its
    evidence map, without repetition and all from the catalogue, its tool
    count is their number, at most 10, it is multi-AI exactly when the
    count is at least 2, and its creator is the verdict for the PR. *)
Theorem analysis_fields_consistent (f : forge) (pr : pr_data) :
  match analyze_pr_ai_ecosystem f pr with
  | Ok a =>
      get_or_empty (body pr) <> PyNone /\
      scan_pr_for_ai_tools f pr = Ok (ai_tools_detected a) /\
      ai_tool_names a = dict_keys (ai_tools_detected a) /\
      NoDup (ai_tool_names a) /\
      incl (ai_tool_names a) (dict_keys ai_tool_patterns) /\
      ai_tool_count a = Z.of_nat (List.length (ai_tool_names a)) /\
      ai_tool_count a <= 10 /\
      (is_multi_ai a = true <-> 2 <= ai_tool_count a) /\
      a_primary_creator a = identify_primary_creator pr
  | Raise e => e = TypeError /\ get_or_empty (body pr) = PyNone
  end.
Proof.
  destruct (analyze_cases f pr) as [[Hb H] | (found & Hs & H)]; rewrite H;
    [auto|]; simpl.
  pose proof (scan_pr_well_formed f pr found Hs) as [Hnd _].
  pose proof (entries_ok_keys _ _ (scan_pr_entries_ok f pr found Hs)) as Hin.
  assert (Hlen : List.length (dict_keys found) = List.length found)
    by apply length_map.
  split.
  { destruct (scan_pr_cases f pr) as [[_ H'] | (b & Hb & _)];
      [congruence | rewrite Hb; discriminate]. }
  repeat split; auto.
  - pose proof (NoDup_incl_length Hnd Hin) as Hle.
    rewrite catalog_size in Hle; lia.
  - intros E; apply Z.ltb_lt in E; lia.
  - intros E; apply Z.ltb_lt; lia.
Qed.

Lemma map_result_forall2 {A B : Type} (g : A -> result B) (l : list A)
  (l' : list B) :
  map_result g l = Ok l' -> Forall2 (fun x y => g x = Ok y) l l'.
Proof.
  revert l'; induction l as [|x r IH]; simpl; intros l' H.
  - injection H as <-; constructor.
  - destruct (g x) as [y|e] eqn:E; simpl in H; [|discriminate].
    destruct (map_result g r) as [ys|e]; simpl in H; [|discriminate].
    injection H as <-; constructor; auto.
Qed.

Lemma run_outcome (f : forge) (ai_prs : list pr_data) :
  match run_ecosystem_mapping f ai_prs with
  | Ok None => ai_prs = []
  | Ok (Some (results, rep)) =>
      ai_prs <> [] /\
      Forall2 (fun pr a => analyze_pr_ai_ecosystem f pr = Ok a)
        ai_prs results /\
      _generate_ecosystem_report results = Ok rep
  | Raise e =>
      e = TypeError /\
      exists bad, In bad ai_prs /\ get_or_empty (body bad) = PyNone
  end.
Proof.
  unfold run_ecosystem_mapping.
  destruct ai_prs as [|pr prs]; [reflexivity|].
  destruct (map_result (analyze_pr_ai_ecosystem f) (pr :: prs))
    as [results|e] eqn:E.
  - pose proof (map_result_length _ _ _ E) as Hlen.
    apply map_result_forall2 in E.
    destruct results as [|a results]; [discriminate Hlen|].
    destruct (report_on_nonempty a results) as (rep & Hrep & _).
    unfold bind; rewrite Hrep.
    split; [discriminate | auto].
  - apply map_result_raise in E as (bad & Hin & Hbad).
    unfold bind.
    destruct (analyze_cases f bad) as [[Hb H] | (found & _ & H)];
      [|congruence].
    split; [congruence | now exists bad].
Qed.

(** X16: a run over collected PRs returns early exactly when there are
    none; it raises exactly when some PR has a [null] body, and then a
    [TypeError] with no result for any PR; otherwise it returns one
    analysis per PR, in order, and a report of them. *)
Theorem run_all_or_nothing (f : forge) (ai_prs : list pr_data) :
  match run_ecosystem_mapping f ai_prs with
  | Ok None => ai_prs = []
  | Ok (Some (results, rep)) =>
      ai_prs <> [] /\
      Forall2 (fun pr a => analyze_pr_ai_ecosystem f pr = Ok a)
        ai_prs results /\
      Forall (fun pr => get_or_empty (body pr) <> PyNone) ai_prs /\
      _generate_ecosystem_report results = Ok rep
  | Raise e =>
      e = TypeError /\
      exists bad, In bad ai_prs /\ get_or_empty (body bad) = PyNone
  end.
Proof.
  pose proof (run_outcome f ai_prs) as H.
  destruct (run_ecosystem_mapping f ai_prs) as [[[results rep]|]|e];
    [|exact H|exact H].
  destruct H as (Hne & Hall & Hrep); repeat split; auto.
  clear Hne Hrep; induction Hall as [|pr a prs results Hpr _ IH];
    constructor; [|exact IH].
  destruct (analyze_cases f pr) as [[_ H] | (found & Hs & _)];
    [congruence|].
  destruct (scan_pr_cases f pr) as [[_ H'] | (b & Hb & _)];
    [congruence | rewrite Hb; discriminate].
Qed.

(** ** Collecting the PRs *)

Lemma pr_info_of_query (query : string) (item : search_item)
  (info : pr_data) :
  pr_info_of query item = Some info -> detection_query info = query.
Proof.
  unfold pr_info_of.
  repeat match goal with
         | |- context [match ?x with _ => _ end] =>
             lazymatch x with
             | si_body _ => fail
             | _ => destruct x
             end
         end;
    try discriminate.
  intros H; injection H as <-; reflexivity.
Qed.

Lemma collect_items_forall (P : pr_data -> Prop) (query : string)
  (items : list search_item) (acc : list pr_data) :
  (forall item info, pr_info_of query item = Some info -> P info) ->
  Forall P acc -> Forall P (collect_items query items acc).
Proof.
  intros Hnew; revert acc.
  induction items as [|item rest IH]; intros acc H; simpl; [exact H|].
  destruct (pr_info_of query item) as [info|] eqn:E; [|exact H].
  apply IH, Forall_app; split; [exact H|].
  constructor; [now apply (Hnew item) | constructor].
Qed.

Lemma collect_over_queries (s : search_api) (limit : Z)
  (all qs : list string) (acc : list pr_data) :
  incl qs all ->
  Forall (fun pr => In (detection_query pr) all) acc ->
  Forall (fun pr => In (detection_query pr) all)
    (fold_left (collect_query s limit) qs acc).
Proof.
  revert acc; induction qs as [|q qs IH]; intros acc Hsub Hacc; simpl;
    [exact Hacc|].
  apply IH; [intros x Hx; apply Hsub; now right|].
  unfold collect_query.
  destruct (search_issues s q (Z.min 20 limit)) as [|code json];
    [exact Hacc|].
  destruct (code =? 200); [|exact Hacc].
  destruct json as [items|]; [|exact Hacc].
  apply collect_items_forall; [|exact Hacc].
  intros item info Hinfo.
  rewrite (pr_info_of_query q item info Hinfo).
  apply Hsub; now left.
Qed.

Lemma collected_queries (s : search_api) (limit : Z) :
  Forall (fun pr => In (detection_query pr) search_queries)
    (collected s limit).
Proof.
  apply collect_over_queries; [apply incl_refl | constructor].
Qed.

Section UrlDict.
Context {V : Type}.

Lemma string_dict_mem_existsb (k : string) (d : list (string * V)) :
  dict_mem String.eqb k d = existsb (String.eqb k) (dict_keys d).
Proof.
  induction d as [|[k' v] d IH]; simpl; [reflexivity|].
  rewrite (String.eqb_sym k' k); now destruct (String.eqb k k').
Qed.

Lemma dict_get_of_entry (k : string) (v : V) (d : list (string * V)) :
  NoDup (dict_keys d) -> In (k, v) d -> dict_get String.eqb k d = Some v.
Proof.
  induction d as [|[k' v'] d IH]; simpl; intros Hnd Hin; [tauto|].
  inversion Hnd as [|? ? Hnotin Hnd']; subst.
  destruct Hin as [Heq | Hin].
  - injection Heq as -> ->; now rewrite String.eqb_refl.
  - destruct (String.eqb_spec k' k) as [-> | Hne]; [|now apply IH].
    exfalso; apply Hnotin.
    unfold dict_keys; exact (in_map fst _ _ Hin).
Qed.
End UrlDict.

Lemma unique_by_url_spec (ai_prs : list pr_data)
  (d : list (string * pr_data)) (u : string) :
  NoDup (dict_keys d) ->
  let d' := fold_left (fun d pr => dict_set String.eqb (url pr) pr d)
              ai_prs d in
  NoDup (dict_keys d') /\
  dict_keys d' = first_seen String.eqb (dict_keys d) (map url ai_prs) /\
  dict_get String.eqb u d' =
    fold_left (fun acc pr => if String.eqb (url pr) u then Some pr else acc)
      ai_prs (dict_get String.eqb u d).
Proof.
  cbv zeta; revert d.
  induction ai_prs as [|pr prs IH]; intros d Hnd; simpl.
  - repeat split; auto.
  - destruct (IH (dict_set String.eqb (url pr) pr d)) as (H1 & H2 & H3);
      [now apply (dict_set_nodup String.eqb string_eqb_eq)|].
    split; [exact H1|]; split.
    + rewrite H2, dict_keys_set, string_dict_mem_existsb.
      symmetry; exact (first_seen_app String.eqb _ [url pr] _).
    + rewrite H3; f_equal.
      destruct (String.eqb_spec (url pr) u) as [<- | Hne].
      * apply (dict_get_set_same String.eqb string_eqb_eq).
      * now apply (dict_get_set_other String.eqb string_eqb_eq).
Qed.

Lemma last_with_url_url (u : string) (ai_prs : list pr_data)
  (pr : pr_data) :
  last_with_url u ai_prs = Some pr -> url pr = u /\ In pr ai_prs.
Proof.
  unfold last_with_url.
  assert (H : forall acc,
             fold_left
               (fun acc p => if String.eqb (url p) u then Some p else acc)
               ai_prs acc = Some pr ->
             (url pr = u /\ In pr ai_prs) \/ acc = Some pr).
  { induction ai_prs as [|p prs IH]; intros acc; simpl; [auto|].
    intros E; destruct (IH _ E) as [[Hu Hin] | Hacc]; [left; auto|].
    destruct (String.eqb_spec (url p) u) as [Hu | Hne]; [|now right].
    injection Hacc as <-; left; auto. }
  intros E; destruct (H None E) as [Hok | Hn]; [exact Hok | discriminate].
Qed.

Lemma firstn_nodup {A : Type} (n : nat) (l : list A) :
  NoDup l -> NoDup (firstn n l).
Proof.
  intros H; rewrite <- (firstn_skipn n l) in H.
  now apply NoDup_app_remove_r in H.
Qed.

Lemma firstn_incl {A : Type} (n : nat) (l : list A) (x : A) :
  In x (firstn n l) -> In x l.
Proof.
  intros H; rewrite <- (firstn_skipn n l); apply in_or_app; now left.
Qed.

Lemma unique_values_urls (ai_prs : list pr_data) :
  map url (map snd (unique_by_url ai_prs)) =
  dict_keys (unique_by_url ai_prs).
Proof.
  destruct (unique_by_url_spec ai_prs [] "" (NoDup_nil _)) as (Hnd & _ & _).
  fold (unique_by_url ai_prs) in Hnd.
  rewrite map_map; unfold dict_keys.
  apply map_ext_in; intros [u pr] Hin; simpl.
  pose proof (dict_get_of_entry u pr _ Hnd Hin) as Hg.
  destruct (unique_by_url_spec ai_prs [] u (NoDup_nil _)) as (_ & _ & H3).
  fold (unique_by_url ai_prs) in H3; simpl in H3.
  rewrite Hg in H3; symmetry in H3.
  now apply (last_with_url_url u ai_prs pr).
Qed.

(** X17: the PRs returned by the collection have pairwise different URLs,
    each carries one of the five search queries as its discovery query,
    and for a limit that is not negative there are at most [limit] of
    them. *)
Theorem collection_unique_and_bounded (s : search_api) (limit : Z) :
  NoDup (map url (get_ai_pr_watcher_prs s limit)) /\
  Forall (fun pr => In (detection_query pr) search_queries)
    (get_ai_pr_watcher_prs s limit) /\
  (0 <= limit ->
   Z.of_nat (List.length (get_ai_pr_watcher_prs s limit)) <= limit).
Proof.
  unfold get_ai_pr_watcher_prs, list_upto.
  set (prs := collected s limit).
  set (n := Z.to_nat _).
  split; [|split].
  - rewrite <- firstn_map, unique_values_urls.
    apply firstn_nodup.
    now destruct (unique_by_url_spec prs [] "" (NoDup_nil _)) as (H & _).
  - apply Forall_forall; intros pr Hin.
    apply firstn_incl in Hin.
    apply in_map_iff in Hin as ([u pr'] & Heq & Hin); simpl in Heq; subst pr'.
    destruct (unique_by_url_spec prs [] u (NoDup_nil _)) as (Hnd & _ & H3).
    fold (unique_by_url prs) in Hnd, H3; simpl in H3.
    rewrite (dict_get_of_entry u pr _ Hnd Hin) in H3; symmetry in H3.
    apply (last_with_url_url u prs pr) in H3 as [_ H3].
    pose proof (collected_queries s limit) as Hq.
    rewrite Forall_forall in Hq; now apply Hq.
  - intros Hl.
    pose proof (firstn_le_length n (map snd (unique_by_url prs))) as Hle.
    rewrite length_firstn.
    unfold n, slice_bound.
    destruct (limit <? 0) eqn:E; [apply Z.ltb_lt in E; lia | lia].
Qed.

(** X18: every PR returned is the last record collected with its URL, so
    a PR found by several queries is returned once, with the discovery
    query of the last of them; the URLs come in the order in which they
    were first collected. *)
Theorem later_query_overwrites (s : search_api) (limit : Z) :
  Forall
    (fun pr => last_with_url (url pr) (collected s limit) = Some pr)
    (get_ai_pr_watcher_prs s limit) /\
  map url (get_ai_pr_watcher_prs s limit) =
    list_upto (first_seen String.eqb [] (map url (collected s limit))) limit.
Proof.
  unfold get_ai_pr_watcher_prs.
  set (prs := collected s limit).
  split.
  - apply Forall_forall; intros pr Hin.
    apply firstn_incl in Hin.
    apply in_map_iff in Hin as ([u pr'] & Heq & Hin); simpl in Heq; subst pr'.
    destruct (unique_by_url_spec prs [] u (NoDup_nil _)) as (Hnd & _ & H3).
    fold (unique_by_url prs) in Hnd, H3; simpl in H3.
    rewrite (dict_get_of_entry u pr _ Hnd Hin) in H3; symmetry in H3.
    destruct (last_with_url_url u prs pr H3) as [-> _]; exact H3.
  - assert (Hk : map url (map snd (unique_by_url prs)) =
                 first_seen String.eqb [] (map url prs)).
    { rewrite unique_values_urls.
      now destruct (unique_by_url_spec prs [] "" (NoDup_nil _))
        as (_ & H2 & _). }
    assert (Hlen : List.length (map snd (unique_by_url prs)) =
                   List.length (first_seen String.eqb [] (map url prs)))
      by (rewrite <- Hk; symmetry; apply length_map).
    unfold list_upto.
    now rewrite Hlen, <- firstn_map, Hk.
Qed.

(** ** The repository URL *)

Lemma split_char_nonempty (sep : ascii) (s : string) :
  split_char sep s <> [].
Proof.
  destruct s as [|c s]; simpl; [discriminate|].
  destruct (Ascii.eqb c sep); [discriminate|].
  destruct (split_char sep s); discriminate.
Qed.

Lemma split_char_app (sep : ascii) (a b : string) :
  split_char sep (a ++ String sep b) =
  (split_char sep a ++ split_char sep b)%list.
Proof.
  induction a as [|c a IH]; simpl.
  - now rewrite Ascii.eqb_refl.
  - rewrite IH.
    destruct (Ascii.eqb c sep); [reflexivity|].
    pose proof (split_char_nonempty sep a) as Hne.
    destruct (split_char sep a) as [|w ws]; [now elim Hne | reflexivity].
Qed.

Lemma split_char_none (sep : ascii) (w : string) :
  str_in (String sep "") w = false -> split_char sep w = [w].
Proof.
  induction w as [|c w IH]; [reflexivity|].
  rewrite str_in_unfold; simpl.
  rewrite (Ascii.eqb_sym sep c).
  destruct (Ascii.eqb c sep); simpl; [discriminate|].
  intros H; now rewrite (IH H).
Qed.

Lemma from_end_last_two {A : Type} (l : list A) (x y : A) :
  from_end (l ++ [x; y]) 2 = Some x /\ from_end (l ++ [x; y]) 1 = Some y.
Proof.
  unfold from_end; rewrite length_app; simpl List.length.
  replace (List.length l + 2 <? 2)%nat with false
    by (symmetry; apply Nat.ltb_ge; lia).
  replace (List.length l + 2 <? 1)%nat with false
    by (symmetry; apply Nat.ltb_ge; lia).
  split.
  - rewrite nth_error_app2 by lia.
    now replace (List.length l + 2 - 2 - List.length l)%nat with 0%nat by lia.
  - rewrite nth_error_app2 by lia.
    now replace (List.length l + 2 - 1 - List.length l)%nat with 1%nat by lia.
Qed.

Ltac destruct_item_members :=
  repeat match goal with
         | |- context [match ?x with _ => _ end] =>
             lazymatch x with
             | si_body _ => fail
             | _ => destruct x
             end
         end.

(** X19: the owner and the name of the repository are the last two parts
    of the repository URL cut at its slashes; an item whose repository URL
    has no slash gives no record. *)
Theorem repository_url_parts (query : string) (item : search_item) :
  (forall base owner name info,
      si_repository_url item = Some (base ++ "/" ++ owner ++ "/" ++ name) ->
      str_in "/" owner = false ->
      str_in "/" name = false ->
      pr_info_of query item = Some info ->
      repo_owner info = owner /\ repo_name info = name) /\
  (forall u,
      si_repository_url item = Some u ->
      str_in "/" u = false ->
      pr_info_of query item = None).
Proof.
  split.
  - intros base owner name info Hu Ho Hn.
    unfold pr_info_of; rewrite Hu; cbv zeta.
    change (base ++ "/" ++ owner ++ "/" ++ name)
      with (base ++ String "/" (owner ++ String "/" name)).
    rewrite !split_char_app, (split_char_none "/" owner Ho),
      (split_char_none "/" name Hn).
    change ([owner] ++ [name])%list with [owner; name].
    destruct (from_end_last_two (split_char "/" base) owner name)
      as [-> ->].
    destruct_item_members; try discriminate.
    intros H; injection H as <-; auto.
  - intros u Hu Hno.
    unfold pr_info_of; rewrite Hu; cbv zeta.
    rewrite (split_char_none "/" u Hno).
    change (from_end [u] 2) with (@None string).
    destruct_item_members; reflexivity.
Qed.

(** The sample search: the PR found under the copilot and cursor queries
    comes once, first, with the cursor query; owner and name are read off
    the repository URL. *)
Example sample_collection :
  map (fun pr => (url pr, detection_query pr, repo_owner pr, repo_name pr))
    (get_ai_pr_watcher_prs sample_search 50) =
  [ ("https://github.com/acme/parser/pull/17", "is:pr head:cursor/",
     "acme", "parser");
    ("https://github.com/acme/lexer/pull/4", "is:pr head:codex/",
     "acme", "lexer") ] /\
  List.length (get_ai_pr_watcher_prs sample_search 1) = 1%nat.
Proof. vm_compute; split; reflexivity. Qed.

(** ** Nothing collected *)

Lemma collect_unavailable (s : search_api) (limit : Z)
  (qs : list string) (acc : list pr_data) :
  (forall q n, unavailable (search_issues s q n)) ->
  fold_left (collect_query s limit) qs acc = acc.
Proof.
  intros Hs; revert acc; induction qs as [|q qs IH]; intros acc; simpl;
    [reflexivity|].
  rewrite IH; unfold collect_query.
  specialize (Hs q (Z.min 20 limit)).
  destruct (search_issues s q (Z.min 20 limit)) as [|code json];
    [reflexivity|].
  destruct Hs as [H | ->]; [apply Z.eqb_neq in H; now rewrite H|].
  now destruct (code =? 200).
Qed.

(** X20: when every search request is unavailable, nothing is collected,
    the run returns early without a value, and [main] raises a
    [TypeError] on the length of that missing value. *)
Theorem nothing_collected_breaks_main (s : search_api) (f : forge)
  (limit : Z) :
  (forall q n, unavailable (search_issues s q n)) ->
  get_ai_pr_watcher_prs s limit = [] /\
  run_ecosystem_mapping_from s f limit = Ok None /\
  main s f = Raise TypeError.
Proof.
  intros Hs.
  assert (H : forall l, get_ai_pr_watcher_prs s l = []).
  { intros l; unfold get_ai_pr_watcher_prs, collected.
    rewrite (collect_unavailable s l search_queries [] Hs).
    unfold list_upto; simpl; now destruct (Z.to_nat _). }
  split; [apply H|].
  unfold main, run_ecosystem_mapping_from; now rewrite !H.
Qed.

Lemma nothing_collected_breaks_main_witness :
  get_ai_pr_watcher_prs dead_search 20 = [] /\
  run_ecosystem_mapping_from dead_search offline 20 = Ok None /\
  main dead_search offline = Raise TypeError.
Proof.
  apply (nothing_collected_breaks_main dead_search offline 20).
  intros q n; exact I.
Defined.

(** X21: [main] returns the number of PRs collected, which is then at
    least one; it raises, always a [TypeError], exactly when nothing was
    collected or some collected PR has a [null] body. *)
Theorem main_outcome (s : search_api) (f : forge) :
  match main s f with
  | Ok n =>
      n = Z.of_nat (List.length (get_ai_pr_watcher_prs s 20)) /\
      1 <= n /\
      Forall (fun pr => get_or_empty (body pr) <> PyNone)
        (get_ai_pr_watcher_prs s 20)
  | Raise e =>
      e = TypeError /\
      (get_ai_pr_watcher_prs s 20 = [] \/
       exists bad,
         In bad (get_ai_pr_watcher_prs s 20) /\
         get_or_empty (body bad) = PyNone)
  end.
Proof.
  unfold main, run_ecosystem_mapping_from.
  pose proof (run_outcome f (get_ai_pr_watcher_prs s 20)) as H.
  destruct (run_ecosystem_mapping f (get_ai_pr_watcher_prs s 20))
    as [[[results rep]|]|e]; simpl.
  - destruct H as (Hne & Hall & _).
    pose proof (Forall2_length Hall) as Hlen.
    split; [now rewrite Hlen|]; split.
    + destruct (get_ai_pr_watcher_prs s 20); [now elim Hne|].
      simpl in Hlen; lia.
    + clear Hne Hlen; induction Hall as [|pr a prs rs Hpr _ IH];
        constructor; [|exact IH].
      destruct (analyze_cases f pr) as [[_ H] | (found & Hs & _)];
        [congruence|].
      destruct (scan_pr_cases f pr) as [[_ H'] | (b & Hb & _)];
        [congruence | rewrite Hb; discriminate].
  - split; [reflexivity | now left].
  - destruct H as [-> H]; split; [reflexivity | now right].
Qed.

(** ** Sorting the frequency tables *)

Lemma insert_desc_perm {K : Type} (x : K * Z) (l : list (K * Z)) :
  Permutation (insert_desc x l) (x :: l).
Proof.
  induction l as [|y r IH]; simpl; [reflexivity|].
  destruct (snd x <? snd y); [|reflexivity].
  rewrite IH; apply perm_swap.
Qed.

Lemma insert_desc_descending {K : Type} (x : K * Z) (l : list (K * Z)) :
  descending l -> descending (insert_desc x l).
Proof.
  induction l as [|y r IH]; simpl; [intros _; split; [constructor | exact I]|].
  intros [Hy Hr].
  destruct (snd x <? snd y) eqn:E.
  - apply Z.ltb_lt in E; simpl; split; [|now apply IH].
    rewrite (insert_desc_perm x r); constructor; [lia | exact Hy].
  - apply Z.ltb_ge in E; simpl; repeat split; auto.
    constructor; [exact E|].
    eapply Forall_impl; [|exact Hy]; simpl; intros; lia.
Qed.

Lemma insert_desc_stable {K : Type} (c : Z) (x : K * Z) (l : list (K * Z)) :
  filter (fun e => snd e =? c) (insert_desc x l) =
  filter (fun e => snd e =? c) (x :: l).
Proof.
  induction l as [|y r IH]; [reflexivity|].
  simpl insert_desc.
  destruct (snd x <? snd y) eqn:E; [|reflexivity].
  apply Z.ltb_lt in E.
  simpl filter at 1; rewrite IH; simpl.
  destruct (snd y =? c) eqn:Ey, (snd x =? c) eqn:Ex; try reflexivity.
  apply Z.eqb_eq in Ey, Ex; lia.
Qed.

(** X22: sorting a frequency table keeps its entries, puts the counts in
    descending order, and leaves entries of equal count in the order in
    which the dictionary held them. *)
Theorem frequency_sort_stable {K : Type} (items : list (K * Z)) :
  Permutation (sorted_by_count_desc items) items /\
  descending (sorted_by_count_desc items) /\
  forall c,
    filter (fun e => snd e =? c) (sorted_by_count_desc items) =
    filter (fun e => snd e =? c) items.
Proof.
  unfold sorted_by_count_desc.
  induction items as [|x r (IHp & IHd & IHs)]; simpl.
  - repeat split; auto.
  - split; [|split].
    + rewrite insert_desc_perm; now constructor.
    + now apply insert_desc_descending.
    + intros c; rewrite insert_desc_stable; simpl; now rewrite IHs.
Qed.

(** ** The tables of the report *)

Lemma sorted_desc_perm {K : Type} (items : list (K * Z)) :
  Permutation (sorted_by_count_desc items) items.
Proof.
  unfold sorted_by_count_desc.
  induction items as [|x r IH]; simpl; [reflexivity|].
  rewrite insert_desc_perm; now constructor.
Qed.

Lemma sorted_desc_descending {K : Type} (items : list (K * Z)) :
  descending (sorted_by_count_desc items).
Proof.
  unfold sorted_by_count_desc.
  induction items as [|x r IH]; simpl; [exact I|].
  now apply insert_desc_descending.
Qed.

Lemma rows_ok (total : Z) (items : list (string * Z)) :
  total <> 0 ->
  map_result (percent_row total) items = Ok (map (row_of total) items).
Proof. apply percent_rows_ok. Qed.

Lemma report_value (r : analysis) (rest : list analysis) :
  let results := r :: rest in
  let total := Z.of_nat (List.length results) in
  let multi := Z.of_nat (List.length (filter is_multi_ai results)) in
  _generate_ecosystem_report results =
  Ok {| rep_total_prs := total;
        rep_multi_ai_prs := multi;
        rep_multi_ai_percent := (inject_Z multi / inject_Z total * 100)%Q;
        rep_creators :=
          map (row_of total) (sorted_by_count_desc (creators_of results));
        rep_tool_frequency :=
          map (row_of total)
            (sorted_by_count_desc (tool_frequency_of results));
        rep_multi_ai_shown :=
          if 0 <? multi then firstn 5 (filter is_multi_ai results) else [];
        rep_top_multi_creator :=
          max_by_count (creator_multi_ai_of results);
        rep_top_combo := top_combination results;
        rep_average_tools :=
          (inject_Z (sum_tool_counts results) / inject_Z total)%Q |}.
Proof.
  cbv zeta.
  set (results := r :: rest).
  unfold _generate_ecosystem_report.
  fold (creators_of results) (tool_frequency_of results)
    (creator_multi_ai_of results).
  set (total := Z.of_nat (List.length results)).
  assert (Hne : total <> 0) by (unfold total, results; simpl; lia).
  assert (Hz : (total =? 0) = false) by now apply Z.eqb_neq.
  unfold truediv; rewrite Hz.
  rewrite !rows_ok by exact Hne.
  reflexivity.
Qed.

Section TotalCount.
Context {K : Type} (keqb : K -> K -> bool).
Hypothesis keqb_eq : forall a b, keqb a b = true <-> a = b.

Lemma dict_set_total (k : K) (v : Z) (d : list (K * Z)) :
  total_count (dict_set keqb k v d) =
  total_count d - dict_get_default keqb k 0 d + v.
Proof.
  unfold dict_get_default.
  induction d as [|[k' v'] d IH]; simpl; [lia|].
  destruct (keqb k' k); simpl; [lia|].
  rewrite IH; lia.
Qed.

Lemma counted_total (ks : list K) (d : list (K * Z)) :
  total_count (fold_left (fun d k => count_up keqb k d) ks d) =
  total_count d + Z.of_nat (List.length ks).
Proof.
  revert d; induction ks as [|k ks IH]; intros d; simpl List.length;
    simpl fold_left; [lia|].
  rewrite IH; unfold count_up; rewrite dict_set_total; lia.
Qed.

Lemma counted_nodup (ks : list K) (d : list (K * Z)) :
  NoDup (dict_keys d) ->
  NoDup (dict_keys (fold_left (fun d k => count_up keqb k d) ks d)).
Proof.
  revert d; induction ks as [|k ks IH]; intros d H; simpl; [exact H|].
  apply IH; unfold count_up.
  now apply (dict_set_nodup keqb keqb_eq).
Qed.

Lemma first_seen_in (seen ks : list K) (k : K) :
  In k (first_seen keqb seen ks) -> In k seen \/ In k ks.
Proof.
  unfold first_seen.
  revert seen; induction ks as [|x ks IH]; intros seen; simpl; [auto|].
  intros H; destruct (IH _ H) as [Hs | Hr]; [|auto].
  destruct (existsb (keqb x) seen); [auto|].
  apply in_app_or in Hs as [Hs | [-> | []]]; auto.
Qed.

Lemma counted_entry (ks : list K) (k : K) (c : Z) :
  In (k, c) (fold_left (fun d k => count_up keqb k d) ks []) ->
  c = occurrences keqb k ks /\ 1 <= c.
Proof.
  intros Hin.
  pose proof (counted_nodup ks [] (NoDup_nil _)) as Hnd.
  pose proof (counted_get keqb keqb_eq k ks []) as Hget.
  rewrite (dict_get_default_nodup keqb keqb_eq k 0 _ Hnd c Hin) in Hget.
  simpl in Hget; split; [lia|].
  assert (Hk : In k (dict_keys
                       (fold_left (fun d k => count_up keqb k d) ks [])))
    by (unfold dict_keys; exact (in_map fst _ _ Hin)).
  rewrite (counted_keys keqb keqb_eq) in Hk.
  assert (Hmem : In k ks)
    by (destruct (first_seen_in [] ks k Hk) as [[] | H]; exact H).
  rewrite Hget; unfold occurrences.
  assert (Hf : In k (filter (keqb k) ks))
    by (apply filter_In; split; [exact Hmem | now apply keqb_eq]).
  destruct (filter (keqb k) ks); [now elim Hf | simpl; lia].
Qed.
End TotalCount.

Lemma total_count_perm {K : Type} (l l' : list (K * Z)) :
  Permutation l l' -> total_count l = total_count l'.
Proof.
  unfold total_count.
  induction 1 as [|x l l' _ IH|x y l|l l' l'' _ IH1 _ IH2]; simpl; lia.
Qed.

Lemma creators_counted (results : list analysis) :
  creators_of results =
  fold_left (fun d k => count_up String.eqb k d)
    (map creator_of results) [].
Proof.
  unfold creators_of.
  generalize (@nil (string * Z)) as d.
  induction results as [|r rest IH]; intros d; simpl; [reflexivity|].
  apply IH.
Qed.

(** X23: in the report over at least one analysis, the creator table has
    one row per creator; the count of a row is the number of analyses
    with that creator, at least 1; the counts add up to the number of
    analyses; the rows come by descending count, and the percentage of a
    row is its count over the number of analyses times 100. *)
Theorem creator_table (r : analysis) (rest : list analysis) :
  match _generate_ecosystem_report (r :: rest) with
  | Ok rep =>
      let rows :=
        map (fun row => (fst (fst row), snd (fst row))) (rep_creators rep) in
      NoDup (map fst rows) /\
      total_count rows = rep_total_prs rep /\
      descending rows /\
      Forall
        (fun row =>
           snd (fst row) =
             occurrences String.eqb (fst (fst row))
               (map creator_of (r :: rest)) /\
           1 <= snd (fst row) /\
           snd row =
             (inject_Z (snd (fst row)) / inject_Z (rep_total_prs rep)
              * 100)%Q)
        (rep_creators rep)
  | Raise _ => False
  end.
Proof.
  rewrite report_value; cbv zeta; cbn [rep_creators rep_total_prs].
  set (results := r :: rest).
  set (total := Z.of_nat (List.length results)).
  assert (Hrows :
            map (fun row : string * Z * Q => (fst (fst row), snd (fst row)))
              (map (row_of total)
                 (sorted_by_count_desc (creators_of results))) =
            sorted_by_count_desc (creators_of results)).
  { rewrite map_map; simpl.
    generalize (sorted_by_count_desc (creators_of results)) as l.
    induction l as [|[k v] l IH]; simpl; [reflexivity | now f_equal]. }
  rewrite Hrows.
  pose proof (sorted_desc_perm (creators_of results)) as Hperm.
  split; [|split; [|split]].
  - eapply Permutation_NoDup;
      [symmetry; apply Permutation_map; exact Hperm|].
    rewrite creators_counted.
    apply (counted_nodup String.eqb string_eqb_eq); constructor.
  - rewrite (total_count_perm _ _ Hperm), creators_counted.
    rewrite counted_total, length_map; reflexivity.
  - apply sorted_desc_descending.
  - apply Forall_forall; intros [[k c] q] Hin; simpl.
    apply in_map_iff in Hin as ([k' c'] & Heq & Hin).
    unfold row_of in Heq; simpl in Heq; injection Heq as -> -> <-.
    apply (Permutation_in _ Hperm) in Hin.
    rewrite creators_counted in Hin.
    destruct (counted_entry String.eqb string_eqb_eq _ _ _ Hin) as [Hc H1].
    repeat split; auto.
Qed.








(** ** The multi-AI part of the report *)

Lemma max_by_count_none {K : Type} (items : list (K * Z)) :
  max_by_count items = None <-> items = [].
Proof. destruct items; simpl; split; (reflexivity || discriminate). Qed.

Lemma creator_multi_ai_counted (results : list analysis) :
  creator_multi_ai_of results =
  fold_left (fun d k => count_up String.eqb k d)
    (map creator_of (filter is_multi_ai results)) [].
Proof.
  unfold creator_multi_ai_of.
  generalize (@nil (string * Z)) as d.
  induction results as [|r rest IH]; intros d; simpl; [reflexivity|].
  destruct (is_multi_ai r); simpl; apply IH.
Qed.

Lemma counted_nil_iff {K : Type} (keqb : K -> K -> bool) (ks : list K) :
  fold_left (fun d k => count_up keqb k d) ks [] = [] <-> ks = [].
Proof.
  split; [|intros ->; reflexivity].
  intros H.
  pose proof (counted_total keqb ks []) as Ht.
  rewrite H in Ht; simpl in Ht.
  destruct ks; [reflexivity | simpl in Ht; lia].
Qed.

(** X25: in the report over at least one analysis, the number of multi-AI
    PRs is between 0 and the number of analyses; the PRs listed are the
    first five multi-AI analyses in input order; a most common
    combination and a creator with most multi-AI PRs are reported exactly
    when there is some multi-AI analysis. *)
Theorem multi_ai_section (r : analysis) (rest : list analysis) :
  match _generate_ecosystem_report (r :: rest) with
  | Ok rep =>
      0 <= rep_multi_ai_prs rep <= rep_total_prs rep /\
      rep_multi_ai_shown rep = firstn 5 (filter is_multi_ai (r :: rest)) /\
      (List.length (rep_multi_ai_shown rep) <= 5)%nat /\
      Forall (fun a => is_multi_ai a = true) (rep_multi_ai_shown rep) /\
      (rep_top_combo rep = None <-> rep_multi_ai_prs rep = 0) /\
      (rep_top_multi_creator rep = None <-> rep_multi_ai_prs rep = 0)
  | Raise _ => False
  end.
Proof.
  rewrite report_value; cbv zeta;
    cbn [rep_multi_ai_prs rep_total_prs rep_multi_ai_shown rep_top_combo
         rep_top_multi_creator].
  set (results := r :: rest).
  set (multi := filter is_multi_ai results).
  assert (Hshown : (if 0 <? Z.of_nat (List.length multi)
                    then firstn 5 multi else []) = firstn 5 multi).
  { destruct multi; reflexivity. }
  rewrite Hshown.
  assert (Hzero : Z.of_nat (List.length multi) = 0 <-> multi = []).
  { destruct multi; simpl; split; try reflexivity; try discriminate; lia. }
  split; [|split; [|split; [|split; [|split]]]].
  - pose proof (filter_length_le is_multi_ai results); fold multi in H; lia.
  - reflexivity.
  - rewrite length_firstn; lia.
  - apply Forall_forall; intros a Ha.
    apply firstn_incl in Ha; unfold multi in Ha.
    now apply filter_In in Ha.
  - unfold top_combination.
    rewrite max_by_count_none, combinations_counted, counted_nil_iff, Hzero.
    unfold combination_keys; fold multi.
    destruct multi; simpl; split; try reflexivity; discriminate.
  - rewrite max_by_count_none, creator_multi_ai_counted, counted_nil_iff,
      Hzero.
    fold multi; destruct multi; simpl; split; try reflexivity; discriminate.
Qed.

(** X26: the creator reported with most multi-AI PRs comes with the number
    of multi-AI analyses that have it as creator, at least 1, and no
    creator has more; none is reported exactly when no analysis is
    multi-AI. *)
Theorem top_multi_creator_is_max (r : analysis) (rest : list analysis) :
  let creators := map creator_of (filter is_multi_ai (r :: rest)) in
  match _generate_ecosystem_report (r :: rest) with
  | Ok rep =>
      match rep_top_multi_creator rep with
      | None => creators = []
      | Some top =>
          snd top = occurrences String.eqb (fst top) creators /\
          1 <= snd top /\
          forall other, occurrences String.eqb other creators <= snd top
      end
  | Raise _ => False
  end.
Proof.
  rewrite report_value; cbv zeta; cbn [rep_top_multi_creator].
  rewrite creator_multi_ai_counted.
  set (ks := map creator_of (filter is_multi_ai (r :: rest))).
  set (d := fold_left (fun d k => count_up String.eqb k d) ks []).
  pose proof (max_by_count_first d) as H.
  destruct (max_by_count d) as [[k c]|].
  - destruct H as (before & after & Hd & Hb & Ha).
    assert (Hin : In (k, c) d) by (rewrite Hd; apply in_or_app; right; now left).
    destruct (counted_entry String.eqb string_eqb_eq ks k c Hin) as [Hc H1].
    simpl; repeat split; auto.
    intros other.
    pose proof (counted_get String.eqb string_eqb_eq other ks []) as Hget.
    fold d in Hget; simpl in Hget; rewrite <- Hget.
    unfold dict_get_default.
    destruct (dict_get String.eqb other d) as [c'|] eqn:E; [|lia].
    apply (dict_get_in String.eqb string_eqb_eq) in E.
    rewrite Hd in E; apply in_app_or in E as [E | [E | E]].
    + rewrite Forall_forall in Hb; specialize (Hb _ E); simpl in Hb; lia.
    + injection E as _ <-; lia.
    + rewrite Forall_forall in Ha; exact (Ha _ E).
  - now apply (counted_nil_iff String.eqb ks).
Qed.

(** * The context snippet on code points *)

(** ** Occurrences *)

Lemma cp_startswith_iff (p s : CodePoints.text) :
  CodePoints.startswith p s = true <-> exists b, s = (p ++ b)%list.
Proof.
  revert s; induction p as [|c p IH]; intros s; simpl.
  - split; [intros _; now exists s | reflexivity].
  - destruct s as [|d s]; [split; [discriminate | intros [b H]; discriminate]|].
    rewrite andb_true_iff, N.eqb_eq, IH; split.
    + intros [-> [b ->]]; now exists b.
    + intros [b H]; injection H as -> ->; split; [reflexivity | now exists b].
Qed.

Lemma cp_startswith_firstn (p s : CodePoints.text) :
  CodePoints.startswith p s = true <->
  (List.length p <= List.length s)%nat /\ firstn (List.length p) s = p.
Proof.
  rewrite cp_startswith_iff; split.
  - intros [b ->]; rewrite length_app; split; [lia|].
    rewrite firstn_app, Nat.sub_diag, firstn_all; simpl.
    now rewrite app_nil_r.
  - intros [Hl H]; exists (skipn (List.length p) s).
    pose proof (firstn_skipn (List.length p) s) as E.
    rewrite H in E; now symmetry.
Qed.

Lemma cp_str_in_unfold (p s : CodePoints.text) :
  CodePoints.str_in p s =
  if CodePoints.startswith p s then true
  else match s with
       | [] => false
       | _ :: s' => CodePoints.str_in p s'
       end.
Proof. destruct s; reflexivity. Qed.

Lemma cp_str_in_iff (p s : CodePoints.text) :
  CodePoints.str_in p s = true <-> exists a b, s = (a ++ p ++ b)%list.
Proof.
  split.
  - induction s as [|c s IH]; rewrite cp_str_in_unfold.
    + destruct (CodePoints.startswith p []) eqn:E; [|discriminate].
      intros _; apply cp_startswith_iff in E as [b ->]; now exists [], b.
    + destruct (CodePoints.startswith p (c :: s)) eqn:E.
      * intros _; apply cp_startswith_iff in E as [b ->]; now exists [], b.
      * intros H; destruct (IH H) as (a & b & ->).
        now exists (c :: a), b.
  - intros (a & b & ->).
    induction a as [|c a IH]; rewrite cp_str_in_unfold.
    + simpl.
      now rewrite (proj2 (cp_startswith_iff p (p ++ b)%list))
        by now exists b.
    + simpl; rewrite IH.
      now destruct (CodePoints.startswith p (c :: (a ++ p ++ b)%list)).
Qed.

Lemma cp_len_nonneg (s : CodePoints.text) : 0 <= CodePoints.len s.
Proof. unfold CodePoints.len; lia. Qed.

(** [find] gives [-1] when the phrase starts nowhere, and otherwise the
    least offset at which it starts. *)
Lemma cp_find_from_spec (p s : CodePoints.text) (i : Z) :
  (CodePoints.find_from p s i = -1 /\
   CodePoints.str_in p s = false /\
   forall j : nat, CodePoints.startswith p (skipn j s) = false) \/
  (exists k : nat,
      CodePoints.find_from p s i = i + Z.of_nat k /\
      CodePoints.str_in p s = true /\
      CodePoints.startswith p (skipn k s) = true /\
      (k + List.length p <= List.length s)%nat /\
      forall j : nat,
        (j < k)%nat -> CodePoints.startswith p (skipn j s) = false).
Proof.
  revert i; induction s as [|c s IH]; intros i; simpl.
  - destruct (CodePoints.startswith p []) eqn:E.
    + right; exists 0%nat; repeat split; auto.
      * lia.
      * apply cp_startswith_firstn in E as [E _]; simpl in *; lia.
      * intros j Hj; lia.
    + left; repeat split; auto.
      intros j; now rewrite skipn_nil.
  - destruct (CodePoints.startswith p (c :: s)) eqn:E.
    + right; exists 0%nat; repeat split; auto.
      * lia.
      * apply cp_startswith_firstn in E as [E _]; simpl in *; lia.
      * intros j Hj; lia.
    + destruct (IH (i + 1))
        as [(Hf & Hn & Hno) | [k (Hf & Hin & Hs & Hl & Hmin)]].
      * left; repeat split; auto.
        intros [|j]; simpl; [exact E | apply Hno].
      * right; exists (S k); repeat split; auto.
        -- rewrite Hf; lia.
        -- simpl; lia.
        -- intros [|j] Hj; simpl; [exact E | apply Hmin; lia].
Qed.

(** ** Slices *)

Lemma cp_slice_in_range (s : CodePoints.text) (a b : Z) :
  0 <= a <= b -> b <= CodePoints.len s ->
  CodePoints.slice s a b =
  firstn (Z.to_nat (b - a)) (skipn (Z.to_nat a) s).
Proof.
  intros Ha Hb; unfold CodePoints.slice.
  now rewrite !slice_bound_id by lia.
Qed.

Lemma cp_slice_len_le (s : CodePoints.text) (a b : Z) :
  0 <= a -> 0 <= b ->
  CodePoints.len (CodePoints.slice s a b) <= Z.max 0 (b - a).
Proof.
  intros Ha Hb; unfold CodePoints.slice, slice_bound.
  destruct (a <? 0) eqn:Ea; [apply Z.ltb_lt in Ea; lia|].
  destruct (b <? 0) eqn:Eb; [apply Z.ltb_lt in Eb; lia|].
  unfold CodePoints.len; rewrite length_firstn.
  pose proof (cp_len_nonneg s); unfold CodePoints.len in *; lia.
Qed.

Lemma cp_slice_len_exact (s : CodePoints.text) (a b : Z) :
  0 <= a <= b -> b <= CodePoints.len s ->
  CodePoints.len (CodePoints.slice s a b) = b - a.
Proof.
  intros Ha Hb; rewrite cp_slice_in_range by lia.
  unfold CodePoints.len in *; rewrite length_firstn, length_skipn; lia.
Qed.

(** The phrase starts at offset [j] exactly when the slice of its length
    taken at [j] is the phrase. *)
Lemma cp_startswith_slice (p s : CodePoints.text) (j : nat) :
  CodePoints.startswith p (skipn j s) = true <->
  CodePoints.slice s (Z.of_nat j) (Z.of_nat j + CodePoints.len p) = p.
Proof.
  rewrite cp_startswith_firstn, length_skipn.
  unfold CodePoints.slice, slice_bound, CodePoints.len.
  replace (Z.of_nat j <? 0) with false by (symmetry; apply Z.ltb_ge; lia).
  replace (Z.of_nat j + Z.of_nat (List.length p) <? 0) with false
    by (symmetry; apply Z.ltb_ge; lia).
  destruct (Nat.le_gt_cases (j + List.length p) (List.length s)) as [H | H].
  - rewrite !Z.min_l by lia.
    replace (Z.to_nat (Z.of_nat j + Z.of_nat (List.length p) - Z.of_nat j))
      with (List.length p) by lia.
    rewrite Nat2Z.id; split; [intros [_ E]; exact E | intros E; split; [lia|exact E]].
  - split.
    + intros [Hl _].
      destruct p as [|c p]; simpl in *; [|lia].
      now rewrite Z.add_0_r, Z.sub_diag.
    + intros E.
      assert (Hlen : List.length
                       (firstn
                          (Z.to_nat
                             (Z.min (Z.of_nat j + Z.of_nat (List.length p))
                                (Z.of_nat (List.length s)) -
                              Z.min (Z.of_nat j) (Z.of_nat (List.length s))))
                          (skipn
                             (Z.to_nat
                                (Z.min (Z.of_nat j)
                                   (Z.of_nat (List.length s)))) s)) =
                     List.length p) by now rewrite E.
      rewrite length_firstn, length_skipn in Hlen.
      assert (Hp : List.length p = 0%nat) by lia.
      destruct p; [|discriminate Hp].
      simpl; split; [lia | reflexivity].
Qed.

Lemma cp_window_holds_match (s p : CodePoints.text) (k : nat)
  (start stop : Z) :
  CodePoints.startswith p (skipn k s) = true ->
  0 <= start <= Z.of_nat k ->
  Z.of_nat k + CodePoints.len p <= stop <= CodePoints.len s ->
  CodePoints.slice (CodePoints.slice s start stop)
    (Z.of_nat k - start) (Z.of_nat k - start + CodePoints.len p) = p.
Proof.
  intros Hs H1 H2.
  pose proof (cp_len_nonneg p) as Hp.
  rewrite (cp_slice_in_range (CodePoints.slice s start stop))
    by (rewrite ?cp_slice_len_exact; lia).
  rewrite cp_slice_in_range by lia.
  rewrite skipn_firstn_comm, firstn_firstn, skipn_skipn.
  apply cp_startswith_firstn in Hs as [_ Hs].
  replace (Z.to_nat (Z.of_nat k - start) + Z.to_nat start)%nat with k by lia.
  replace (Nat.min _ _) with (List.length p)
    by (unfold CodePoints.len in *; lia).
  exact Hs.
Qed.

(** ** Trimming *)

Lemma cp_lstrip_length (s : CodePoints.text) :
  (List.length (CodePoints.lstrip s) <= List.length s)%nat.
Proof.
  induction s as [|c s IH]; simpl; [lia|].
  destruct (CodePoints.is_space c); simpl; lia.
Qed.

Lemma cp_rstrip_length (s : CodePoints.text) :
  (List.length (CodePoints.rstrip s) <= List.length s)%nat.
Proof.
  induction s as [|c s IH]; simpl; [lia|].
  destruct (CodePoints.rstrip s) as [|d r].
  - destruct (CodePoints.is_space c); simpl; lia.
  - simpl in *; lia.
Qed.

Lemma cp_strip_len (s : CodePoints.text) :
  CodePoints.len (CodePoints.strip s) <= CodePoints.len s.
Proof.
  unfold CodePoints.strip, CodePoints.len.
  pose proof (cp_rstrip_length (CodePoints.lstrip s)).
  pose proof (cp_lstrip_length s); lia.
Qed.

Lemma cp_lstrip_head (s : CodePoints.text) (c : N) (t : CodePoints.text) :
  CodePoints.lstrip s = c :: t -> CodePoints.is_space c = false.
Proof.
  induction s as [|d s IH]; simpl; [discriminate|].
  destruct (CodePoints.is_space d) eqn:E; [exact IH|].
  intros H; injection H as <- _; exact E.
Qed.

Lemma cp_rstrip_head (c : N) (t : CodePoints.text) :
  CodePoints.is_space c = false ->
  exists r, CodePoints.rstrip (c :: t) = c :: r.
Proof.
  intros H; simpl; rewrite H.
  destruct (CodePoints.rstrip t) as [|d r]; eauto.
Qed.

Lemma cp_rstrip_last (s : CodePoints.text) (c : N) (r : CodePoints.text) :
  CodePoints.rstrip s = c :: r ->
  CodePoints.is_space (CodePoints.last_from c r) = false.
Proof.
  revert c r; induction s as [|d s IH]; intros c r; simpl; [discriminate|].
  destruct (CodePoints.rstrip s) as [|e r'] eqn:E.
  - destruct (CodePoints.is_space d) eqn:Ed; [discriminate|].
    intros H; injection H as <- <-; exact Ed.
  - intros H; injection H as <- <-; simpl.
    now apply IH.
Qed.

Lemma cp_strip_clean (s : CodePoints.text) :
  CodePoints.strip s = [] \/
  CodePoints.outer_clean (CodePoints.strip s) = true.
Proof.
  unfold CodePoints.strip.
  destruct (CodePoints.lstrip s) as [|c t] eqn:E; [now left|right].
  pose proof (cp_lstrip_head s c t E) as Hc.
  destruct (cp_rstrip_head c t Hc) as [r Hr].
  rewrite Hr; simpl; rewrite Hc.
  now rewrite (cp_rstrip_last _ _ _ Hr).
Qed.

Lemma cp_str_in_nil (p : CodePoints.text) :
  CodePoints.str_in p [] = true -> p = [].
Proof.
  rewrite cp_str_in_iff; intros (a & b & H).
  destruct a; [|discriminate]; destruct p; [reflexivity | discriminate].
Qed.

Lemma cp_lstrip_keeps (c : N) (p' w : CodePoints.text) :
  CodePoints.is_space c = false ->
  CodePoints.str_in (c :: p') w = true ->
  CodePoints.str_in (c :: p') (CodePoints.lstrip w) = true.
Proof.
  intros Hc; induction w as [|d w IH]; simpl CodePoints.lstrip; [auto|].
  destruct (CodePoints.is_space d) eqn:Ed; [|auto].
  rewrite cp_str_in_unfold.
  destruct (CodePoints.startswith (c :: p') (d :: w)) eqn:E; [|exact IH].
  simpl in E; apply andb_prop in E as [E _].
  apply N.eqb_eq in E; congruence.
Qed.

Lemma cp_startswith_rstrip (p' : CodePoints.text) (c : N)
  (w : CodePoints.text) :
  CodePoints.is_space (CodePoints.last_from c p') = false ->
  CodePoints.startswith (c :: p') w = true ->
  CodePoints.startswith (c :: p') (CodePoints.rstrip w) = true.
Proof.
  revert c w; induction p' as [|e p'' IH]; intros c [|d w] Hl; simpl;
    try discriminate.
  - intros H; apply andb_prop in H as [H _].
    apply N.eqb_eq in H; subst d.
    simpl in Hl; rewrite Hl.
    destruct (CodePoints.rstrip w); simpl; now rewrite N.eqb_refl.
  - intros H; apply andb_prop in H as [Hcd H].
    apply N.eqb_eq in Hcd; subst d.
    specialize (IH e w Hl H).
    destruct (CodePoints.rstrip w) as [|x r]; [discriminate IH|].
    simpl; rewrite N.eqb_refl; exact IH.
Qed.

Lemma cp_rstrip_keeps (c : N) (p' w : CodePoints.text) :
  CodePoints.is_space (CodePoints.last_from c p') = false ->
  CodePoints.str_in (c :: p') w = true ->
  CodePoints.str_in (c :: p') (CodePoints.rstrip w) = true.
Proof.
  intros Hl; induction w as [|d w IH]; [auto|].
  rewrite cp_str_in_unfold.
  destruct (CodePoints.startswith (c :: p') (d :: w)) eqn:E.
  - intros _; apply (cp_startswith_rstrip p' c _ Hl) in E.
    rewrite cp_str_in_unfold; now rewrite E.
  - intros H; specialize (IH H).
    simpl CodePoints.rstrip.
    destruct (CodePoints.rstrip w) as [|x r];
      [apply cp_str_in_nil in IH; discriminate|].
    rewrite cp_str_in_unfold, IH.
    now destruct (CodePoints.startswith (c :: p') (d :: x :: r)).
Qed.

Lemma cp_strip_keeps (p w : CodePoints.text) :
  CodePoints.outer_clean p = true ->
  CodePoints.str_in p w = true ->
  CodePoints.str_in p (CodePoints.strip w) = true.
Proof.
  destruct p as [|c p']; [discriminate|]; simpl.
  intros H; apply andb_prop in H as [Hc Hl].
  apply negb_true_iff in Hc, Hl.
  intros Hin; unfold CodePoints.strip.
  now apply cp_rstrip_keeps, cp_lstrip_keeps.
Qed.

(** ** The snippet *)

(** The two branches of [_extract_context], by the value of [find]. *)
Lemma cp_extract_context_cases (s p : CodePoints.text) :
  (CodePoints.find s p = -1 /\
   CodePoints.str_in p s = false /\
   (forall j : nat, CodePoints.startswith p (skipn j s) = false) /\
   CodePoints._extract_context s p =
     CodePoints.strip (CodePoints.slice s 0 80)) \/
  (exists k : nat,
      CodePoints.find s p = Z.of_nat k /\
      CodePoints.str_in p s = true /\
      CodePoints.startswith p (skipn k s) = true /\
      (k + List.length p <= List.length s)%nat /\
      (forall j : nat,
          (j < k)%nat -> CodePoints.startswith p (skipn j s) = false) /\
      CodePoints._extract_context s p =
        CodePoints.strip
          (CodePoints.slice s (Z.max 0 (Z.of_nat k - 40))
             (Z.min (CodePoints.len s)
                (Z.of_nat k + CodePoints.len p + 40)))).
Proof.
  unfold CodePoints._extract_context, CodePoints.extract_context_with,
    CodePoints.find.
  change (80 / 2) with 40.
  destruct (cp_find_from_spec p s 0)
    as [(Hf & Hn & Hno) | [k (Hf & Hin & Hs & Hl & Hmin)]].
  - left; rewrite Hf; auto.
  - right; exists k; rewrite Hf.
    assert (Hne : (0 + Z.of_nat k =? -1) = false) by (apply Z.eqb_neq; lia).
    rewrite Hne, !Z.add_0_l; repeat split; auto.
Qed.

Lemma cp_slice_part (s : CodePoints.text) (i j : Z) :
  exists a b, s = (a ++ CodePoints.slice s i j ++ b)%list.
Proof.
  unfold CodePoints.slice.
  set (m := Z.to_nat (slice_bound (CodePoints.len s) i)).
  set (n := Z.to_nat _).
  exists (firstn m s), (skipn n (skipn m s)).
  now rewrite firstn_skipn, firstn_skipn.
Qed.

Lemma cp_strip_part (s : CodePoints.text) :
  exists a b, s = (a ++ CodePoints.strip s ++ b)%list.
Proof.
  assert (Hl : forall t, exists a, t = (a ++ CodePoints.lstrip t)%list).
  { induction t as [|c t [a IH]]; simpl; [now exists []|].
    destruct (CodePoints.is_space c); [|now exists []].
    exists (c :: a); simpl; now f_equal. }
  assert (Hr : forall t, exists b, t = (CodePoints.rstrip t ++ b)%list).
  { induction t as [|c t [b IH]]; simpl; [now exists []|].
    destruct (CodePoints.rstrip t) as [|d r].
    - destruct (CodePoints.is_space c); [now exists (c :: t)|].
      exists b; simpl in *; now f_equal.
    - exists b; simpl in *; now f_equal. }
  unfold CodePoints.strip.
  destruct (Hl s) as [a Ha].
  destruct (Hr (CodePoints.lstrip s)) as [b Hb].
  exists a, b; now rewrite <- Hb.
Qed.

(** C6, as the code has it, on every text: [find] gives [-1] exactly when
    the phrase is the slice of its length at no offset, and the snippet is
    then the trimmed first 80 characters; otherwise [find] gives the first
    offset [pos] at which the phrase is that slice, and the snippet is the
    trimmed window from [max(0, pos - 40)] to
    [min(len(text), pos + len(phrase) + 40)], which covers the whole match;
    the snippet has at most [len(phrase) + 80] characters (80 in the
    fallback). Characters are code points and trimming removes every
    character for which [isspace] holds. *)
Theorem context_window_by_code_point (s p : CodePoints.text) :
  let pos := CodePoints.find s p in
  let snippet := CodePoints._extract_context s p in
  if pos =? -1 then
    (forall j, 0 <= j ->
               CodePoints.slice s j (j + CodePoints.len p) <> p) /\
    snippet = CodePoints.strip (CodePoints.slice s 0 80) /\
    CodePoints.len snippet <= 80
  else
    let start := Z.max 0 (pos - 40) in
    let stop := Z.min (CodePoints.len s) (pos + CodePoints.len p + 40) in
    0 <= start <= pos /\
    pos + CodePoints.len p <= stop <= CodePoints.len s /\
    stop - start <= CodePoints.len p + 80 /\
    CodePoints.slice s pos (pos + CodePoints.len p) = p /\
    (forall j, 0 <= j < pos ->
               CodePoints.slice s j (j + CodePoints.len p) <> p) /\
    CodePoints.slice (CodePoints.slice s start stop)
      (pos - start) (pos - start + CodePoints.len p) = p /\
    snippet = CodePoints.strip (CodePoints.slice s start stop) /\
    CodePoints.len snippet <= CodePoints.len p + 80.
Proof.
  cbv zeta.
  destruct (cp_extract_context_cases s p)
    as [(Hf & _ & Hno & He) | (k & Hf & _ & Hs & Hl & Hmin & He)];
    rewrite Hf, He.
  - simpl (-1 =? -1); split; [|split; [reflexivity|]].
    + intros j Hj E.
      rewrite <- (Z2Nat.id j Hj) in E.
      apply cp_startswith_slice in E; now rewrite Hno in E.
    + eapply Z.le_trans; [apply cp_strip_len|].
      eapply Z.le_trans; [apply cp_slice_len_le; lia | lia].
  - assert (Hne : (Z.of_nat k =? -1) = false) by (apply Z.eqb_neq; lia).
    rewrite Hne.
    pose proof (cp_len_nonneg p) as Hp.
    assert (Hlen : Z.of_nat k + CodePoints.len p <= CodePoints.len s)
      by (unfold CodePoints.len; lia).
    set (start := Z.max 0 (Z.of_nat k - 40)).
    set (stop := Z.min (CodePoints.len s)
                   (Z.of_nat k + CodePoints.len p + 40)).
    assert (H1 : 0 <= start <= Z.of_nat k) by (unfold start; lia).
    assert (H2 : Z.of_nat k + CodePoints.len p <= stop <= CodePoints.len s)
      by (unfold stop; lia).
    split; [exact H1|]; split; [exact H2|].
    split; [unfold start, stop; lia|].
    split; [now apply cp_startswith_slice|].
    split.
    { intros j [Hj0 Hjk] E.
      rewrite <- (Z2Nat.id j Hj0) in E.
      apply cp_startswith_slice in E.
      rewrite Hmin in E; [discriminate | lia]. }
    split; [now apply cp_window_holds_match|].
    split; [reflexivity|].
    eapply Z.le_trans; [apply cp_strip_len|].
    rewrite cp_slice_len_exact by lia.
    unfold start, stop; lia.
Qed.

(** C6, the counterexample: a seven-letter phrase in the middle of a long
    line gets a snippet of 87 characters, more than 80. *)
Lemma snippet_longer_than_80 :
  ~ CodePoints.len
      (CodePoints._extract_context
         (CodePoints.of_ascii
            ("this change was drafted over a long weekend, then generated "
             ++ "with chatgpt and checked by two maintainers before the "
             ++ "release branch was cut"))
         (CodePoints.of_ascii "chatgpt")) <= 80.
Proof. vm_compute. intros H; apply H; reflexivity. Qed.

(** X1: on every text, when the phrase occurs and neither begins nor ends
    with a character for which [isspace] holds, the snippet contains the
    phrase. *)
Theorem snippet_contains_phrase (s p : CodePoints.text) :
  CodePoints.outer_clean p = true ->
  CodePoints.str_in p s = true ->
  CodePoints.str_in p (CodePoints._extract_context s p) = true.
Proof.
  intros Hc Hin.
  destruct (cp_extract_context_cases s p)
    as [(_ & Hn & _) | (k & _ & _ & Hs & Hl & _ & He)]; [congruence|].
  rewrite He; apply cp_strip_keeps; [exact Hc|].
  pose proof (cp_len_nonneg p) as Hp.
  set (start := Z.max 0 (Z.of_nat k - 40)).
  set (stop := Z.min (CodePoints.len s)
                 (Z.of_nat k + CodePoints.len p + 40)).
  assert (Hlen : Z.of_nat k + CodePoints.len p <= CodePoints.len s)
    by (unfold CodePoints.len; lia).
  pose proof (cp_window_holds_match s p k start stop Hs) as Hw.
  destruct (cp_slice_part (CodePoints.slice s start stop)
              (Z.of_nat k - start)
              (Z.of_nat k - start + CodePoints.len p)) as (a & b & Hab).
  rewrite Hw in Hab by (unfold start, stop; lia).
  apply cp_str_in_iff; now exists a, b.
Qed.

Lemma snippet_contains_phrase_witness :
  CodePoints.str_in (CodePoints.of_ascii "gpt-4")
    (CodePoints._extract_context
       ([160%N] ++ CodePoints.of_ascii "summary by gpt-4" ++ [12288%N])%list
       (CodePoints.of_ascii "gpt-4")) = true.
Proof.
  apply (snippet_contains_phrase
           ([160%N] ++ CodePoints.of_ascii "summary by gpt-4"
            ++ [12288%N])%list
           (CodePoints.of_ascii "gpt-4"));
    reflexivity.
Defined.

(** X3: on every text, the snippet is empty or neither begins nor ends
    with a character for which [isspace] holds. *)
Theorem snippet_is_trimmed (s p : CodePoints.text) :
  CodePoints._extract_context s p = [] \/
  CodePoints.outer_clean (CodePoints._extract_context s p) = true.
Proof.
  destruct (cp_extract_context_cases s p)
    as [(_ & _ & _ & ->) | (k & _ & _ & _ & _ & _ & ->)];
    apply cp_strip_clean.
Qed.

(** X4: for a text of at most 40 characters the snippet is the whole text,
    trimmed, whether or not the phrase occurs. *)
Theorem short_text_snippet (s p : CodePoints.text) :
  CodePoints.len s <= 40 ->
  CodePoints._extract_context s p = CodePoints.strip s.
Proof.
  intros Hlen.
  pose proof (cp_len_nonneg s) as Hs0.
  pose proof (cp_len_nonneg p) as Hp0.
  assert (Hall : forall j, CodePoints.len s <= j ->
                           CodePoints.slice s 0 j = s).
  { intros j Hj; unfold CodePoints.slice, slice_bound.
    rewrite !Z.ltb_irrefl.
    destruct (j <? 0) eqn:E; [apply Z.ltb_lt in E; lia|].
    cbv zeta; rewrite (Z.min_l 0), (Z.min_r j) by lia.
    simpl skipn; apply firstn_all2; unfold CodePoints.len; lia. }
  destruct (cp_extract_context_cases s p)
    as [(_ & _ & _ & ->) | (k & _ & _ & _ & Hl & _ & ->)].
  - now rewrite Hall by lia.
  - assert (Hk : Z.of_nat k + CodePoints.len p <= CodePoints.len s)
      by (unfold CodePoints.len; lia).
    rewrite Z.max_l, Z.min_l by lia.
    now rewrite Hall by lia.
Qed.

Lemma short_text_snippet_witness :
  CodePoints._extract_context
    ([160%N] ++ CodePoints.of_ascii "claude" ++ [8195%N])%list
    (CodePoints.of_ascii "claude") =
  CodePoints.of_ascii "claude".
Proof.
  apply (short_text_snippet
           ([160%N] ++ CodePoints.of_ascii "claude" ++ [8195%N])%list
           (CodePoints.of_ascii "claude")).
  vm_compute; discriminate.
Defined.

(** ** ASCII text: the two versions agree *)

Lemma ascii_eqb_codes (a b : ascii) :
  Ascii.eqb a b = N.eqb (N_of_ascii a) (N_of_ascii b).
Proof.
  destruct (Ascii.eqb_spec a b) as [-> | Hne].
  - now rewrite N.eqb_refl.
  - symmetry; apply N.eqb_neq; intros H; apply Hne.
    now rewrite <- (ascii_N_embedding a), <- (ascii_N_embedding b), H.
Qed.

Lemma cp_startswith_ascii (p s : string) :
  CodePoints.startswith (CodePoints.of_ascii p) (CodePoints.of_ascii s) =
  startswith p s.
Proof.
  revert s; induction p as [|a p IH]; intros [|b s]; simpl; try reflexivity.
  now rewrite <- ascii_eqb_codes, <- IH.
Qed.

Lemma cp_find_from_ascii (p s : string) (i : Z) :
  CodePoints.find_from (CodePoints.of_ascii p) (CodePoints.of_ascii s) i =
  find_from p s i.
Proof.
  revert i; induction s as [|c s IH]; intros i.
  - simpl CodePoints.find_from; simpl find_from.
    now rewrite <- (cp_startswith_ascii p "").
  - change (CodePoints.of_ascii (String c s))
      with (N_of_ascii c :: CodePoints.of_ascii s).
    simpl CodePoints.find_from; simpl find_from.
    change (N_of_ascii c :: CodePoints.of_ascii s)
      with (CodePoints.of_ascii (String c s)).
    rewrite cp_startswith_ascii, IH; reflexivity.
Qed.

Lemma cp_len_ascii (s : string) :
  CodePoints.len (CodePoints.of_ascii s) = len s.
Proof.
  unfold CodePoints.len, len, CodePoints.of_ascii; rewrite length_map.
  induction s as [|c s IH]; simpl; [reflexivity | lia].
Qed.

Lemma of_ascii_substring (n m : nat) (s : string) :
  CodePoints.of_ascii (substring n m s) =
  firstn m (skipn n (CodePoints.of_ascii s)).
Proof.
  revert n m; induction s as [|c s IH]; intros [|n] [|m]; simpl;
    try reflexivity.
  - change (CodePoints.of_ascii (String c (substring 0 m s)))
      with (N_of_ascii c :: CodePoints.of_ascii (substring 0 m s)).
    now rewrite IH.
  - apply (IH n 0%nat).
  - apply (IH n (S m)).
Qed.

Lemma cp_slice_ascii (s : string) (a b : Z) :
  CodePoints.slice (CodePoints.of_ascii s) a b =
  CodePoints.of_ascii (slice s a b).
Proof.
  unfold CodePoints.slice, slice.
  now rewrite cp_len_ascii, of_ascii_substring.
Qed.

Lemma is_space_ascii (c : ascii) :
  (N_of_ascii c <? 128)%N = true ->
  CodePoints.is_space (N_of_ascii c) = is_space c.
Proof.
  intros H; apply N.ltb_lt in H.
  unfold CodePoints.is_space, is_space; cbv zeta.
  set (n := N_of_ascii c) in *.
  replace (n =? 133)%N with false by (symmetry; apply N.eqb_neq; lia).
  replace (n =? 160)%N with false by (symmetry; apply N.eqb_neq; lia).
  replace (n =? 5760)%N with false by (symmetry; apply N.eqb_neq; lia).
  replace (8192 <=? n)%N with false by (symmetry; apply N.leb_gt; lia).
  replace (n =? 8232)%N with false by (symmetry; apply N.eqb_neq; lia).
  replace (n =? 8233)%N with false by (symmetry; apply N.eqb_neq; lia).
  replace (n =? 8239)%N with false by (symmetry; apply N.eqb_neq; lia).
  replace (n =? 8287)%N with false by (symmetry; apply N.eqb_neq; lia).
  replace (n =? 12288)%N with false by (symmetry; apply N.eqb_neq; lia).
  simpl; now rewrite !orb_false_r.
Qed.

Lemma cp_lstrip_ascii (s : string) :
  ascii_only s = true ->
  CodePoints.lstrip (CodePoints.of_ascii s) = CodePoints.of_ascii (lstrip s).
Proof.
  induction s as [|c s IH]; [reflexivity|].
  simpl ascii_only; intros H; apply andb_prop in H as [Hc Hs].
  change (CodePoints.of_ascii (String c s))
    with (N_of_ascii c :: CodePoints.of_ascii s).
  simpl; rewrite (is_space_ascii c Hc).
  destruct (is_space c); [now apply IH | reflexivity].
Qed.

Lemma cp_rstrip_ascii (s : string) :
  ascii_only s = true ->
  CodePoints.rstrip (CodePoints.of_ascii s) = CodePoints.of_ascii (rstrip s).
Proof.
  induction s as [|c s IH]; [reflexivity|].
  simpl ascii_only; intros H; apply andb_prop in H as [Hc Hs].
  change (CodePoints.of_ascii (String c s))
    with (N_of_ascii c :: CodePoints.of_ascii s).
  simpl; rewrite (IH Hs), (is_space_ascii c Hc).
  destruct (rstrip s) as [|d r]; [|reflexivity].
  simpl; now destruct (is_space c).
Qed.

Lemma ascii_only_substring (n m : nat) (s : string) :
  ascii_only s = true -> ascii_only (substring n m s) = true.
Proof.
  revert n m; induction s as [|c s IH]; intros [|n] [|m]; simpl;
    try reflexivity; intros H; apply andb_prop in H as [Hc Hs].
  - now rewrite Hc, IH.
  - now apply IH.
  - now apply IH.
Qed.

Lemma ascii_only_lstrip (s : string) :
  ascii_only s = true -> ascii_only (lstrip s) = true.
Proof.
  induction s as [|c s IH]; [reflexivity|].
  simpl; intros H; destruct (is_space c); [|exact H].
  apply andb_prop in H as [_ Hs]; now apply IH.
Qed.

Lemma cp_strip_ascii (s : string) :
  ascii_only s = true ->
  CodePoints.strip (CodePoints.of_ascii s) = CodePoints.of_ascii (strip s).
Proof.
  intros H; unfold CodePoints.strip, strip.
  rewrite (cp_lstrip_ascii s H).
  now apply cp_rstrip_ascii, ascii_only_lstrip.
Qed.

(** On ASCII text the snippet on [string], which the scans compute, is
    the snippet on code points. *)
Lemma extract_context_ascii (s p : string) :
  ascii_only s = true ->
  CodePoints._extract_context (CodePoints.of_ascii s) (CodePoints.of_ascii p)
  = CodePoints.of_ascii (_extract_context s p).
Proof.
  intros H.
  unfold CodePoints._extract_context, CodePoints.extract_context_with,
    _extract_context, extract_context_with, CodePoints.find, find.
  rewrite cp_find_from_ascii, !cp_len_ascii, !cp_slice_ascii.
  destruct (find_from p s 0 =? -1);
    apply cp_strip_ascii, ascii_only_substring, H.
Qed.

(** * The null body, once more *)

(** C2, evaluated at a PR whose body is [null] while claude is named in an
    issue comment and in a commit message: both fetched scans have
    Evidence for claude, and the scan of the PR raises [TypeError] before
    either is read, so no concatenation is returned. *)
Theorem aggregation_lost_on_null_body :
  phrases_of (_scan_pr_comments two_source_forge "acme" "parser" 17) =
    [ ("claude", ["claude"; "asked claude"]) ] /\
  phrases_of (_scan_commit_messages two_source_forge "acme" "parser" 17) =
    [ ("claude", ["claude"; "claude suggested"]) ] /\
  repo_owner null_body_pr = "acme" /\
  repo_name null_body_pr = "parser" /\
  pr_number null_body_pr = 17 /\
  scan_pr_for_ai_tools two_source_forge null_body_pr = Raise TypeError.
Proof. vm_compute; repeat split. Qed.

(** C9, evaluated at a PR with a tool in its title and no description:
    "with copilot" is catalogued for github_copilot and occurs in the
    lowered title, and the scan raises [TypeError] on the [null] body
    instead of returning an Evidence. *)
Theorem title_phrase_lost_on_null_body (f : forge) :
  In "with copilot" (patterns_for "github_copilot") /\
  str_in "with copilot" (lower (title title_only_null_body_pr)) = true /\
  body title_only_null_body_pr = JNull /\
  scan_pr_for_ai_tools f title_only_null_body_pr = Raise TypeError /\
  analyze_pr_ai_ecosystem f title_only_null_body_pr = Raise TypeError.
Proof.
  split; [vm_compute; auto 10|].
  repeat split.
Qed.

(** * The most common combination, by equality of the names *)

Lemma same_names_tuple_eqb (a b : list string) :
  same_names a b = tuple_eqb a b.
Proof.
  unfold same_names.
  destruct (list_eq_dec string_dec a b) as [-> | Hne].
  - symmetry; now apply tuple_eqb_eq.
  - destruct (tuple_eqb a b) eqn:E; [|reflexivity].
    apply tuple_eqb_eq in E; contradiction.
Qed.

Lemma first_seen_ext {K : Type} (f g : K -> K -> bool) (seen l : list K) :
  (forall a b, f a b = g a b) ->
  first_seen f seen l = first_seen g seen l.
Proof.
  intros H; unfold first_seen.
  revert seen; induction l as [|k l IH]; intros seen; simpl; [reflexivity|].
  replace (existsb (f k) seen) with (existsb (g k) seen); [apply IH|].
  induction seen as [|x seen IHs]; simpl; [reflexivity|].
  now rewrite H, IHs.
Qed.

Lemma occurrences_count_occ (k : list string) (ks : list (list string)) :
  occurrences tuple_eqb k ks =
  Z.of_nat (count_occ (list_eq_dec string_dec) ks k).
Proof.
  unfold occurrences; f_equal.
  induction ks as [|x ks IH]; simpl; [reflexivity|].
  destruct (list_eq_dec string_dec x k) as [-> | Hne].
  - rewrite (proj2 (tuple_eqb_eq k k) eq_refl); simpl; now rewrite IH.
  - destruct (tuple_eqb k x) eqn:E; [|exact IH].
    apply tuple_eqb_eq in E; now elim Hne.
Qed.

Lemma combinations_entries (results : list analysis)
  (k : list string) (c : Z) :
  In (k, c) (combinations results) <->
  In k (combination_keys results) /\
  c = Z.of_nat
        (count_occ (list_eq_dec string_dec) (combination_keys results) k).
Proof.
  rewrite combinations_counted, <- occurrences_count_occ.
  set (ks := combination_keys results).
  split.
  - intros Hin.
    destruct (counted_entry tuple_eqb tuple_eqb_eq ks k c Hin) as [Hc H1].
    split; [|exact Hc].
    assert (Hk : In k (dict_keys
                         (fold_left (fun d k => count_up tuple_eqb k d)
                            ks [])))
      by (unfold dict_keys; exact (in_map fst _ _ Hin)).
    rewrite (counted_keys tuple_eqb tuple_eqb_eq) in Hk.
    destruct (first_seen_in tuple_eqb [] ks k Hk) as [[] | H]; exact H.
  - intros [Hk ->].
    pose proof (counted_get tuple_eqb tuple_eqb_eq k ks []) as Hget.
    simpl in Hget; unfold dict_get_default at 1 in Hget.
    destruct (dict_get tuple_eqb k
                (fold_left (fun d k => count_up tuple_eqb k d) ks []))
      as [c'|] eqn:E.
    + apply (dict_get_in tuple_eqb tuple_eqb_eq) in E; now rewrite <- Hget.
    + exfalso.
      assert (Hf : In k (filter (tuple_eqb k) ks))
        by (apply filter_In; split; [exact Hk | now apply tuple_eqb_eq]).
      unfold occurrences in Hget.
      destruct (filter (tuple_eqb k) ks); [now elim Hf | simpl in Hget; lia].
Qed.

(** C7: the key of a multi-AI analysis is its sorted list of tool names, and
    two keys are the same exactly when the names are the same up to order.
    The dictionary [combinations] has each key once, in the order of its
    first occurrence, with the number of multi-AI analyses whose sorted
    names are equal to it, so that different sets of tools are counted
    apart; when the multi-AI analyses are two, with the same tools in any
    order, the dictionary is that one combination with count 2, and it is
    the one reported; the combination reported is the first entry, in
    that order, among those of the largest count. *)
Theorem top_combination_canonical (results : list analysis) :
  let keys := combination_keys results in
  (forall r1 r2,
      sorted (ai_tool_names r1) = sorted (ai_tool_names r2) <->
      Permutation (ai_tool_names r1) (ai_tool_names r2)) /\
  (forall a b, tuple_eqb a b = true <-> a = b) /\
  NoDup (dict_keys (combinations results)) /\
  dict_keys (combinations results) = first_seen same_names [] keys /\
  dict_keys (combinations results) = first_seen tuple_eqb [] keys /\
  (forall k c,
      In (k, c) (combinations results) <->
      In k keys /\
      c = Z.of_nat (count_occ (list_eq_dec string_dec) keys k)) /\
  (forall k,
      dict_get_default tuple_eqb k 0 (combinations results) =
      occurrences tuple_eqb k keys) /\
  (forall r1 r2,
      filter is_multi_ai results = [r1; r2] ->
      Permutation (ai_tool_names r1) (ai_tool_names r2) ->
      combinations results = [(sorted (ai_tool_names r1), 2)] /\
      top_combination results = Some (sorted (ai_tool_names r1), 2)) /\
  match top_combination results with
  | None => keys = []
  | Some top =>
      exists before after,
        combinations results = (before ++ top :: after)%list /\
        Forall (fun e => snd e < snd top) before /\
        Forall (fun e => snd e <= snd top) after
  end.
Proof.
  cbv zeta.
  assert (Hkeys : dict_keys (combinations results) =
                  first_seen tuple_eqb [] (combination_keys results))
    by (rewrite combinations_counted;
        apply (counted_keys tuple_eqb tuple_eqb_eq)).
  split; [intros r1 r2; apply sorted_eq_iff|].
  split; [apply tuple_eqb_eq|].
  split; [rewrite combinations_counted;
          apply (counted_nodup tuple_eqb tuple_eqb_eq); constructor|].
  split; [rewrite Hkeys; symmetry; apply first_seen_ext;
          apply same_names_tuple_eqb|].
  split; [exact Hkeys|].
  split; [intros k c; apply combinations_entries|].
  split; [intros k; rewrite combinations_counted;
          apply (counted_get tuple_eqb tuple_eqb_eq)|].
  split.
  - intros r1 r2 Hf Hp.
    assert (Hc : combinations results = [(sorted (ai_tool_names r1), 2)]).
    { rewrite combinations_counted; unfold combination_keys; rewrite Hf.
      simpl; rewrite <- (sorted_of_permutation _ _ Hp).
      apply count_up_twice. }
    split; [exact Hc|].
    unfold top_combination; now rewrite Hc.
  - unfold top_combination.
    pose proof (max_by_count_first (combinations results)) as H.
    destruct (max_by_count (combinations results)) as [top|]; [exact H|].
    now apply combinations_nil.
Qed.

(** Three sets of tools, one of them twice in two orders: three entries,
    counted apart, and the pair seen twice is reported. *)
Example combinations_counted_apart :
  combinations
    [ sample_analysis "codex" ["cursor"; "claude"];
      sample_analysis "devin" ["github_copilot"; "chatgpt"];
      sample_analysis "codex" ["devin"];
      sample_analysis "cursor" ["claude"; "chatgpt"; "cursor"];
      sample_analysis "codex" ["chatgpt"; "github_copilot"] ] =
    [ (["claude"; "cursor"], 1);
      (["chatgpt"; "github_copilot"], 2);
      (["chatgpt"; "claude"; "cursor"], 1) ] /\
  top_combination
    [ sample_analysis "codex" ["cursor"; "claude"];
      sample_analysis "devin" ["github_copilot"; "chatgpt"];
      sample_analysis "codex" ["devin"];
      sample_analysis "cursor" ["claude"; "chatgpt"; "cursor"];
      sample_analysis "codex" ["chatgpt"; "github_copilot"] ] =
    Some (["chatgpt"; "github_copilot"], 2).
Proof. vm_compute; split; reflexivity. Qed.
